(** * PoreSpy filters: the SNOW peak pipeline and the linear distance transform

    A shallow embedding of [porespy/filters/__funcs__.py]:
    [distance_transform_lin], [find_peaks], [trim_saddle_points],
    [trim_nearby_peaks], [snow_partitioning], [porosimetry],
    [local_thickness], [trim_extrema], [flood], [region_size],
    [find_dt_artifacts], [find_disconnected_voxels], [fill_blind_pores],
    [trim_floating_solid] and [nphase_border], together with executable
    models of the numpy, scipy and skimage operations these functions call.

    Conventions of the embedding.
    - An n-dimensional array is its shape and its elements in C order, as numpy
      stores them; an element is read through [ravel_multi_index].
    - Values of a distance field are rationals ([Q]): every finite float is a
      rational, and comparisons, maxima and equality tests are exact on them.
      Rounding of float arithmetic is outside the model; a Euclidean distance
      between integer points is compared through its square.
    - A Python exception is the [Raise] case of [result]; calls are sequenced
      with the bind of that monad, so an exception leaves the function at the
      point where Python would raise it.
    - [peaks] and [dt] are arrays of one shape (the documented contract);
      elementwise operators are modelled on operands of equal shape.
    - An axis is a natural number (Python's negative axes are left out), and
      optional arguments are passed explicitly.
    - scipy.ndimage.label numbers the features in the order in which a C-order
      scan meets them; where cKDTree has several nearest neighbours at one
      distance, the model takes the first.
    - What Python prints is not modelled. *)

From Stdlib Require Import String Ascii ZArith QArith Qround Bool List Lia Lqa.
Import ListNotations.

Set Implicit Arguments.
Open Scope Z_scope.

(** Closes a goal that both sides of an equation compute to one value. *)
Ltac by_run := vm_compute; reflexivity.

(** ** Exceptions *)

Inductive exn : Type :=
| Exception (msg : string)
| ValueError (msg : string)
| RuntimeError (msg : string)
| IndexError (msg : string)
| TypeError (msg : string)
| AxisError (msg : string)
| UnboundLocalError (msg : string)
| RecursionError (msg : string).

Inductive result (A : Type) : Type :=
| Ok (a : A)
| Raise (e : exn).

Arguments Ok {A} a.
Arguments Raise {A} e.

Definition bind {A B : Type} (m : result A) (k : A -> result B) : result B :=
  match m with
  | Ok a => k a
  | Raise e => Raise e
  end.

Notation "x <- m ;; k" := (bind m (fun x => k))
  (at level 61, m at next level, right associativity).
Notation "' pat <- m ;; k" := (bind m (fun x => match x with pat => k end))
  (at level 61, pat pattern, m at next level, right associativity).

Definition raises {A : Type} (m : result A) : Prop := exists e, m = Raise e.

(** ** Arrays *)

Abbreviation index := (list Z).

Record ndarray (A : Type) : Type := mk_ndarray {
  shape : list Z;
  data : list A
}.

(** The value read where Python would not read at all (an index outside the
    array); no function of the source reads there under the shape contract. *)
Class Fill (A : Type) : Type := fill : A.
#[export] Instance fill_bool : Fill bool := false.
#[export] Instance fill_Z : Fill Z := 0.
#[export] Instance fill_Q : Fill Q := 0%Q.

Definition ndim {A : Type} (a : ndarray A) : Z := Z.of_nat (length (shape a)).

Definition size_of_shape (l : list Z) : Z := fold_right Z.mul 1 l.

Definition arange (n : Z) : list Z := map Z.of_nat (seq 0 (Z.to_nat n)).

(** numpy.ndindex: every index of a shape, in C order. *)
Fixpoint ndindex (sh : list Z) : list index :=
  match sh with
  | [] => [[]]
  | n :: sh' => flat_map (fun i => map (cons i) (ndindex sh')) (arange n)
  end.

Fixpoint ravel_multi_index (x : index) (sh : list Z) : Z :=
  match x, sh with
  | i :: x', _ :: sh' => i * size_of_shape sh' + ravel_multi_index x' sh'
  | _, _ => 0
  end.

Fixpoint in_bounds (x : index) (sh : list Z) : bool :=
  match x, sh with
  | [], [] => true
  | i :: x', n :: sh' => (0 <=? i) && (i <? n) && in_bounds x' sh'
  | _, _ => false
  end.

Definition item {A : Type} `{Fill A} (a : ndarray A) (x : index) : A :=
  if in_bounds x (shape a)
  then nth (Z.to_nat (ravel_multi_index x (shape a))) (data a) fill
  else fill.

Definition fromfunction {A : Type} (sh : list Z) (f : index -> A) : ndarray A :=
  mk_ndarray sh (map f (ndindex sh)).

Definition full {A : Type} (sh : list Z) (v : A) : ndarray A :=
  fromfunction sh (fun _ => v).

Definition map_nd {A B : Type} `{Fill A} (f : A -> B) (a : ndarray A) : ndarray B :=
  fromfunction (shape a) (fun x => f (item a x)).

Definition zip_nd {A B C : Type} `{Fill A} `{Fill B}
    (f : A -> B -> C) (a : ndarray A) (b : ndarray B) : ndarray C :=
  fromfunction (shape a) (fun x => f (item a x) (item b x)).

Fixpoint index_eqb (x y : index) : bool :=
  match x, y with
  | [], [] => true
  | i :: x', j :: y' => (i =? j) && index_eqb x' y'
  | _, _ => false
  end.

Definition index_add (x o : index) : index := map (fun p => fst p + snd p) (combine x o).
Definition index_sub (x o : index) : index := map (fun p => fst p - snd p) (combine x o).

(** numpy.all, numpy.any and numpy.sum of a boolean array. *)
Definition np_all (a : ndarray bool) : bool := forallb (fun b => b) (data a).
Definition np_any (a : ndarray bool) : bool := existsb (fun b => b) (data a).
Definition np_sum (a : ndarray bool) : Z :=
  fold_right (fun (b : bool) acc => (if b then 1 else 0) + acc) 0 (data a).

Definition logical_and (a b : ndarray bool) : ndarray bool := zip_nd andb a b.
Definition equal_bool (a b : ndarray bool) : ndarray bool := zip_nd Bool.eqb a b.

(** Comparisons of rationals as booleans. *)
Definition Qltb (x y : Q) : bool := negb (Qle_bool y x).
Definition Qmaxb (x y : Q) : Q := if Qle_bool x y then y else x.

Definition greater_zero_Q (a : ndarray Q) : ndarray bool := map_nd (fun v => Qltb 0 v) a.

(** The largest element of a list, from left to right. *)
Definition Qmax_list (l : list Q) : Q :=
  match l with
  | [] => 0%Q
  | v :: vs => fold_left Qmaxb vs v
  end.

(** numpy.amax of an array of rationals; numpy raises on an empty array. *)
Definition amax (a : ndarray Q) : result Q :=
  match data a with
  | [] => Raise (ValueError "zero-size array to reduction operation maximum which has no identity")
  | _ => Ok (Qmax_list (data a))
  end.

(** ** Slices *)

(** A slice per axis, [start:stop], as scipy.ndimage.find_objects returns them. *)
Abbreviation slices := (list (Z * Z)).

Definition slice_shape (s : slices) : list Z := map (fun p => Z.max 0 (snd p - fst p)) s.
Definition slice_start (s : slices) : index := map fst s.

Fixpoint in_slice (x : index) (s : slices) : bool :=
  match x, s with
  | [], [] => true
  | i :: x', (lo, hi) :: s' => (lo <=? i) && (i <? hi) && in_slice x' s'
  | _, _ => false
  end.

(** [a[s]] *)
Definition getslice {A : Type} `{Fill A} (a : ndarray A) (s : slices) : ndarray A :=
  fromfunction (slice_shape s) (fun y => item a (index_add y (slice_start s))).

(** The right-hand side of [a[s] = v]: an array of the slice's shape, or a
    scalar that numpy broadcasts. *)
Inductive operand (A : Type) : Type :=
| Arr (v : ndarray A)
| Scalar (c : A).

Arguments Arr {A} v.
Arguments Scalar {A} c.

(** [a[s] = v] *)
Definition setslice {A : Type} `{Fill A} (a : ndarray A) (s : slices) (v : operand A)
    : ndarray A :=
  fromfunction (shape a) (fun x =>
    if in_slice x s
    then match v with
         | Arr w => item w (index_sub x (slice_start s))
         | Scalar c => c
         end
    else item a x).

(** ** numpy operations along one axis *)

Definition axis_get (x : index) (axis : nat) : Z := nth axis x 0.

Fixpoint axis_set (x : index) (axis : nat) (k : Z) : index :=
  match x, axis with
  | [], _ => []
  | _ :: x', O => k :: x'
  | i :: x', S axis' => i :: axis_set x' axis' k
  end.

Definition check_axis {A : Type} (a : ndarray A) (axis : nat) : result unit :=
  if (Z.of_nat axis <? ndim a)
  then Ok tt
  else Raise (AxisError "axis is out of bounds for array").

(** numpy.flip(a, axis) *)
Definition flip (a : ndarray Z) (axis : nat) : result (ndarray Z) :=
  _ <- check_axis a axis ;;
  Ok (fromfunction (shape a) (fun x =>
        item a (axis_set x axis (axis_get (shape a) axis - 1 - axis_get x axis)))).

(** numpy.cumsum(a, axis) *)
Definition cumsum (a : ndarray Z) (axis : nat) : result (ndarray Z) :=
  _ <- check_axis a axis ;;
  Ok (fromfunction (shape a) (fun x =>
        fold_right Z.add 0
          (map (fun k => item a (axis_set x axis k)) (arange (axis_get x axis + 1))))).

(** numpy.diff(a, axis): one element shorter along the axis. *)
Definition diff (a : ndarray Z) (axis : nat) : ndarray Z :=
  fromfunction (axis_set (shape a) axis (Z.max 0 (axis_get (shape a) axis - 1)))
    (fun x => item a (axis_set x axis (axis_get x axis + 1)) - item a x).

(** numpy.minimum.accumulate(a, axis): the running minimum along the axis. *)
Definition minimum_accumulate (a : ndarray Z) (axis : nat) : ndarray Z :=
  fromfunction (shape a) (fun x =>
    fold_right Z.min (item a (axis_set x axis 0))
      (map (fun k => item a (axis_set x axis k)) (arange (axis_get x axis + 1)))).

(** numpy.pad with one constant 0 before the first element of the axis and
    nothing elsewhere: the pad widths the source passes for 1, 2 and 3
    dimensions. *)
Definition pad_before (a : ndarray Z) (axis : nat) : ndarray Z :=
  fromfunction (axis_set (shape a) axis (axis_get (shape a) axis + 1))
    (fun x => if axis_get x axis =? 0 then 0
              else item a (axis_set x axis (axis_get x axis - 1))).

Definition minimum (a b : ndarray Z) : ndarray Z := zip_nd Z.min a b.

Definition mode_in (mode : string) (options : list string) : bool :=
  existsb (String.eqb mode) options.

(** ** distance_transform_lin (lines 17-74) *)

(** The [else] branch of the source (lines 60-74). The integers are exact
    here; numpy computes in the integer type of the arrays, which agrees as
    long as the products fit that type. *)
Definition distance_transform_lin_else (im : ndarray Z) (axis : nat) : result (ndarray Z) :=
  b <- cumsum (map_nd (fun v => if v >? 0 then 1 else 0) im) axis ;;
  let c := diff (zip_nd Z.mul b (map_nd (fun v => if v =? 0 then 1 else 0) im)) axis in
  let d := minimum_accumulate c axis in
  e <- (if ndim im =? 1 then Ok (pad_before d 0)
        else if ndim im =? 2 then Ok (pad_before d axis)
        else if ndim im =? 3 then Ok (pad_before d axis)
        else Raise (UnboundLocalError "local variable 'e' referenced before assignment")) ;;
  Ok (zip_nd Z.mul im (zip_nd Z.add b e)).

(** The function calls itself at most twice in a row ('both' calls
    'backward', which calls 'forward'); [depth] bounds the nesting. *)
Fixpoint distance_transform_lin_rec (depth : nat) (im : ndarray Z) (axis : nat)
    (mode : string) : result (ndarray Z) :=
  match depth with
  | O => Raise (RecursionError "maximum recursion depth exceeded")
  | S depth' =>
      if mode_in mode ["backward"; "reverse"]%string then
        im <- flip im axis ;;
        im <- distance_transform_lin_rec depth' im axis "forward" ;;
        flip im axis
      else if mode_in mode ["both"]%string then
        im_f <- distance_transform_lin_rec depth' im axis "forward" ;;
        im_b <- distance_transform_lin_rec depth' im axis "backward" ;;
        Ok (minimum im_f im_b)
      else distance_transform_lin_else im axis
  end.

Definition distance_transform_lin (im : ndarray Z) (axis : nat) (mode : string)
    : result (ndarray Z) :=
  distance_transform_lin_rec 3 im axis mode.

(** The array of the specification's example. *)
Definition lin_example : ndarray Z := mk_ndarray [8] [0; 1; 1; 1; 0; 1; 1; 0].

(** ** skimage.morphology structuring elements *)

(** [square(n)] and [cube(n)]: arrays of ones. *)
Definition square (n : Z) : ndarray bool := full [n; n] true.
Definition cube (n : Z) : ndarray bool := full [n; n; n] true.

Definition sum_sq (x : index) : Z := fold_right (fun i acc => i * i + acc) 0 x.

(** [disk(r)] and [ball(r)]: the points of the (2r+1)-wide grid within
    distance r of its centre. *)
Definition disk (r : Z) : ndarray bool :=
  fromfunction [2 * r + 1; 2 * r + 1]
    (fun x => sum_sq (index_sub x [r; r]) <=? r * r).
Definition ball (r : Z) : ndarray bool :=
  fromfunction [2 * r + 1; 2 * r + 1; 2 * r + 1]
    (fun x => sum_sq (index_sub x [r; r; r]) <=? r * r).

(** scipy.ndimage.generate_binary_structure(rank, 1): the centre and its
    face neighbours, the default structure of scipy.ndimage.label. *)
Definition generate_binary_structure (rank : nat) : ndarray bool :=
  fromfunction (repeat 3 rank)
    (fun x => sum_sq (index_sub x (repeat 1 rank)) <=? 1).

(** The offsets, from the centre, of the true elements of a structure. *)
Definition offsets (structure : ndarray bool) : list index :=
  let centre := map (fun n => n / 2) (shape structure) in
  map (fun p => index_sub p centre)
    (filter (fun p => item structure p) (ndindex (shape structure))).

Definition same_rank {A B : Type} (a : ndarray A) (b : ndarray B) : bool :=
  ndim a =? ndim b.

(** ** scipy.ndimage *)

(** One dilation by a set of offsets; outside the array is background. *)
Definition dilate (offs : list index) (input : ndarray bool) : ndarray bool :=
  fromfunction (shape input) (fun x => existsb (fun o => item input (index_sub x o)) offs).

(** binary_dilation(input, structure), one iteration, border value 0. *)
Definition binary_dilation (input : ndarray bool) (structure : ndarray bool)
    : result (ndarray bool) :=
  if same_rank input structure
  then Ok (dilate (offsets structure) input)
  else Raise (RuntimeError "structure and input must have same dimensionality").

(** The connected component of a seed: the seed grown through true
    neighbours until nothing is added. *)
Definition grow (offs : list index) (input comp : ndarray bool) : ndarray bool :=
  fromfunction (shape input) (fun x =>
    item input x && (item comp x || existsb (fun o => item comp (index_sub x o)) offs)).

Fixpoint flood (fuel : nat) (offs : list index) (input comp : ndarray bool) : ndarray bool :=
  match fuel with
  | O => comp
  | S fuel' =>
      let comp' := grow offs input comp in
      if np_all (equal_bool comp' comp) then comp else flood fuel' offs input comp'
  end.

Definition component (offs : list index) (input : ndarray bool) (seed : index) : ndarray bool :=
  flood (length (data input)) offs input
    (fromfunction (shape input) (fun x => item input x && index_eqb x seed)).

(** The scan of scipy.ndimage.label: indices are visited in C order, and a
    true element that has no label yet starts the next feature. *)
Fixpoint label_scan (todo : list index) (offs : list index) (input : ndarray bool)
    (labels : ndarray Z) (n : Z) : ndarray Z * Z :=
  match todo with
  | [] => (labels, n)
  | x :: todo' =>
      if item input x && (item labels x =? 0)
      then
        let comp := component offs input x in
        let labels' := fromfunction (shape input)
                         (fun y => if item comp y then n + 1 else item labels y) in
        label_scan todo' offs input labels' (n + 1)
      else label_scan todo' offs input labels n
  end.

(** label(input, structure): the labelled features and their number. *)
Definition label (input : ndarray bool) (structure : ndarray bool) : result (ndarray Z * Z) :=
  if same_rank input structure
  then Ok (label_scan (ndindex (shape input)) (offsets structure) input
             (full (shape input) 0) 0)
  else Raise (RuntimeError "structure and input must have equal rank").

(** label(input) with the default structure. *)
Definition label_default (input : ndarray bool) : result (ndarray Z * Z) :=
  label input (generate_binary_structure (length (shape input))).

(** The bounding box of a list of indices of rank [rank]. *)
Definition bounding_box (rank : nat) (xs : list index) : option slices :=
  match xs with
  | [] => None
  | x0 :: xs' =>
      Some (map (fun axis =>
                   (fold_left Z.min (map (fun x => axis_get x axis) xs') (axis_get x0 axis),
                    fold_left Z.max (map (fun x => axis_get x axis) xs') (axis_get x0 axis) + 1))
                (seq 0 rank))
  end.

Definition max_label (labels : ndarray Z) : Z := fold_right Z.max 0 (data labels).

(** find_objects(labels): for each label 1..max a bounding slice, or None
    when the label does not occur. *)
Definition find_objects (labels : ndarray Z) : list (option slices) :=
  map (fun l => bounding_box (length (shape labels))
                  (filter (fun x => item labels x =? l) (ndindex (shape labels))))
      (map (fun k => k + 1) (arange (max_label labels))).

(** center_of_mass(input, labels, index): per label of [index], and per axis,
    the sum of input times coordinate over the sum of input, over the
    elements that carry the label. *)
Definition center_of_mass (input labels : ndarray Z) (idx : list Z) : list (list Q) :=
  map (fun l =>
         let xs := filter (fun x => item labels x =? l) (ndindex (shape labels)) in
         let normalizer := fold_right Z.add 0 (map (fun x => item input x) xs) in
         map (fun axis =>
                let moment := fold_right Z.add 0
                                (map (fun x => item input x * axis_get x axis) xs) in
                Qdiv (inject_Z moment) (inject_Z normalizer))
             (seq 0 (length (shape labels))))
      idx.

(** astype(int) of a float: truncation towards zero. *)
Definition astype_int (q : Q) : Z := Z.quot (Qnum q) (Zpos (Qden q)).

(** vstack of a list of rows; numpy raises on an empty list. *)
Definition vstack {A : Type} (rows : list (list A)) : result (list (list A)) :=
  match rows with
  | [] => Raise (ValueError "need at least one array to concatenate")
  | _ => Ok rows
  end.

(** The boundary mode 'reflect' of scipy.ndimage filters: the array is
    mirrored about the edge of its last element (d c b a | a b c d | d c b a). *)
Definition reflect1 (n i : Z) : Z :=
  let m := i mod (2 * n) in
  if m <? n then m else 2 * n - 1 - m.

Definition reflect (sh : list Z) (x : index) : index :=
  map (fun p => reflect1 (fst p) (snd p)) (combine sh x).

(** The elements a filter with a footprint reads around [x]. *)
Definition neighbourhood (footprint : ndarray bool) (sh : list Z) (x : index) : list index :=
  map (fun o => reflect sh (index_add x o)) (offsets footprint).

(** maximum_filter(input, footprint=...), mode 'reflect'. *)
Definition maximum_filter (input : ndarray Q) (footprint : ndarray bool) : result (ndarray Q) :=
  if same_rank input footprint then
    match offsets footprint with
    | [] => Raise (ValueError "All-zero footprint is not supported.")
    | _ =>
        Ok (fromfunction (shape input) (fun x =>
              Qmax_list (map (item input) (neighbourhood footprint (shape input) x))))
    end
  else Raise (RuntimeError "footprint array has incorrect shape.").

(** ** scipy.spatial.cKDTree *)

Definition dist_sq (x y : index) : Z := sum_sq (index_sub x y).

(** The nearest other point of [pts] to the point number [i]: its number and
    its squared distance. Of several nearest points the first is taken.
    With a single point there is none, and the tree answers with the
    distance infinity and the number of points as the neighbour. *)
Definition nearest_other (pts : list index) (i : nat) : nat * option Z :=
  let p := nth i pts [] in
  fold_left
    (fun (best : nat * option Z) (jq : nat * index) =>
       if Nat.eqb (fst jq) i then best
       else let d := dist_sq p (snd jq) in
            match snd best with
            | None => (fst jq, Some d)
            | Some b => if d <? b then (fst jq, Some d) else best
            end)
    (combine (seq 0 (length pts)) pts)
    (length pts, None).

(** tree.query(x=pts, k=2), second column: for every point the number of
    its nearest neighbour and the squared distance to it. *)
Definition query_second (pts : list index) : list (nat * option Z) :=
  map (nearest_other pts) (seq 0 (length pts)).

(** [sqrt d2 < q], the comparison of a distance with a rational, decided on
    the squares; [None] is the distance infinity. *)
Definition dist_lt (d2 : option Z) (q : Q) : bool :=
  match d2 with
  | None => false
  | Some d => Qltb 0 q && Qltb (inject_Z d) (Qmult q q)
  end.

(** numpy.unique of a list of numbers: sorted, without repeats. *)
Fixpoint insert_unique (k : nat) (l : list nat) : list nat :=
  match l with
  | [] => [k]
  | h :: t => if Nat.ltb k h then k :: l
              else if Nat.eqb k h then l
              else h :: insert_unique k t
  end.

Definition unique (l : list nat) : list nat := fold_right insert_unique [] l.

(** ** porespy.tools.extend_slice *)

(** Modelled from the spec: [extend_slice] is defined in porespy/tools, which
    is not among the sources at hand. The specification has each cluster
    processed "in a locally cropped sub-volume padded by a margin of 10
    voxels"; the call [extend_slice(s=slices[i], shape=peaks.shape, pad=10)]
    passes the shape so that the padded slice stays inside the image. *)
Definition extend_slice (s : slices) (sh : list Z) (pad : Z) : slices :=
  map (fun p =>
         let '((start, stop), dim) := p in
         (if 0 <=? start - pad then start - pad else 0,
          if stop + pad <? dim then stop + pad else dim))
      (combine s sh).

(** ** find_peaks (lines 187-233) *)

Definition find_peaks (dt : ndarray Q) (r_max : Z) (footprint : option (Z -> ndarray bool))
    : result (ndarray bool) :=
  let im := greater_zero_Q dt in
  footprint <- match footprint with
               | Some f => Ok f
               | None =>
                   if ndim im =? 2 then Ok disk
                   else if ndim im =? 3 then Ok ball
                   else Raise (Exception "only 2-d and 3-d images are supported")
               end ;;
  mx <- maximum_filter
          (zip_nd (fun v (b : bool) => (v + (if negb b then 2 else 0))%Q) dt im)
          (footprint r_max) ;;
  Ok (logical_and (zip_nd Qeq_bool dt mx) im).

(** ** trim_saddle_points (lines 274-330) *)

(** Line 319-320: [peaks_max = peaks_dil*amax(dt_i*peaks_dil)] and
    [peaks_extended = (peaks_max == dt_i)*im_i]. *)
Definition peaks_extended_of (dt_i : ndarray Q) (im_i peaks_dil : ndarray bool)
    : result (ndarray bool) :=
  mx <- amax (zip_nd (fun v (b : bool) => if b then v else 0%Q) dt_i peaks_dil) ;;
  let peaks_max := map_nd (fun b : bool => if b then mx else 0%Q) peaks_dil in
  Ok (logical_and (zip_nd Qeq_bool peaks_max dt_i) im_i).

(** The [while] loop of lines 315-325. [fuel] is [max_iters - iters], the
    number of iterations the loop condition still allows; the result is the
    final [peaks_i] (the array, or [False]) and the final [iters]. *)
Fixpoint saddle_while (fuel : nat) (iters : Z) (cube3 : ndarray bool)
    (dt_i : ndarray Q) (im_i peaks_i peaks_dil : ndarray bool)
    : result (operand bool * Z) :=
  match fuel with
  | O => Ok (Arr peaks_i, iters)
  | S fuel' =>
      let iters := iters + 1 in
      peaks_dil <- binary_dilation peaks_dil cube3 ;;
      peaks_extended <- peaks_extended_of dt_i im_i peaks_dil ;;
      if np_all (equal_bool peaks_extended peaks_i) then
        Ok (Arr peaks_i, iters)                      (* Found a true peak *)
      else if np_sum (logical_and peaks_extended peaks_i) =? 0 then
        Ok (Scalar false, iters)                     (* Found a saddle point *)
      else saddle_while fuel' iters cube3 dt_i im_i peaks_i peaks_dil
  end.

(** [slices[i]] followed by a use of the slice: an index past the end and
    the entry None both raise. *)
Definition slice_at (sl : list (option slices)) (i : nat) : result slices :=
  match nth_error sl i with
  | None => Raise (IndexError "list index out of range")
  | Some None => Raise (TypeError "'NoneType' object is not iterable")
  | Some (Some s) => Ok s
  end.

(** Lines 309-325 for the cluster number [i]: the padded slice, and the
    final [peaks_i] and [iters] of the loop. *)
Definition trim_saddle_cluster (dt : ndarray Q) (max_iters : Z) (cube3 : ndarray bool)
    (labels : ndarray Z) (sl : list (option slices)) (sh : list Z) (i : nat)
    : result (slices * operand bool * Z) :=
  s0 <- slice_at sl i ;;
  let s := extend_slice s0 sh 10 in
  let peaks_i := map_nd (fun l => l =? Z.of_nat i + 1) (getslice labels s) in
  let dt_i := getslice dt s in
  let im_i := greater_zero_Q dt_i in
  let iters := 0 in
  let peaks_dil := peaks_i in
  '(peaks_i, iters) <-
     saddle_while (Z.to_nat (max_iters - iters)) iters cube3 dt_i im_i peaks_i peaks_dil ;;
  Ok (s, peaks_i, iters).

(** The body of the [for] loop (lines 309-326): the cluster, then line 326,
    [peaks[s] = peaks_i]. *)
Definition trim_saddle_step (dt : ndarray Q) (max_iters : Z) (cube3 : ndarray bool)
    (labels : ndarray Z) (sl : list (option slices)) (peaks : ndarray bool) (i : nat)
    : result (ndarray bool) :=
  '(s, peaks_i, _) <- trim_saddle_cluster dt max_iters cube3 labels sl (shape peaks) i ;;
  Ok (setslice peaks s peaks_i).

Fixpoint for_each {S : Type} (body : S -> nat -> result S) (l : list nat) (st : S)
    : result S :=
  match l with
  | [] => Ok st
  | i :: l' => st' <- body st i ;; for_each body l' st'
  end.

Definition trim_saddle_points (peaks : ndarray bool) (dt : ndarray Q) (max_iters : Z)
    : result (ndarray bool) :=
  let cube3 := if ndim dt =? 2 then square 3 else cube 3 in
  '(labels, N) <- label_default peaks ;;
  let sl := find_objects labels in
  for_each (trim_saddle_step dt max_iters cube3 labels sl) (seq 0 (Z.to_nat N)) peaks.

(** ** trim_nearby_peaks (lines 333-389) *)

(** The loop of lines 378-383 over [hits]. *)
Definition drop_list (dist_to_solid : list Q) (nearest_neighbor : list nat) (hits : list nat)
    : list nat :=
  map (fun peak =>
         let nn := nth peak nearest_neighbor O in
         if Qltb (nth peak dist_to_solid 0%Q) (nth nn dist_to_solid 0%Q)
         then peak else nn)
      hits.

(** Lines 366-384: the centres of the labelled clusters, their nearest
    neighbours, and the clusters to drop, numbered from 0. *)
Definition nearby_drop_peaks (peaks : ndarray Z) (N : Z) (dt : ndarray Q) : result (list nat) :=
  let crds := center_of_mass peaks peaks (map (fun k => k + 1) (arange N)) in
  crds <- vstack crds ;;
  let crds := map (map astype_int) crds in
  let temp := query_second crds in
  let nearest_neighbor := map fst temp in
  let dist_to_neighbor := map snd temp in
  let dist_to_solid := map (item dt) crds in
  let hits := filter (fun i => dist_lt (nth i dist_to_neighbor None) (nth i dist_to_solid 0%Q))
                (seq 0 (length crds)) in
  Ok (unique (drop_list dist_to_solid nearest_neighbor hits)).

Definition trim_nearby_peaks (peaks : ndarray bool) (dt : ndarray Q) : result (ndarray bool) :=
  let cube3 := if ndim dt =? 2 then square 3 else cube 3 in
  '(peaks, N) <- label peaks cube3 ;;
  drop_peaks <- nearby_drop_peaks peaks N dt ;;
  let sl := find_objects peaks in
  peaks <- for_each (fun pk s => s0 <- slice_at sl s ;; Ok (setslice pk s0 (Scalar 0)))
             drop_peaks peaks ;;
  Ok (map_nd (fun l => l >? 0) peaks).

(** ** snow_partitioning (lines 77-184) *)

(** numpy.squeeze and numpy.expand_dims change the shape only. *)
Definition squeeze {A : Type} (a : ndarray A) : ndarray A :=
  mk_ndarray (filter (fun n => negb (n =? 1)) (shape a)) (data a).

Definition expand_dims {A : Type} (a : ndarray A) (ax : nat) : ndarray A :=
  mk_ndarray (firstn ax (shape a) ++ 1 :: skipn ax (shape a)) (data a).

(** The first axis of length 1, [where(im_shape == 1)[0][0]]. *)
Fixpoint first_unit_axis (sh : list Z) : option nat :=
  match sh with
  | [] => None
  | n :: sh' => if n =? 1 then Some O else option_map S (first_unit_axis sh')
  end.

(** The named tuple [results]. *)
Record results : Type := mk_results {
  tup_im : ndarray bool;
  tup_dt : ndarray Q;
  tup_peaks : ndarray Z;
  tup_regions : ndarray Z
}.

(** What the function returns: the regions, or the tuple when [return_all]. *)
Inductive snow_output : Type :=
| Regions (regions : ndarray Z)
| All (tup : results).

Section Snow.

(** The primitives of scipy and skimage that the pipeline calls and that
    are taken as given: the Euclidean distance transform, the Gaussian
    filter, the watershed and the colour randomiser of porespy.tools. *)
Variable distance_transform_edt : ndarray bool -> ndarray Q.
Variable gaussian_filter : ndarray Q -> Q -> ndarray Q.
Variable watershed : ndarray Q -> ndarray Z -> option (ndarray bool) -> ndarray Z.
Variable randomize_colors : ndarray Z -> ndarray Z.

(** Lines 149-156: the distance transform, unless the caller supplied one. *)
Definition snow_distance_transform (im : ndarray bool) (im_shape : list Z)
    (dt : option (ndarray Q)) : ndarray Q :=
  match dt with
  | Some dt => dt
  | None =>
      match first_unit_axis im_shape with
      | Some ax => expand_dims (distance_transform_edt (squeeze im)) ax
      | None => distance_transform_edt im
      end
  end.

(** Lines 161-163: the Gaussian blur, when [sigma > 0]. *)
Definition snow_blur (dt : ndarray Q) (sigma : Q) : ndarray Q :=
  if Qltb 0 sigma then gaussian_filter dt sigma else dt.

Definition snow_partitioning (im : ndarray Z) (dt : option (ndarray Q)) (r_max : Z)
    (sigma : Q) (return_all mask randomize : bool) : result snow_output :=
  let im_shape := shape im in
  let im := map_nd (fun v => v >? 0) im in
  let dt := snow_distance_transform im im_shape dt in
  let tup_im := im in
  let tup_dt := dt in
  let dt := snow_blur dt sigma in
  peaks <- find_peaks dt r_max None ;;
  peaks <- trim_saddle_points peaks dt 500 ;;
  peaks <- trim_nearby_peaks peaks dt ;;
  '(peaks, N) <- label_default peaks ;;
  let tup_peaks := peaks in
  let mask_solid := if mask then Some im else None in
  let regions := watershed (map_nd Qopp dt) peaks mask_solid in
  let regions := if randomize then randomize_colors regions else regions in
  if return_all
  then Ok (All (mk_results tup_im tup_dt tup_peaks regions))
  else Ok (Regions regions).

End Snow.

(** ** trim_extrema (lines 560-592): the dispatch on [mode] *)

Section TrimExtrema.

(** skimage.morphology.reconstruction(seed, mask, method), taken as given. *)
Variable reconstruction : ndarray Q -> ndarray Q -> string -> ndarray Q.

Definition trim_extrema (im : ndarray Q) (h : Q) (mode : string) : ndarray Q :=
  let result := im in
  if mode_in mode ["maxima"; "extrema"]%string then
    reconstruction (map_nd (fun v => (v - h)%Q) im) im "dilation"
  else if mode_in mode ["minima"; "extrema"]%string then
    reconstruction (map_nd (fun v => (v + h)%Q) im) im "erosion"
  else result.

End TrimExtrema.

(** ** Predicates on peak sets *)

(** [a] marks no element that [b] does not mark, and has its shape. *)
Definition peaks_subset (a b : ndarray bool) : Prop :=
  shape a = shape b /\ forall x, item a x = true -> item b x = true.

(** A peak image without true elements. *)
Definition no_true (a : ndarray bool) : Prop := forall x, item a x = false.


(** A void element whose distance value is the largest of its
    neighbourhood: a local maximum of the distance field itself. *)
Definition genuine_void_max (dt : ndarray Q) (footprint : ndarray bool) (x : index) : bool :=
  Qltb 0 (item dt x)
  && forallb (fun y => Qle_bool (item dt y) (item dt x))
       (neighbourhood footprint (shape dt) x).

(** Whether the loop of trim_saddle_points left the cluster's voxels
    ([peaks_i] still the array) or replaced them by [False]. *)
Definition is_kept (v : operand bool) : bool :=
  match v with
  | Arr _ => true
  | Scalar _ => false
  end.

Fixpoint map_result {A B : Type} (f : A -> result B) (l : list A) : result (list B) :=
  match l with
  | [] => Ok []
  | a :: l' => b <- f a ;; bs <- map_result f l' ;; Ok (b :: bs)
  end.

(** The decisions of trim_saddle_points: for every cluster, in label order,
    whether its loop keeps it. *)
Definition saddle_decisions (peaks : ndarray bool) (dt : ndarray Q) (max_iters : Z)
    : result (list bool) :=
  let cube3 := if ndim dt =? 2 then square 3 else cube 3 in
  '(labels, N) <- label_default peaks ;;
  let sl := find_objects labels in
  map_result
    (fun i => '(_, peaks_i, _) <-
                 trim_saddle_cluster dt max_iters cube3 labels sl (shape peaks) i ;;
              Ok (is_kept peaks_i))
    (seq 0 (Z.to_nat N)).

(** The decisions of trim_nearby_peaks: the labelled clusters and the
    numbers (from 0) of those it marks for removal. *)
Definition nearby_decisions (peaks : ndarray bool) (dt : ndarray Q)
    : result (ndarray Z * list nat) :=
  let cube3 := if ndim dt =? 2 then square 3 else cube 3 in
  '(labels, N) <- label peaks cube3 ;;
  drop_peaks <- nearby_drop_peaks labels N dt ;;
  Ok (labels, drop_peaks).

(** ** The loop of trim_saddle_points, iteration by iteration *)

(** The working set after [k] dilations of the cluster. *)
Definition dilated (cube3 : ndarray bool) (peaks_i : ndarray bool) (k : nat) : ndarray bool :=
  Nat.iter k (dilate (offsets cube3)) peaks_i.

(** Two voxels whose coordinates differ by at most 1 on every axis: a voxel
    and one of its neighbours under full connectivity, or twice the same
    voxel. *)
Definition adjacent (x y : index) : Prop :=
  Forall2 (fun a b => Z.abs (a - b) <= 1) x y.

(** [peaks_extended] of a dilated set when the sub-volume is not empty. *)
Definition candidate (dt_i : ndarray Q) (peaks_dil : ndarray bool) : ndarray bool :=
  let mx := Qmax_list (data (zip_nd (fun v (b : bool) => if b then v else 0%Q) dt_i peaks_dil)) in
  let peaks_max := map_nd (fun b : bool => if b then mx else 0%Q) peaks_dil in
  logical_and (zip_nd Qeq_bool peaks_max dt_i) (greater_zero_Q dt_i).

(** The tests of lines 321 and 323 at iteration [k]. *)
Definition found_true_peak (cube3 : ndarray bool) (dt_i : ndarray Q) (peaks_i : ndarray bool)
    (k : nat) : bool :=
  np_all (equal_bool (candidate dt_i (dilated cube3 peaks_i k)) peaks_i).

Definition found_saddle (cube3 : ndarray bool) (dt_i : ndarray Q) (peaks_i : ndarray bool)
    (k : nat) : bool :=
  negb (found_true_peak cube3 dt_i peaks_i k)
  && (np_sum (logical_and (candidate dt_i (dilated cube3 peaks_i k)) peaks_i) =? 0).

Definition undecided (cube3 : ndarray bool) (dt_i : ndarray Q) (peaks_i : ndarray bool)
    (k : nat) : bool :=
  negb (found_true_peak cube3 dt_i peaks_i k) && negb (found_saddle cube3 dt_i peaks_i k).

(** The loop as the specification words it: the candidate set is compared
    with the working set from before the dilation. *)
Fixpoint saddle_while_claimed (fuel : nat) (iters : Z) (cube3 : ndarray bool)
    (dt_i : ndarray Q) (im_i peaks_i working : ndarray bool)
    : result (operand bool * Z) :=
  match fuel with
  | O => Ok (Arr peaks_i, iters)
  | S fuel' =>
      let iters := iters + 1 in
      dilated_set <- binary_dilation working cube3 ;;
      candidate_set <- peaks_extended_of dt_i im_i dilated_set ;;
      if np_all (equal_bool candidate_set working) then
        Ok (Arr peaks_i, iters)
      else if np_sum (logical_and candidate_set working) =? 0 then
        Ok (Scalar false, iters)
      else saddle_while_claimed fuel' iters cube3 dt_i im_i peaks_i dilated_set
  end.

(** ** Concrete images *)

(** A 2-d array from its rows. *)
Definition array2 {A : Type} (rows : list (list A)) : ndarray A :=
  mk_ndarray [Z.of_nat (length rows); Z.of_nat (length (hd [] rows))] (concat rows).

(** The true elements of a boolean array, in C order. *)
Definition argwhere (a : ndarray bool) : list index :=
  filter (fun x => item a x) (ndindex (shape a)).

(** The boolean array of a shape that is true exactly at the listed indices. *)
Definition mark (sh : list Z) (xs : list index) : ndarray bool :=
  fromfunction sh (fun x => existsb (index_eqb x) xs).

(** The array of a shape with the listed values at the listed indices and
    a background value elsewhere. *)
Definition paint (sh : list Z) (bg : Q) (vs : list (index * Q)) : ndarray Q :=
  fromfunction sh (fun x =>
    match find (fun p => index_eqb x (fst p)) vs with
    | Some p => snd p
    | None => bg
    end).

(** The number of features of a boolean image under the default structure,
    [label(peaks)[1]], as snow_partitioning prints it. *)
Definition count_features (peaks : ndarray bool) : result Z :=
  '(_, N) <- label_default peaks ;; Ok N.

(** One void voxel in solid, with its Euclidean distance transform. *)
Definition lone_void_dt : ndarray Q := paint [3; 3] 0 [([1; 1], 1%Q)].

(** Two single-voxel peaks five voxels apart, each the strict maximum of
    its surroundings. *)
Definition two_dots : ndarray bool := mark [3; 8] [[0; 0]; [0; 5]].
Definition two_dots_dt : ndarray Q := paint [3; 8] 1 [([0; 0], 2%Q); ([0; 5], 2%Q)].

(** A line of 25 peak voxels and a single peak voxel two rows below its
    middle; the distance field is 2 on the peaks and 1 elsewhere. *)
Definition line_and_dot : ndarray bool :=
  fromfunction [3; 25] (fun x => index_eqb x [2; 12] || (axis_get x 0 =? 0)).
Definition line_and_dot_dt : ndarray Q :=
  map_nd (fun b : bool => if b then 2%Q else 1%Q) line_and_dot.

(** A bracket-shaped cluster (rows 0 and 4 and column 0 of a 5 x 5 image)
    around a single peak voxel at (2, 3). *)
Definition bracket_and_dot : ndarray bool :=
  fromfunction [5; 5] (fun x =>
    index_eqb x [2; 3] || (axis_get x 0 =? 0) || (axis_get x 0 =? 4) || (axis_get x 1 =? 0)).
Definition bracket_and_dot_dt : ndarray Q := paint [5; 5] 1 [([2; 1], 3%Q); ([2; 3], 4%Q)].

(** Two single-voxel peaks two voxels apart, with one distance value. *)
Definition twins : ndarray bool := mark [5; 7] [[2; 2]; [2; 4]].
Definition twins_dt : ndarray Q := full [5; 7] 3%Q.

(** The same two peaks with different distance values. *)
Definition siblings_dt : ndarray Q := paint [5; 7] 3 [([2; 4], 4%Q)].

(** A single peak voxel in the middle of a 3 x 3 plateau of height 5, in a
    field of height 4 with one voxel of height 7 three steps away. *)
Definition plateau_peak : ndarray bool := mark [7; 7] [[3; 3]].
Definition plateau_dt : ndarray Q :=
  fromfunction [7; 7] (fun x =>
    if index_eqb x [0; 0] then 7%Q
    else if in_slice x [(2, 5); (2, 5)] then 5%Q
    else 4%Q).

(** The labels of the plateau image: its one cluster has the label 1. *)
Definition plateau_labels : ndarray Z :=
  map_nd (fun b : bool => if b then 1 else 0) plateau_peak.

(** A comb (row 10 and three prongs up from it) and an angle (row 12 and
    the end of column 12) below and beside it, in a 13 x 13 image; the
    distance field is 9 at the comb's centre of mass and 8 at the angle's. *)
Definition comb_and_angle : ndarray bool :=
  fromfunction [13; 13] (fun x =>
    let r := axis_get x 0 in
    let c := axis_get x 1 in
    ((r =? 10) && (c <=? 10))
    || ((r <=? 10) && ((c =? 0) || (c =? 5) || (c =? 10)))
    || (r =? 12)
    || ((c =? 12) && (9 <=? r))).
Definition comb_and_angle_dt : ndarray Q := paint [13; 13] 1 [([5; 5], 9%Q); ([11; 7], 8%Q)].

(** ** Stand-ins for the primitives of the pipeline, for concrete runs *)

(** A distance-like field: 1 on the void, 0 on the solid. *)
Definition edt_unit (im : ndarray bool) : ndarray Q :=
  map_nd (fun b : bool => if b then 1%Q else 0%Q) im.

(** A filter that changes every value: it halves the field. *)
Definition blur_half (dt : ndarray Q) (sigma : Q) : ndarray Q :=
  map_nd (fun v => (v * (1 # 2))%Q) dt.

(** A segmentation that returns its markers. *)
Definition watershed_markers (image : ndarray Q) (markers : ndarray Z)
    (mask : option (ndarray bool)) : ndarray Z := markers.

Definition keep_colors (regions : ndarray Z) : ndarray Z := regions.

(** A 5 x 5 image of void with a supplied distance field that peaks in the
    middle. *)
Definition snow_im : ndarray Z := full [5; 5] 1.
Definition snow_dt : ndarray Q := paint [5; 5] 1 [([2; 2], 6%Q)].

(** A 3 x 3 image of solid. *)
Definition solid_im : ndarray Z := full [3; 3] 0.

(** ** Runs of void along an axis *)

(** The number of leading positive entries of a list. *)
Fixpoint leading_run (l : list Z) : Z :=
  match l with
  | [] => 0
  | v :: l' => if v >? 0 then 1 + leading_run l' else 0
  end.

(** The values of an image from [x] back to the start of its line along
    [axis], [x] first; and from [x] on to the end of the line. *)
Definition line_back (im : ndarray Z) (x : index) (axis : nat) : list Z :=
  map (fun k => item im (axis_set x axis k)) (rev (arange (axis_get x axis + 1))).

Definition line_forth (im : ndarray Z) (x : index) (axis : nat) : list Z :=
  map (fun k => item im (axis_set x axis (axis_get x axis + k)))
      (arange (axis_get (shape im) axis - axis_get x axis)).

(** Partial sums and running minima of a sequence. *)
Fixpoint partial_sum (f : nat -> Z) (k : nat) : Z :=
  match k with
  | O => f O
  | S k' => partial_sum f k' + f k
  end.

Fixpoint running_min (f : nat -> Z) (k : nat) : Z :=
  match k with
  | O => f O
  | S k' => Z.min (running_min f k') (f k)
  end.

(** The number of positive entries up to the last zero at or before [k]. *)
Fixpoint base_count (line : nat -> Z) (k : nat) : Z :=
  match k with
  | O => 0
  | S k' => if line k =? 0
            then partial_sum (fun j => if line j >? 0 then 1 else 0) k
            else base_count line k'
  end.

(** ** find_dt_artifacts (lines 660-690) *)

(** A value or infinity ([None]), for the array that starts as [ones*inf]. *)
#[export] Instance fill_option_Z : Fill (option Z) := None.

(** [minimum(temp, dt_lin)] of a possibly infinite and a finite value. *)
Definition minimum_inf (t : option Z) (v : Z) : option Z :=
  match t with
  | None => Some v
  | Some t' => Some (Z.min t' v)
  end.

(** [clip(dt - temp, a_min=0, a_max=inf)]; [dt - inf] is clipped to 0. *)
Definition clip_diff (v : Q) (t : option Z) : Q :=
  match t with
  | None => 0%Q
  | Some t' => Qmaxb 0 (v - inject_Z t')
  end.

Definition find_dt_artifacts (dt : ndarray Q) : result (ndarray Q) :=
  let temp := full (shape dt) (@None Z) in
  temp <- for_each
            (fun temp ax =>
               dt_lin <- distance_transform_lin (full (shape temp) 1) ax "both" ;;
               Ok (zip_nd minimum_inf temp dt_lin))
            (seq 0 (length (shape dt))) temp ;;
  Ok (zip_nd clip_diff dt temp).

(** The distance from a voxel to the nearer end of one axis, counted in voxels
    and starting at 1 on the face. *)
Definition axis_edge (sh : list Z) (x : index) (a : nat) : Z :=
  Z.min (axis_get x a + 1) (axis_get sh a - axis_get x a).

(** ** nphase_border and its helpers (lines 1012-1119) *)

Definition sum_abs (x : index) : Z := fold_right (fun i acc => Z.abs i + acc) 0 x.

(** skimage.morphology [diamond(r)] and [octahedron(r)]: the points of the
    (2r+1)-wide grid within city-block distance r of its centre. *)
Definition diamond (r : Z) : ndarray bool :=
  fromfunction [2 * r + 1; 2 * r + 1]
    (fun x => sum_abs (index_sub x [r; r]) <=? r).
Definition octahedron (r : Z) : ndarray bool :=
  fromfunction [2 * r + 1; 2 * r + 1; 2 * r + 1]
    (fun x => sum_abs (index_sub x [r; r; r]) <=? r).

(** [a[x] = v] for one index [x]. *)
Definition setitem {A : Type} `{Fill A} (a : ndarray A) (x : index) (v : A) : ndarray A :=
  fromfunction (shape a) (fun y => if index_eqb y x then v else item a y).

(** [_get_axial_shifts]: the offsets of the neighbours, as the rows of the
    returned array. Any [ndim] other than 2 gives the offsets in three
    dimensions. *)
Definition _get_axial_shifts (ndim : Z) (include_diagonals : bool) : list index :=
  if ndim =? 2 then
    let neighbors := if include_diagonals then square 3 else diamond 1 in
    let neighbors := setitem neighbors [1; 1] false in
    map (fun p => index_sub p [1; 1]) (argwhere neighbors)
  else
    let neighbors := if include_diagonals then cube 3 else octahedron 1 in
    let neighbors := setitem neighbors [1; 1; 1] false in
    map (fun p => index_sub p [1; 1; 1]) (argwhere neighbors).

(** numpy.roll(a, shift, axis): the element at [i] comes from [i - shift],
    around the axis. *)
Definition roll (a : ndarray Z) (shift : Z) (axis : nat) : ndarray Z :=
  fromfunction (shape a) (fun x =>
    item a (axis_set x axis ((axis_get x axis - shift) mod axis_get (shape a) axis))).

(** [stack[..., k] = a]: the assignment to one position of the last axis. *)
Definition set_last (stack : ndarray Z) (k : Z) (a : ndarray Z) : ndarray Z :=
  fromfunction (shape stack) (fun x =>
    if last x 0 =? k then item a (removelast x) else item stack x).

(** The value a float64 array stores when an integer is copied into it: the
    integer itself up to 2^53 in absolute value, and beyond that the nearest
    multiple of the spacing of the floats there, a tie going to the even
    neighbour. *)
Definition float64_of_Z (v : Z) : Z :=
  let a := Z.abs v in
  if a <=? 2 ^ 53 then v
  else
    let k := Z.log2 a - 52 in
    let q := a / 2 ^ k in
    let r := a mod 2 ^ k in
    let half := 2 ^ (k - 1) in
    let q' := if (half <? r) || ((r =? half) && Z.odd q) then q + 1 else q in
    Z.sgn v * (q' * 2 ^ k).

(** [_make_stack]: the stack is an array of float64 ([np.zeros]), so every
    image copied into it is converted. [None] is Python's None, returned
    when the image has neither two nor three dimensions. *)
Definition _make_stack (im : ndarray Z) (include_diagonals : bool) : option (ndarray Z) :=
  let ndim := Z.of_nat (length (shape im)) in
  let axial_shift := _get_axial_shifts ndim include_diagonals in
  if ndim =? 2 then
    let stack := full [axis_get (shape im) 0; axis_get (shape im) 1;
                       Z.of_nat (length axial_shift) + 1] 0 in
    let stack := set_last stack 0 (map_nd float64_of_Z im) in
    Some (fold_left
            (fun stack i =>
               let s := nth i axial_shift [] in
               let temp := roll (roll im (axis_get s 0) 0) (axis_get s 1) 1 in
               set_last stack (Z.of_nat i + 1) (map_nd float64_of_Z temp))
            (seq 0 (length axial_shift)) stack)
  else if ndim =? 3 then
    let stack := full [axis_get (shape im) 0; axis_get (shape im) 1; axis_get (shape im) 2;
                       Z.of_nat (length axial_shift) + 1] 0 in
    let stack := set_last stack 0 (map_nd float64_of_Z im) in
    Some (fold_left
            (fun stack i =>
               let s := nth i axial_shift [] in
               let temp := roll (roll (roll im (axis_get s 0) 0) (axis_get s 1) 1)
                                (axis_get s 2) 2 in
               set_last stack (Z.of_nat i + 1) (map_nd float64_of_Z temp))
            (seq 0 (length axial_shift)) stack)
  else None.

(** The nearest valid position of an axis of length [n]. *)
Definition clamp (n i : Z) : Z := Z.max 0 (Z.min (n - 1) i).

Definition clamp_index (sh : list Z) (x : index) : index :=
  map (fun p => clamp (fst p) (snd p)) (combine sh x).

(** numpy.pad(a, pad_width=1, mode='edge'); numpy refuses an empty axis. *)
Definition pad_edge (a : ndarray Z) : result (ndarray Z) :=
  if existsb (fun n => n =? 0) (shape a)
  then Raise (ValueError "can't extend empty axis using modes other than 'constant' or 'empty'")
  else Ok (fromfunction (map (fun n => n + 2) (shape a))
             (fun x => item a (clamp_index (shape a) (index_sub x (map (fun _ => 1) x))))).

(** Sorting of a list of numbers. *)
Fixpoint insert_sorted (v : Z) (l : list Z) : list Z :=
  match l with
  | [] => [v]
  | h :: t => if v <=? h then v :: l else h :: insert_sorted v t
  end.

Definition np_sort (l : list Z) : list Z := fold_right insert_sorted [] l.

(** [a.sort()]: every line along the last axis is sorted. *)
Definition sort_last (a : ndarray Z) : ndarray Z :=
  let axis := (length (shape a) - 1)%nat in
  fromfunction (shape a) (fun x =>
    nth (Z.to_nat (axis_get x axis))
        (np_sort (map (fun k => item a (axis_set x axis k)) (arange (axis_get (shape a) axis))))
        0).

(** [stack[..., k] != stack[..., k-1]] *)
Definition changes_at (stack : ndarray Z) (k : Z) : ndarray bool :=
  fromfunction (removelast (shape stack))
    (fun y => negb (item stack (y ++ [k]) =? item stack (y ++ [k - 1]))).

(** The image holds integers: [out = np.ones_like(im)] is then an integer
    array and [out += mask] counts. (For a boolean image numpy's [+=] is a
    logical or; that case is outside this definition.) *)
Definition nphase_border (im : ndarray Z) (include_diagonals : bool) : result (ndarray Z) :=
  let ndim := length (shape im) in
  if negb (Nat.eqb ndim 2 || Nat.eqb ndim 3)
  then Raise (RuntimeError "NotImplementedError: Function only works for 2d and 3d images")
  else
    im <- pad_edge im ;;
    match _make_stack im include_diagonals with
    | None => Raise (Exception "AttributeError: 'NoneType' object has no attribute 'sort'")
    | Some stack =>
        let stack := sort_last stack in
        let out := full (shape im) 1 in
        out <- for_each
                 (fun out k =>
                    mask <- (if Nat.eqb ndim 2 then Ok (changes_at stack (Z.of_nat k))
                             else if Nat.eqb ndim 3 then Ok (changes_at stack (Z.of_nat k))
                             else Raise (UnboundLocalError
                                    "local variable 'mask' referenced before assignment")) ;;
                    Ok (zip_nd (fun v (m : bool) => v + (if m then 1 else 0)) out mask))
                 (tl (seq 0 (Z.to_nat (axis_get (shape stack) ndim)))) out ;;
        if Nat.eqb ndim 2
        then Ok (getslice out [(1, axis_get (shape out) 0 - 1);
                               (1, axis_get (shape out) 1 - 1)])
        else Ok (getslice out [(1, axis_get (shape out) 0 - 1);
                               (1, axis_get (shape out) 1 - 1);
                               (1, axis_get (shape out) 2 - 1)])
    end.

(** The number of places of a list at which the value differs from the one
    before it. *)
Fixpoint count_changes (l : list Z) : Z :=
  match l with
  | a :: (b :: _) as t => (if b =? a then 0 else 1) + count_changes t
  | _ => 0
  end.

(** The number of different values of a list. *)
Definition count_distinct (l : list Z) : Z := Z.of_nat (length (nodup Z.eq_dec l)).

(** An offset of the given rank with every entry in -1, 0, 1. *)
Definition unit_shift (rank : nat) (s : index) : bool :=
  Nat.eqb (length s) rank && forallb (fun c => (-1 <=? c) && (c <=? 1)) s.

(** A small image of three regions. *)
Definition border_example : ndarray Z := mk_ndarray [2; 3] [1; 1; 2; 1; 3; 2].

(** ** region_size and flood (lines 596-717) *)

(** [a.flatten()]: the elements in C order. *)
Definition flatten {A : Type} `{Fill A} (a : ndarray A) : list A :=
  map (item a) (ndindex (shape a)).

(** The position an integer index of numpy denotes in a sequence of length
    [n]: a negative index counts from the end. *)
Definition np_index (n : nat) (j : Z) : result nat :=
  if (0 <=? j) && (j <? Z.of_nat n) then Ok (Z.to_nat j)
  else if (- Z.of_nat n <=? j) && (j <? 0) then Ok (Z.to_nat (j + Z.of_nat n))
  else Raise (IndexError "index is out of bounds").

Fixpoint set_nth {A : Type} (j : nat) (v : A) (l : list A) : list A :=
  match l, j with
  | [], _ => []
  | _ :: t, O => v :: t
  | h :: t, S j' => h :: set_nth j' v t
  end.

(** [l[i]] for [i] from [range]. *)
Definition get_nth {A : Type} (l : list A) (i : nat) : result A :=
  match nth_error l i with
  | Some v => Ok v
  | None => Raise (IndexError "index is out of bounds")
  end.

(** The length of [zeros(shape=n)]. *)
Definition zeros_length (n : Z) : result nat :=
  if n <? 0 then Raise (ValueError "negative dimensions are not allowed")
  else Ok (Z.to_nat n).

(** [a.max()] of an integer array. *)
Definition array_max (a : ndarray Z) : result Z :=
  match flatten a with
  | [] => Raise (ValueError
                   "zero-size array to reduction operation maximum which has no identity")
  | v :: vs => Ok (fold_left Z.max vs v)
  end.

(** numpy.reshape of a flat sequence. *)
Definition reshape {A : Type} (l : list A) (sh : list Z) : result (ndarray A) :=
  if Z.of_nat (length l) =? size_of_shape sh
  then Ok (mk_ndarray sh l)
  else Raise (ValueError "cannot reshape array").

(** numpy.bincount of a list of integers. *)
Definition bincount (l : list Z) : result (list Z) :=
  if existsb (fun v => v <? 0) l
  then Raise (ValueError "'list' argument must have no negative elements")
  else Ok (map (fun v => Z.of_nat (count_occ Z.eq_dec l v))
             (arange (fold_right Z.max (-1) l + 1))).

(** An image is boolean or holds integers. *)
Inductive image : Type :=
| BoolImage (a : ndarray bool)
| IntImage (a : ndarray Z).

Definition region_size (im : image) : result (ndarray Z) :=
  im <- match im with
        | BoolImage b => '(labels, _) <- label_default b ;; Ok labels
        | IntImage a => Ok a
        end ;;
  counts <- bincount (flatten im) ;;
  counts <- (_ <- np_index (length counts) 0 ;; Ok (set_nth 0 0 counts)) ;;
  chords <- map_result (fun v => j <- np_index (length counts) v ;; Ok (nth j counts 0))
              (flatten im) ;;
  Ok (mk_ndarray (shape im) chords).

#[export] Instance fill_option_Q : Fill (option Q) := None.

(** The product of a value and an element of the mask. *)
Definition mul_mask (v : option Q) (m : bool) : option Q :=
  match v with
  | Some q => Some (if m then q else 0%Q)
  | None => None
  end.

(** [V > I] where [V] may be infinite ([None]). *)
Definition gt_inf (v : option Q) (q : Q) : bool :=
  match v with
  | Some v' => Qltb q v'
  | None => true
  end.

Module porespy.

(** The values of the result are rationals; [None] stands for a value that is
    not finite. The decorator is taken to leave the behaviour of the function
    as it is written. *)
Definition flood (im : ndarray Q) (regions : option (ndarray Z)) (mode : string)
    : result (ndarray (option Q)) :=
  let mask := greater_zero_Q im in
  '(labels, N) <- match regions with
                  | None => label_default mask
                  | Some regions => N <- array_max regions ;; Ok (regions, N)
                  end ;;
  let I := flatten im in
  let L := flatten labels in
  V <- (if prefix "max" mode then
          n <- zeros_length (N + 1) ;;
          V <- for_each
                 (fun V i =>
                    j <- np_index (length V) (nth i L 0) ;;
                    Ii <- get_nth I i ;;
                    if Qltb (nth j V 0%Q) Ii then Ok (set_nth j Ii V) else Ok V)
                 (seq 0 (length L)) (repeat 0%Q n) ;;
          Ok (map Some V)
        else if prefix "min" mode then
          n <- zeros_length (N + 1) ;;
          for_each
            (fun V i =>
               j <- np_index (length V) (nth i L 0) ;;
               Ii <- get_nth I i ;;
               if gt_inf (nth j V None) Ii then Ok (set_nth j (Some Ii) V) else Ok V)
            (seq 0 (length L)) (repeat None n)
        else if prefix "size" mode then
          n <- zeros_length (N + 1) ;;
          V <- for_each
                 (fun V i =>
                    j <- np_index (length V) (nth i L 0) ;;
                    Ok (set_nth j (nth j V 0 + 1) V))
                 (seq 0 (length L)) (repeat 0 n) ;;
          Ok (map (fun c => Some (inject_Z c)) V)
        else Raise (UnboundLocalError "local variable 'V' referenced before assignment")) ;;
  Vl <- map_result (fun l => j <- np_index (length V) l ;; Ok (nth j V None)) L ;;
  im_flooded <- reshape Vl (shape im) ;;
  Ok (zip_nd mul_mask im_flooded mask).

End porespy.

(** A small image with two regions. *)
Definition flood_example : ndarray Q := mk_ndarray [2; 3] [1%Q; 3%Q; 0%Q; 0%Q; 5%Q; 2%Q].
Definition flood_regions : ndarray Z := mk_ndarray [2; 3] [1; 1; 0; 0; 2; 2].

(** ** Connected voxels *)

(** The voxels reached from a seed through true voxels of an image, every
    step along one of the offsets of a structuring element. *)
Inductive reach (offs : list index) (input : ndarray bool) (seed : index) : index -> Prop :=
| reach_seed : item input seed = true -> reach offs input seed seed
| reach_step (x y o : index) :
    reach offs input seed y -> In o offs -> index_sub x o = y -> item input x = true ->
    reach offs input seed x.

(** Offsets of one rank that come in opposite pairs. *)
Definition symmetric_offsets (rank : nat) (offs : list index) : Prop :=
  forall o, In o offs -> length o = rank /\ In (map Z.opp o) offs.

(** What holds of the labels of the scan of label once the indices of [done]
    have been visited: labels are given to true voxels only and lie in 1..n,
    every visited true voxel has one, two voxels share a label exactly when
    one is reached from the other, and every label up to n is in use. *)
Definition labelled_upto (offs : list index) (input : ndarray bool) (done : list index)
    (labels : ndarray Z) (n : Z) : Prop :=
  0 <= n
  /\ (forall y, item labels y <> 0 -> item input y = true /\ 1 <= item labels y <= n)
  /\ (forall y, In y done -> item input y = true -> item labels y <> 0)
  /\ (forall y z, item labels y <> 0 ->
                  (item labels z = item labels y <-> reach offs input y z))
  /\ (forall l, 1 <= l <= n -> exists y, item labels y = l).

Definition symmetric_offsetsb (rank : nat) (offs : list index) : bool :=
  forallb (fun o => Nat.eqb (length o) rank && existsb (index_eqb (map Z.opp o)) offs) offs.

(** ** skimage.segmentation.clear_border *)

(** The voxels with an index 0 or n-1 on some axis. *)
Definition on_border (sh : list Z) (x : index) : bool :=
  existsb (fun p => (snd p =? 0) || (snd p =? fst p - 1)) (combine sh x).

(** The structuring element of full connectivity. *)
Definition full_structure (rank : nat) : ndarray bool := full (repeat 3 rank) true.

(** clear_border(labels) with its defaults (buffer_size=0, bgval=0): the
    image is labelled again, a region being a set of voxels of one non-zero
    value connected under full connectivity, and every region with a voxel on
    the border is set to 0. *)
Definition clear_border (labels : ndarray Z) : result (ndarray Z) :=
  if existsb (fun s => s <=? 0) (shape labels)
  then Raise (ValueError "buffer size may not be greater than image size")
  else
    let offs := offsets (full_structure (length (shape labels))) in
    Ok (fromfunction (shape labels) (fun x =>
          let v := item labels x in
          if v =? 0 then 0
          else
            let region := component offs (map_nd (fun w => w =? v) labels) x in
            if existsb (fun y => item region y && on_border (shape labels) y)
                 (ndindex (shape labels))
            then 0 else v)).

(** ** find_disconnected_voxels, fill_blind_pores, trim_floating_solid
    (lines 392-485) *)

(** The structuring element the function selects; with other dimensions or
    another [conn] the variable [strel] is never assigned. *)
Definition connectivity_structure (im : ndarray bool) (conn : option Z)
    : result (ndarray bool) :=
  let unbound :=
    Raise (UnboundLocalError "local variable 'strel' referenced before assignment") in
  if ndim im =? 2 then
    match conn with
    | Some 4 => Ok (disk 1)
    | None | Some 8 => Ok (square 3)
    | _ => unbound
    end
  else if ndim im =? 3 then
    match conn with
    | Some 6 => Ok (ball 1)
    | None | Some 26 => Ok (cube 3)
    | _ => unbound
    end
  else unbound.

Definition find_disconnected_voxels (im : ndarray bool) (conn : option Z)
    : result (ndarray bool) :=
  strel <- connectivity_structure im conn ;;
  '(labels, N) <- label im strel ;;
  cleared <- clear_border labels ;;
  let holes := map_nd (fun v => 0 <? v) cleared in
  Ok holes.

(** [im[holes] = v] on a copy of [im]. *)
Definition assign_where (im holes : ndarray bool) (v : bool) : ndarray bool :=
  zip_nd (fun (b h : bool) => if h then v else b) im holes.

Definition fill_blind_pores (im : ndarray bool) : result (ndarray bool) :=
  holes <- find_disconnected_voxels im None ;;
  Ok (assign_where im holes false).

Definition trim_floating_solid (im : ndarray bool) : result (ndarray bool) :=
  holes <- find_disconnected_voxels (map_nd negb im) None ;;
  Ok (assign_where im holes true).

(** A voxel from which the border of the image is reached. *)
Definition touches_border (offs : list index) (im : ndarray bool) (x : index) : Prop :=
  exists y, reach offs im x y /\ on_border (shape im) y = true.

(** A 5 x 5 image that is true on its outer ring and at its centre; the
    centre is not connected to the border. *)
Definition pores_example : ndarray bool :=
  array2 [[true;  true;  true;  true;  true];
          [true;  false; false; false; true];
          [true;  false; true;  false; true];
          [true;  false; false; false; true];
          [true;  true;  true;  true;  true]].

Definition inclb (l l' : list index) : bool :=
  forallb (fun o => existsb (index_eqb o) l') l.

(** ** porosimetry and local_thickness (lines 833-1009) *)

(** The argument [sizes]: an integer (the number of sizes), or an array of
    sizes of one dimension. *)
Inductive sizes_arg : Type :=
| Sizes_int (num : Z)
| Sizes_array (a : list Q).

(** numpy.sort of an array of one dimension. *)
Fixpoint insert_size (v : Q) (l : list Q) : list Q :=
  match l with
  | [] => [v]
  | w :: l' => if Qle_bool v w then v :: l else w :: insert_size v l'
  end.

Definition sort_Q (l : list Q) : list Q := fold_right insert_size [] l.

(** numpy.where of a boolean array: one index array per axis, kept here as
    the number of axes and the list of the indices of the true elements. *)
Definition np_where (a : ndarray bool) : nat * list index :=
  (length (shape a), filter (item a) (ndindex (shape a))).

(** [temp[inlets] = True] for the index arrays of [np_where]: they index the
    leading axes of [temp]; more index arrays than axes, or an index past the
    end of its axis, raise. *)
Definition set_true_at (temp : ndarray bool) (inlets : nat * list index)
    : result (ndarray bool) :=
  let '(rank, idx) := inlets in
  if (length (shape temp) <? rank)%nat
  then Raise (IndexError "too many indices for array")
  else if forallb (fun i => in_bounds i (firstn rank (shape temp))) idx
  then Ok (fromfunction (shape temp)
             (fun x => existsb (index_eqb (firstn rank x)) idx || item temp x))
  else Raise (IndexError "index is out of bounds for axis").

(** The inner function of lines 953-958. *)
Definition trim_blobs (im : ndarray bool) (inlets : nat * list index) : result (ndarray bool) :=
  let temp := full (shape im) false in
  temp <- set_true_at temp inlets ;;
  '(labels, N) <- label_default (zip_nd orb im temp) ;;
  cleared <- clear_border labels ;;
  let im := zip_nd xorb im (map_nd (fun v => 0 <? v) cleared) in
  Ok im.

(** [imresults[(imresults == 0)*imtemp] = r]: the mask is the product of two
    boolean arrays and has to have the shape of [imresults]. Arrays of
    different shapes raise here (numpy would first stretch an axis of length
    1 of [imtemp]). *)
Definition set_new (imresults : ndarray Q) (imtemp : ndarray bool) (r : Q)
    : result (ndarray Q) :=
  if forallb (fun p => fst p =? snd p) (combine (shape imresults) (shape imtemp))
     && (length (shape imresults) =? length (shape imtemp))%nat
  then Ok (zip_nd (fun (v : Q) (b : bool) => if Qeq_bool v 0 && b then r else v)
             imresults imtemp)
  else Raise (IndexError "boolean index did not match indexed array").

(** A bound [i] of a Python slice on an axis of length [n]. *)
Definition slice_bound (i n : Z) : Z := if i <? 0 then Z.max 0 (i + n) else Z.min i n.

(** [a[pw:-pw, pw:-pw]] and [a[pw:-pw, pw:-pw, pw:-pw]]: [count] slices on the
    leading axes; with [pw = 0] the slice [0:-0] is [0:0] and is empty. *)
Definition crop {A : Type} `{Fill A} (a : ndarray A) (pw : Z) (count : nat)
    : result (ndarray A) :=
  if (length (shape a) <? count)%nat
  then Raise (IndexError "too many indices for array")
  else
    Ok (getslice a
          (map (fun n => (slice_bound pw n, slice_bound (- pw) n)) (firstn count (shape a))
           ++ map (fun n => (0, n)) (skipn count (shape a)))).

(** A loop [for r in sizes] that rebinds [imresults]. *)
Fixpoint for_sizes {S : Type} (body : S -> Q -> result S) (sizes : list Q) (st : S)
    : result S :=
  match sizes with
  | [] => Ok st
  | r :: sizes' => st' <- body st r ;; for_sizes body sizes' st'
  end.

Section Porosimetry.

(** scipy.ndimage.distance_transform_edt, numpy.log10, numpy.logspace(start,
    stop, num), numpy.pad(im, mode='symmetric', pad_width) and
    scipy.signal.fftconvolve(a, b, mode), and get_border(shape, mode),
    ps_disk(r), ps_ball(r) and fftmorphology(im, strel, mode) of
    porespy.tools, are taken as given; those that can raise return a
    [result]. Floating point values are rationals. *)
Variable distance_transform_edt : ndarray bool -> ndarray Q.
Variable log10 : Q -> Q.
Variable logspace : Q -> Q -> Z -> result (list Q).
Variable pad_symmetric : ndarray Z -> Z -> result (ndarray Z).
Variable fftconvolve : ndarray bool -> ndarray bool -> string -> result (ndarray Q).
Variable get_border : list Z -> string -> result (ndarray bool).
Variable ps_disk ps_ball : Q -> result (ndarray bool).
Variable fftmorphology : ndarray Z -> ndarray bool -> string -> result (ndarray bool).

(** Lines 962-964: the inlets, by default the faces of the image, as index
    arrays. *)
Definition porosimetry_inlets (im : ndarray Z) (inlets : option (ndarray bool))
    : result (nat * list index) :=
  inlets <- match inlets with
            | None => get_border (shape im) "faces"
            | Some inlets => Ok inlets
            end ;;
  Ok (np_where inlets).

(** Lines 966-969: the sizes, from the largest to the smallest. amax raises
    on an image without voxels. *)
Definition porosimetry_sizes (dt : ndarray Q) (sizes : sizes_arg) : result (list Q) :=
  match sizes with
  | Sizes_int num => m <- amax dt ;; logspace (log10 m) 0 num
  | Sizes_array a => Ok (rev (sort_Q a))
  end.

Definition porosimetry (im : ndarray Z) (sizes : sizes_arg) (inlets : option (ndarray bool))
    (access_limited : bool) (mode : string) : result (ndarray Q) :=
  let dt := distance_transform_edt (map_nd (fun v => v >? 0) im) in
  inlets <- porosimetry_inlets im inlets ;;
  sizes <- porosimetry_sizes dt sizes ;;
  let strel := if ndim im =? 2 then ps_disk else ps_ball in
  let imresults := full (shape im) 0%Q in
  if String.eqb mode "mio" then
    m <- amax dt ;;
    let pw := Qfloor m in
    impad <- pad_symmetric im pw ;;
    let imresults := full (shape impad) 0%Q in
    imresults <-
      for_sizes
        (fun imresults r =>
           s <- strel r ;;
           imtemp <- fftmorphology impad s "opening" ;;
           imtemp <- (if access_limited then trim_blobs imtemp inlets else Ok imtemp) ;;
           if np_any imtemp then set_new imresults imtemp r else Ok imresults)
        sizes imresults ;;
    if ndim im =? 2 then crop imresults pw 2 else crop imresults pw 3
  else if String.eqb mode "dt" then
    for_sizes
      (fun imresults r =>
         let imtemp := map_nd (fun v => Qle_bool r v) dt in
         imtemp <- (if access_limited then trim_blobs imtemp inlets else Ok imtemp) ;;
         if np_any imtemp
         then
           let imtemp := map_nd (fun v => Qltb v r)
                           (distance_transform_edt (map_nd negb imtemp)) in
           set_new imresults imtemp r
         else Ok imresults)
      sizes imresults
  else if String.eqb mode "hybrid" then
    for_sizes
      (fun imresults r =>
         let imtemp := map_nd (fun v => Qle_bool r v) dt in
         imtemp <- (if access_limited then trim_blobs imtemp inlets else Ok imtemp) ;;
         if np_any imtemp
         then
           s <- strel r ;;
           conv <- fftconvolve imtemp s "same" ;;
           let imtemp := map_nd (fun v => Qltb (1 # 10000) v) conv in
           set_new imresults imtemp r
         else Ok imresults)
      sizes imresults
  else Raise (Exception ("Unreckognized mode " ++ mode)).

(** Lines 882-883. *)
Definition local_thickness (im : ndarray Z) (sizes : sizes_arg) (mode : string)
    : result (ndarray Q) :=
  porosimetry im sizes None false mode.

End Porosimetry.

(** A 3 x 3 image of void with one solid voxel in its centre, and stand-ins
    for the functions of the libraries on it: the distance of a void voxel
    is 1, the pad mirrors the image about its edges, structuring elements are
    the 3 x 3 square, and the opening and the convolution keep the image. *)
Definition ring_im : ndarray Z := mk_ndarray [3; 3] [1; 1; 1; 1; 0; 1; 1; 1; 1].

Definition unit_dt (im : ndarray bool) : ndarray Q :=
  map_nd (fun b : bool => if b then 1%Q else 0%Q) im.

Definition faces_border (sh : list Z) (mode : string) : result (ndarray bool) :=
  Ok (fromfunction sh (on_border sh)).

Definition three_sizes (start stop : Q) (num : Z) : result (list Q) :=
  if num <? 0 then Raise (ValueError "Number of samples must be non-negative")
  else Ok [3%Q; 2%Q; 1%Q].

Definition mirror_pad (im : ndarray Z) (pw : Z) : result (ndarray Z) :=
  if pw <? 0 then Raise (ValueError "index can't contain negative values")
  else Ok (fromfunction (map (fun n => n + 2 * pw) (shape im))
             (fun x => item im (reflect (shape im) (map (fun i => i - pw) x)))).

Definition square_strel (r : Q) : result (ndarray bool) := Ok (square 3).

Definition keep_opening (im : ndarray Z) (strel : ndarray bool) (mode : string)
    : result (ndarray bool) :=
  Ok (map_nd (fun v => v >? 0) im).

Definition keep_convolve (im strel : ndarray bool) (mode : string) : result (ndarray Q) :=
  Ok (unit_dt im).

(** An image with an axis of length 0. *)
Definition no_voxels : ndarray Z := mk_ndarray [0; 3] [].
(** * Properties *)

(** ** Arrays: reading what [fromfunction] built *)

Lemma nth_error_arange (n i : Z) :
  0 <= i < n -> nth_error (arange n) (Z.to_nat i) = Some i.
Proof.
  intros Hi. unfold arange.
  rewrite nth_error_map, nth_error_seq.
  destruct (Nat.ltb_spec (Z.to_nat i) (Z.to_nat n)) as [_|Hge]; [|lia].
  simpl. f_equal. lia.
Qed.

Lemma In_arange (n i : Z) : In i (arange n) <-> 0 <= i < n.
Proof.
  unfold arange. rewrite in_map_iff. split.
  - intros [k [<- Hk]]. apply in_seq in Hk. lia.
  - intros Hi. exists (Z.to_nat i). split; [lia|]. apply in_seq. lia.
Qed.

Lemma nth_error_flat_map_const {A B : Type} (g : A -> list B) (m : nat) (l : list A) :
  (forall a, length (g a) = m) ->
  forall k j, (j < m)%nat ->
  nth_error (flat_map g l) (k * m + j) =
  match nth_error l k with
  | Some a => nth_error (g a) j
  | None => None
  end.
Proof.
  intros Hlen. induction l as [|a l IH]; intros k j Hj.
  - simpl. destruct k; [destruct j | destruct (S k * m + j)%nat]; reflexivity.
  - destruct k as [|k]; simpl.
    + rewrite nth_error_app1; [reflexivity|]. rewrite Hlen. exact Hj.
    + rewrite nth_error_app2; rewrite Hlen; [|lia].
      replace (m + k * m + j - m)%nat with (k * m + j)%nat by lia.
      apply IH. exact Hj.
Qed.

Lemma length_flat_map_const {A B : Type} (g : A -> list B) (m : nat) (l : list A) :
  (forall a, length (g a) = m) -> length (flat_map g l) = (length l * m)%nat.
Proof.
  intros Hlen. induction l as [|a l IH]; simpl; [reflexivity|].
  rewrite length_app, Hlen, IH. reflexivity.
Qed.

Lemma length_ndindex (sh : list Z) :
  Forall (fun n => 0 <= n) sh -> Z.of_nat (length (ndindex sh)) = size_of_shape sh.
Proof.
  induction 1 as [|n sh Hn Hsh IH]; simpl; [reflexivity|].
  rewrite length_flat_map_const with (m := length (ndindex sh)).
  - unfold arange. rewrite length_map, length_seq. lia.
  - intros a. apply length_map.
Qed.

Lemma in_bounds_cons (i : Z) (x : index) (n : Z) (sh : list Z) :
  in_bounds (i :: x) (n :: sh) = true <-> 0 <= i < n /\ in_bounds x sh = true.
Proof.
  simpl. rewrite !andb_true_iff, Z.leb_le, Z.ltb_lt. tauto.
Qed.

Lemma in_bounds_nonneg (x : index) (sh : list Z) :
  in_bounds x sh = true -> Forall (fun n => 0 <= n) sh.
Proof.
  revert x. induction sh as [|n sh IH]; intros [|i x] H; try discriminate; constructor.
  - apply in_bounds_cons in H. lia.
  - apply in_bounds_cons in H. apply (IH x). tauto.
Qed.

Lemma in_bounds_length (x : index) (sh : list Z) :
  in_bounds x sh = true -> length x = length sh.
Proof.
  revert x. induction sh as [|n sh IH]; intros [|i x] H; try discriminate; [reflexivity|].
  apply in_bounds_cons in H. simpl. f_equal. apply IH. tauto.
Qed.

Lemma ravel_bounds (x : index) (sh : list Z) :
  in_bounds x sh = true -> 0 <= ravel_multi_index x sh < size_of_shape sh.
Proof.
  revert x. induction sh as [|n sh IH]; intros [|i x] H; try discriminate.
  - simpl. lia.
  - apply in_bounds_cons in H. destruct H as [Hi Hx].
    specialize (IH x Hx). simpl. nia.
Qed.

Lemma nth_error_ndindex (x : index) (sh : list Z) :
  in_bounds x sh = true ->
  nth_error (ndindex sh) (Z.to_nat (ravel_multi_index x sh)) = Some x.
Proof.
  revert x. induction sh as [|n sh IH]; intros [|i x] H; try discriminate.
  - reflexivity.
  - apply in_bounds_cons in H. destruct H as [Hi Hx].
    pose proof (ravel_bounds x sh Hx) as Hr.
    pose proof (length_ndindex (in_bounds_nonneg x sh Hx)) as Hl.
    simpl.
    replace (Z.to_nat (i * size_of_shape sh + ravel_multi_index x sh))
      with (Z.to_nat i * length (ndindex sh) + Z.to_nat (ravel_multi_index x sh))%nat by nia.
    rewrite nth_error_flat_map_const with (m := length (ndindex sh)); [| |lia].
    + rewrite nth_error_arange by exact Hi.
      rewrite nth_error_map, (IH x Hx). reflexivity.
    + intros a. apply length_map.
Qed.

Lemma In_ndindex (x : index) (sh : list Z) :
  In x (ndindex sh) <-> in_bounds x sh = true.
Proof.
  split.
  - revert x. induction sh as [|n sh IH]; intros x H; simpl in H.
    + destruct H as [<-|[]]. reflexivity.
    + apply in_flat_map in H. destruct H as [i [Hi H]].
      apply in_map_iff in H. destruct H as [x' [<- Hx']].
      apply in_bounds_cons. split; [apply In_arange, Hi | apply IH, Hx'].
  - intros H. eapply nth_error_In. apply nth_error_ndindex, H.
Qed.

Lemma item_fromfunction {A : Type} `{Fill A} (sh : list Z) (f : index -> A) (x : index) :
  in_bounds x sh = true -> item (fromfunction sh f) x = f x.
Proof.
  intros Hx. unfold item. simpl. rewrite Hx.
  apply nth_error_nth. rewrite nth_error_map, (nth_error_ndindex _ _ Hx). reflexivity.
Qed.

Lemma item_out_of_bounds {A : Type} `{Fill A} (a : ndarray A) (x : index) :
  in_bounds x (shape a) = false -> item a x = fill.
Proof. intros Hx. unfold item. rewrite Hx. reflexivity. Qed.

Lemma item_true_in_bounds (a : ndarray bool) (x : index) :
  item a x = true -> in_bounds x (shape a) = true.
Proof.
  intros H. destruct (in_bounds x (shape a)) eqn:E; [reflexivity|].
  rewrite item_out_of_bounds in H by exact E. discriminate.
Qed.

Lemma np_all_fromfunction (sh : list Z) (f : index -> bool) :
  np_all (fromfunction sh f) = true <-> (forall x, in_bounds x sh = true -> f x = true).
Proof.
  unfold np_all. simpl. rewrite forallb_forall. split.
  - intros H x Hx. apply H. apply in_map. apply In_ndindex, Hx.
  - intros H b Hb. apply in_map_iff in Hb. destruct Hb as [x [<- Hx]].
    apply H, In_ndindex, Hx.
Qed.

Lemma np_sum_nonneg (a : ndarray bool) : 0 <= np_sum a.
Proof.
  unfold np_sum. induction (data a) as [|b l IH]; simpl; [lia|]. destruct b; lia.
Qed.

Lemma np_sum_fromfunction_zero (sh : list Z) (f : index -> bool) :
  np_sum (fromfunction sh f) = 0 <-> (forall x, in_bounds x sh = true -> f x = false).
Proof.
  unfold np_sum. simpl.
  assert (G : forall l : list index,
             fold_right (fun (b : bool) acc => (if b then 1 else 0) + acc) 0 (map f l) = 0
             <-> (forall x, In x l -> f x = false)).
  { induction l as [|y l IH]; simpl.
    - split; [intros _ x []|reflexivity].
    - pose proof (np_sum_nonneg (mk_ndarray [] (map f l))) as Hn. unfold np_sum in Hn.
      simpl in Hn. split.
      + intros H x [<-|Hx].
        * destruct (f y); [lia|reflexivity].
        * apply IH; [|exact Hx]. destruct (f y); lia.
      + intros H. rewrite (H y (or_introl eq_refl)).
        apply IH. intros x Hx. apply H. right. exact Hx. }
  rewrite G. split; intros H x Hx; apply H; apply In_ndindex; exact Hx.
Qed.

Lemma item_map_nd {A B : Type} `{Fill A} `{Fill B} (f : A -> B) (a : ndarray A) (x : index) :
  in_bounds x (shape a) = true -> item (map_nd f a) x = f (item a x).
Proof. intros Hx. unfold map_nd. rewrite item_fromfunction by exact Hx. reflexivity. Qed.

Lemma item_zip_nd {A B C : Type} `{Fill A} `{Fill B} `{Fill C}
    (f : A -> B -> C) (a : ndarray A) (b : ndarray B) (x : index) :
  in_bounds x (shape a) = true -> item (zip_nd f a b) x = f (item a x) (item b x).
Proof. intros Hx. unfold zip_nd. rewrite item_fromfunction by exact Hx. reflexivity. Qed.

Lemma item_setslice {A : Type} `{Fill A} (a : ndarray A) (s : slices) (v : operand A)
    (x : index) :
  in_bounds x (shape a) = true ->
  item (setslice a s v) x =
  if in_slice x s
  then match v with
       | Arr w => item w (index_sub x (slice_start s))
       | Scalar c => c
       end
  else item a x.
Proof. intros Hx. unfold setslice. rewrite item_fromfunction by exact Hx. reflexivity. Qed.

Lemma item_getslice {A : Type} `{Fill A} (a : ndarray A) (s : slices) (y : index) :
  in_bounds y (slice_shape s) = true ->
  item (getslice a s) y = item a (index_add y (slice_start s)).
Proof. intros Hy. unfold getslice. rewrite item_fromfunction by exact Hy. reflexivity. Qed.

Lemma index_sub_add (x : index) (s : slices) :
  in_slice x s = true -> index_add (index_sub x (slice_start s)) (slice_start s) = x.
Proof.
  revert s. induction x as [|i x IH]; intros [|[lo hi] s] H; try discriminate; [reflexivity|].
  simpl in H. apply andb_true_iff in H. destruct H as [_ H].
  unfold index_add, index_sub, slice_start in *. simpl. f_equal; [lia|].
  apply IH. exact H.
Qed.

(** ** The loops *)

Lemma for_each_inv {S : Type} (P : S -> Prop) (body : S -> nat -> result S) (l : list nat) :
  (forall st i st', P st -> body st i = Ok st' -> P st') ->
  forall st st', P st -> for_each body l st = Ok st' -> P st'.
Proof.
  intros Hstep. induction l as [|i l IH]; intros st st' Hst H; simpl in H.
  - injection H as <-. exact Hst.
  - destruct (body st i) as [st1|e] eqn:E; simpl in H; [|discriminate].
    apply (IH st1 st'); [|exact H]. apply (Hstep st i); assumption.
Qed.

(** ** Labelling: a labelled element is a true element of the input *)

Lemma grow_sub (offs : list index) (input comp : ndarray bool) (x : index) :
  item (grow offs input comp) x = true -> item input x = true.
Proof.
  intros H. pose proof (item_true_in_bounds _ _ H) as Hx. simpl in Hx.
  unfold grow in H. rewrite item_fromfunction in H by exact Hx.
  apply andb_true_iff in H. tauto.
Qed.

Lemma flood_sub (fuel : nat) (offs : list index) (input : ndarray bool) :
  forall comp,
  (forall x, item comp x = true -> item input x = true) ->
  forall x, item (flood fuel offs input comp) x = true -> item input x = true.
Proof.
  induction fuel as [|fuel IH]; intros comp Hc x H; simpl in H.
  - apply Hc, H.
  - destruct (np_all _) in H.
    + apply Hc, H.
    + apply (IH (grow offs input comp)); [|exact H].
      intros y. apply grow_sub.
Qed.

Lemma component_sub (offs : list index) (input : ndarray bool) (seed x : index) :
  item (component offs input seed) x = true -> item input x = true.
Proof.
  unfold component. apply flood_sub. intros y H.
  pose proof (item_true_in_bounds _ _ H) as Hy. simpl in Hy.
  rewrite item_fromfunction in H by exact Hy.
  apply andb_true_iff in H. tauto.
Qed.

Lemma label_scan_sub (todo offs : list index) (input : ndarray bool) :
  forall labels n,
  (forall y, item labels y <> 0 -> item input y = true) ->
  forall y, item (fst (label_scan todo offs input labels n)) y <> 0 -> item input y = true.
Proof.
  induction todo as [|x todo IH]; intros labels n Hl y H; simpl in H.
  - apply Hl, H.
  - destruct (item input x && (item labels x =? 0)).
    + eapply IH; [|exact H]. clear H y. intros y H.
      destruct (in_bounds y (shape input)) eqn:Hy.
      * rewrite item_fromfunction in H by exact Hy.
        destruct (item (component offs input x) y) eqn:Ec.
        -- eapply component_sub, Ec.
        -- apply Hl, H.
      * rewrite item_out_of_bounds in H by exact Hy. contradiction H. reflexivity.
    + eapply IH; [|exact H]. exact Hl.
Qed.

Lemma item_full {A : Type} `{Fill A} (sh : list Z) (v : A) (x : index) :
  in_bounds x sh = true -> item (full sh v) x = v.
Proof. intros Hx. unfold full. rewrite item_fromfunction by exact Hx. reflexivity. Qed.

Lemma item_full_fill {A : Type} `{Fill A} (sh : list Z) (x : index) :
  item (full sh fill) x = fill.
Proof.
  destruct (in_bounds x sh) eqn:Hx.
  - apply item_full, Hx.
  - apply item_out_of_bounds. exact Hx.
Qed.

Lemma label_sub (input structure : ndarray bool) (labels : ndarray Z) (n : Z) :
  label input structure = Ok (labels, n) ->
  forall y, item labels y <> 0 -> item input y = true.
Proof.
  unfold label. destruct (same_rank input structure); [|discriminate].
  intros H y Hy. injection H as H.
  change labels with (fst (labels, n)) in Hy. rewrite <- H in Hy.
  eapply label_scan_sub; [|exact Hy].
  intros z Hz. contradiction Hz. apply (item_full_fill (A := Z)).
Qed.

Lemma label_scan_shape (todo offs : list index) (input : ndarray bool) :
  forall labels n,
  shape labels = shape input ->
  shape (fst (label_scan todo offs input labels n)) = shape input.
Proof.
  induction todo as [|x todo IH]; intros labels n Hl; simpl; [exact Hl|].
  destruct (item input x && (item labels x =? 0)); apply IH; [reflexivity|exact Hl].
Qed.

Lemma label_shape (input structure : ndarray bool) (labels : ndarray Z) (n : Z) :
  label input structure = Ok (labels, n) -> shape labels = shape input.
Proof.
  unfold label. destruct (same_rank input structure); [|discriminate].
  intros H. injection H as H. change labels with (fst (labels, n)).
  rewrite <- H. apply label_scan_shape. reflexivity.
Qed.

(** ** Labelling an image without true elements *)

Lemma label_scan_no_true (todo offs : list index) (input : ndarray bool) :
  no_true input ->
  forall labels n, label_scan todo offs input labels n = (labels, n).
Proof.
  intros Hn. induction todo as [|x todo IH]; intros labels n; simpl; [reflexivity|].
  rewrite (Hn x). simpl. apply IH.
Qed.

Lemma label_no_true (input structure : ndarray bool) :
  no_true input ->
  same_rank input structure = true ->
  label input structure = Ok (full (shape input) 0, 0).
Proof.
  intros Hn Hr. unfold label. rewrite Hr. f_equal. apply label_scan_no_true. exact Hn.
Qed.

(** ** The peak set only shrinks *)

Lemma saddle_while_outcome (fuel : nat) (cube3 : ndarray bool) (dt_i : ndarray Q)
    (im_i peaks_i : ndarray bool) :
  forall iters peaks_dil v iters',
  saddle_while fuel iters cube3 dt_i im_i peaks_i peaks_dil = Ok (v, iters') ->
  v = Arr peaks_i \/ v = Scalar false.
Proof.
  induction fuel as [|fuel IH]; intros iters peaks_dil v iters' H; simpl in H.
  - injection H as <- _. left. reflexivity.
  - destruct (binary_dilation peaks_dil cube3) as [pd|e]; simpl in H; [|discriminate].
    destruct (peaks_extended_of dt_i im_i pd) as [pe|e]; simpl in H; [|discriminate].
    destruct (np_all (equal_bool pe peaks_i)).
    + injection H as <- _. left. reflexivity.
    + destruct (np_sum (logical_and pe peaks_i) =? 0).
      * injection H as <- _. right. reflexivity.
      * eapply IH, H.
Qed.

Lemma trim_saddle_step_subset (dt : ndarray Q) (max_iters : Z) (cube3 : ndarray bool)
    (labels : ndarray Z) (sl : list (option slices)) (input pk pk' : ndarray bool) (i : nat) :
  (forall y, item labels y <> 0 -> item input y = true) ->
  peaks_subset pk input ->
  trim_saddle_step dt max_iters cube3 labels sl pk i = Ok pk' ->
  peaks_subset pk' input.
Proof.
  intros Hlab [Hsh Hsub] H. unfold trim_saddle_step, trim_saddle_cluster in H.
  destruct (slice_at sl i) as [s0|e]; simpl in H; [|discriminate].
  set (s := extend_slice s0 (shape pk) 10) in *.
  set (peaks_i := map_nd (fun l => l =? Z.of_nat i + 1) (getslice labels s)) in *.
  destruct (saddle_while _ _ _ _ _ _ _) as [[v iters]|e] eqn:E; simpl in H; [|discriminate].
  injection H as <-. split; [exact Hsh|].
  intros x Hx.
  pose proof (item_true_in_bounds _ _ Hx) as Hb. simpl in Hb.
  rewrite item_setslice in Hx by exact Hb.
  destruct (in_slice x s) eqn:Hs; [|apply Hsub, Hx].
  apply saddle_while_outcome in E. destruct E as [-> | ->]; [|discriminate].
  pose proof (item_true_in_bounds _ _ Hx) as Hy. simpl in Hy.
  unfold peaks_i in Hx. rewrite item_map_nd in Hx by exact Hy.
  rewrite item_getslice in Hx by exact Hy.
  rewrite index_sub_add in Hx by exact Hs.
  apply Hlab. apply Z.eqb_eq in Hx. lia.
Qed.

Lemma trim_saddle_points_subset (peaks : ndarray bool) (dt : ndarray Q) (max_iters : Z)
    (out : ndarray bool) :
  trim_saddle_points peaks dt max_iters = Ok out -> peaks_subset out peaks.
Proof.
  unfold trim_saddle_points. intros H.
  destruct (label_default peaks) as [[labels N]|e] eqn:El; simpl in H; [|discriminate].
  revert H. apply for_each_inv with (P := fun pk => peaks_subset pk peaks).
  - intros st i st' Hst Hstep. eapply trim_saddle_step_subset; eauto.
    intros y. eapply label_sub, El.
  - split; [reflexivity|auto].
Qed.

Lemma trim_nearby_peaks_subset (peaks : ndarray bool) (dt : ndarray Q) (out : ndarray bool) :
  trim_nearby_peaks peaks dt = Ok out -> peaks_subset out peaks.
Proof.
  unfold trim_nearby_peaks. intros H.
  destruct (label peaks _) as [[labels N]|e] eqn:El; simpl in H; [|discriminate].
  destruct (nearby_drop_peaks labels N dt) as [drop_peaks|e]; simpl in H; [|discriminate].
  match type of H with
  | bind ?m _ = _ => destruct m as [pk|e] eqn:Ef; simpl in H; [|discriminate]
  end.
  injection H as <-.
  assert (Hinv : shape pk = shape peaks /\ forall x, item pk x <> 0 -> item peaks x = true).
  { revert Ef. apply for_each_inv
      with (P := fun pk => shape pk = shape peaks /\
                           forall x, item pk x <> 0 -> item peaks x = true).
    - intros st i st' [Hsh Hsub] Hstep.
      destruct (slice_at (find_objects labels) i) as [s0|e]; simpl in Hstep; [|discriminate].
      injection Hstep as <-. split; [exact Hsh|].
      intros x Hx.
      destruct (in_bounds x (shape st)) eqn:Hb.
      + rewrite item_setslice in Hx by exact Hb.
        destruct (in_slice x s0); [contradiction Hx; reflexivity|apply Hsub, Hx].
      + rewrite item_out_of_bounds in Hx by exact Hb. contradiction Hx. reflexivity.
    - split; [eapply label_shape, El|]. intros x. eapply label_sub, El. }
  destruct Hinv as [Hsh Hsub]. split; [exact Hsh|].
  intros x Hx.
  pose proof (item_true_in_bounds _ _ Hx) as Hb. simpl in Hb.
  rewrite item_map_nd in Hx by exact Hb.
  apply Hsub. apply Z.gtb_lt in Hx. lia.
Qed.

(** ** An image without peaks *)

Lemma trim_nearby_peaks_no_true (peaks : ndarray bool) (dt : ndarray Q) :
  no_true peaks -> raises (trim_nearby_peaks peaks dt).
Proof.
  intros Hn. unfold trim_nearby_peaks, nearby_drop_peaks, raises.
  set (cube3 := if ndim dt =? 2 then square 3 else cube 3).
  destruct (same_rank peaks cube3) eqn:Hr.
  - rewrite (label_no_true cube3 Hn Hr). simpl. eauto.
  - unfold label. rewrite Hr. simpl. eauto.
Qed.

Lemma trim_nearby_peaks_no_true_error (peaks : ndarray bool) (dt : ndarray Q) :
  no_true peaks ->
  shape dt = shape peaks ->
  ndim peaks = 2 \/ ndim peaks = 3 ->
  trim_nearby_peaks peaks dt = Raise (ValueError "need at least one array to concatenate").
Proof.
  intros Hn Hsh Hd. unfold trim_nearby_peaks, nearby_drop_peaks.
  assert (Hr : same_rank peaks (if ndim dt =? 2 then square 3 else cube 3) = true).
  { unfold same_rank, ndim in *. rewrite Hsh.
    destruct Hd as [Hd|Hd]; rewrite Hd; reflexivity. }
  rewrite (label_no_true _ Hn Hr). reflexivity.
Qed.

(** ** Maxima of rationals *)

Lemma Qmaxb_fold_ge (l : list Q) :
  forall v0, (v0 <= fold_left Qmaxb l v0)%Q /\
             (forall v, In v l -> (v <= fold_left Qmaxb l v0)%Q).
Proof.
  induction l as [|a l IH]; intros v0; simpl.
  - split; [apply Qle_refl | intros v []].
  - destruct (IH (Qmaxb v0 a)) as [H0 Hl].
    assert (Hm : (v0 <= Qmaxb v0 a)%Q /\ (a <= Qmaxb v0 a)%Q).
    { unfold Qmaxb. destruct (Qle_bool v0 a) eqn:E.
      - apply Qle_bool_iff in E. split; [exact E | apply Qle_refl].
      - split; [apply Qle_refl|].
        destruct (Qlt_le_dec a v0) as [Hlt|Hle]; [apply Qlt_le_weak, Hlt|].
        apply Qle_bool_iff in Hle. congruence. }
    split.
    + eapply Qle_trans; [apply Hm | exact H0].
    + intros v [<-|Hv]; [eapply Qle_trans; [apply Hm | exact H0] | apply Hl, Hv].
Qed.

Lemma Qmaxb_fold_in (l : list Q) :
  forall v0, In (fold_left Qmaxb l v0) (v0 :: l).
Proof.
  induction l as [|a l IH]; intros v0; simpl.
  - left. reflexivity.
  - destruct (IH (Qmaxb v0 a)) as [H|H].
    + unfold Qmaxb in H at 1. destruct (Qle_bool v0 a); [right; left | left]; exact H.
    + right. right. exact H.
Qed.

Lemma Qmax_list_ge (l : list Q) (v : Q) : In v l -> (v <= Qmax_list l)%Q.
Proof.
  destruct l as [|v0 l]; intros H; [destruct H|]. simpl.
  destruct (Qmaxb_fold_ge l v0) as [H0 Hl].
  destruct H as [<-|H]; [exact H0 | apply Hl, H].
Qed.

Lemma Qmax_list_in (l : list Q) : l <> [] -> In (Qmax_list l) l.
Proof.
  destruct l as [|v0 l]; intros H; [contradiction H; reflexivity|].
  apply Qmaxb_fold_in.
Qed.

(** [a] equals the maximum of a list that holds an equal of [a] exactly
    when it bounds the list. *)
Lemma Qeq_max_list (l : list Q) (a : Q) :
  (exists v, In v l /\ (v == a)%Q) ->
  (Qeq_bool a (Qmax_list l) = true <-> forall v, In v l -> (v <= a)%Q).
Proof.
  intros [v0 [Hin Heq]]. rewrite Qeq_bool_iff. split.
  - intros H v Hv. rewrite H. apply Qmax_list_ge, Hv.
  - intros H. apply Qle_antisym.
    + rewrite <- Heq. apply Qmax_list_ge, Hin.
    + apply H. apply Qmax_list_in. intros ->. destruct Hin.
Qed.

Lemma Qltb_lt (x y : Q) : Qltb x y = true <-> (x < y)%Q.
Proof.
  unfold Qltb. rewrite negb_true_iff. split.
  - intros H. destruct (Qlt_le_dec x y) as [Hlt|Hle]; [exact Hlt|].
    apply Qle_bool_iff in Hle. congruence.
  - intros H. destruct (Qle_bool y x) eqn:E; [|reflexivity].
    apply Qle_bool_iff in E. exfalso. lra.
Qed.

Lemma Qltb_ge (x y : Q) : Qltb x y = false <-> (y <= x)%Q.
Proof.
  unfold Qltb. rewrite negb_false_iff. apply Qle_bool_iff.
Qed.

(** ** Footprints and their neighbourhoods *)

Lemma length_index_sub (x o : index) :
  length x = length o -> length (index_sub x o) = length x.
Proof.
  intros H. unfold index_sub. rewrite length_map, length_combine. lia.
Qed.














(** ** What find_peaks reports *)



(** ** The loop of trim_saddle_points *)

Lemma shape_dilated (cube3 peaks_i : ndarray bool) (k : nat) :
  shape (dilated cube3 peaks_i k) = shape peaks_i.
Proof. induction k as [|k IH]; [reflexivity|]. simpl. exact IH. Qed.

Lemma binary_dilation_dilated (cube3 peaks_i : ndarray bool) (k : nat) :
  same_rank peaks_i cube3 = true ->
  binary_dilation (dilated cube3 peaks_i k) cube3 = Ok (dilated cube3 peaks_i (S k)).
Proof.
  intros Hr. unfold binary_dilation.
  replace (same_rank (dilated cube3 peaks_i k) cube3) with (same_rank peaks_i cube3);
    [rewrite Hr; reflexivity|].
  unfold same_rank, ndim. rewrite shape_dilated. reflexivity.
Qed.

Lemma ndindex_nonempty (sh : list Z) (x : index) :
  in_bounds x sh = true -> ndindex sh <> [].
Proof. intros Hx E. apply In_ndindex in Hx. rewrite E in Hx. destruct Hx. Qed.

Lemma peaks_extended_of_candidate (dt_i : ndarray Q) (peaks_dil : ndarray bool) (x0 : index) :
  in_bounds x0 (shape dt_i) = true ->
  peaks_extended_of dt_i (greater_zero_Q dt_i) peaks_dil = Ok (candidate dt_i peaks_dil).
Proof.
  intros Hx. unfold peaks_extended_of, amax, candidate.
  destruct (data (zip_nd _ dt_i peaks_dil)) eqn:E; [|reflexivity].
  exfalso. simpl in E. apply map_eq_nil in E. eapply ndindex_nonempty; eauto.
Qed.

Lemma candidate_spec (dt_i : ndarray Q) (peaks_dil : ndarray bool) (x : index) :
  shape peaks_dil = shape dt_i ->
  in_bounds x (shape dt_i) = true ->
  (item (candidate dt_i peaks_dil) x = true <->
   item peaks_dil x = true /\ (0 < item dt_i x)%Q /\
   forall y, item peaks_dil y = true -> (item dt_i y <= item dt_i x)%Q).
Proof.
  intros Hsh Hx. unfold candidate.
  set (g := fun y => if item peaks_dil y then item dt_i y else 0%Q).
  assert (Hdata : data (zip_nd (fun v (b : bool) => if b then v else 0%Q) dt_i peaks_dil)
                  = map g (ndindex (shape dt_i))).
  { unfold zip_nd, fromfunction. simpl. apply map_ext. intros y. unfold g.
    destruct (item peaks_dil y); reflexivity. }
  rewrite Hdata. set (mx := Qmax_list (map g (ndindex (shape dt_i)))).
  assert (Hx' : in_bounds x (shape peaks_dil) = true) by (rewrite Hsh; exact Hx).
  unfold logical_and. rewrite item_zip_nd by exact Hx'.
  rewrite item_zip_nd by exact Hx'. rewrite item_map_nd by exact Hx'.
  unfold greater_zero_Q. rewrite item_map_nd by exact Hx.
  rewrite andb_true_iff, Qltb_lt. split.
  - intros [Heq Hpos]. apply Qeq_bool_iff in Heq.
    destruct (item peaks_dil x) eqn:Ex; [|exfalso; lra].
    split; [reflexivity|]. split; [exact Hpos|].
    intros y Hy. rewrite <- Heq.
    assert (Hg : g y = item dt_i y) by (unfold g; rewrite Hy; reflexivity).
    rewrite <- Hg. apply Qmax_list_ge. apply in_map. apply In_ndindex.
    rewrite <- Hsh. apply item_true_in_bounds, Hy.
  - intros [Hp [Hpos Hall]]. split; [|exact Hpos]. rewrite Hp.
    rewrite Qeq_bool_comm. apply Qeq_max_list.
    + exists (g x). split.
      * apply in_map. apply In_ndindex, Hx.
      * unfold g. rewrite Hp. reflexivity.
    + intros v Hv. apply in_map_iff in Hv. destruct Hv as [y [<- _]]. unfold g.
      destruct (item peaks_dil y) eqn:Ey; [apply Hall, Ey | lra].
Qed.

Lemma shape_candidate (dt_i : ndarray Q) (peaks_dil : ndarray bool) :
  shape (candidate dt_i peaks_dil) = shape peaks_dil.
Proof. reflexivity. Qed.

Lemma np_all_equal_bool (a b : ndarray bool) :
  np_all (equal_bool a b) = true <->
  forall x, in_bounds x (shape a) = true -> item a x = item b x.
Proof.
  unfold equal_bool, zip_nd. rewrite np_all_fromfunction.
  split; intros H x Hx; specialize (H x Hx).
  - apply eqb_prop, H.
  - rewrite H. apply eqb_reflx.
Qed.

Lemma np_sum_logical_and (a b : ndarray bool) :
  (np_sum (logical_and a b) =? 0) = true <->
  forall x, ~ (item a x = true /\ item b x = true).
Proof.
  unfold logical_and, zip_nd. rewrite Z.eqb_eq, np_sum_fromfunction_zero.
  split.
  - intros H x [Ha Hb]. specialize (H x (item_true_in_bounds _ _ Ha)).
    rewrite Ha, Hb in H. discriminate.
  - intros H x _. destruct (item a x) eqn:Ea; [|reflexivity].
    destruct (item b x) eqn:Eb; [|reflexivity]. exfalso. apply (H x). split; assumption.
Qed.

(** The loop from iteration [m] on, with the working set dilated [m] times. *)
Lemma saddle_while_from (cube3 : ndarray bool) (dt_i : ndarray Q) (peaks_i : ndarray bool)
    (x0 : index) :
  same_rank peaks_i cube3 = true ->
  in_bounds x0 (shape dt_i) = true ->
  forall fuel m,
  exists v iters,
    saddle_while fuel (Z.of_nat m) cube3 dt_i (greater_zero_Q dt_i) peaks_i
      (dilated cube3 peaks_i m) = Ok (v, Z.of_nat iters)
    /\ (m <= iters <= m + fuel)%nat
    /\ (forall j, (m < j < iters)%nat -> undecided cube3 dt_i peaks_i j = true)
    /\ ((v = Arr peaks_i /\ (m < iters)%nat /\ found_true_peak cube3 dt_i peaks_i iters = true)
        \/ (v = Scalar false /\ (m < iters)%nat /\ found_saddle cube3 dt_i peaks_i iters = true)
        \/ (v = Arr peaks_i /\ iters = (m + fuel)%nat /\
            (iters = m \/ undecided cube3 dt_i peaks_i iters = true))).
Proof.
  intros Hr Hx. induction fuel as [|fuel IH]; intros m.
  - exists (Arr peaks_i), m. simpl. split; [reflexivity|]. split; [lia|].
    split; [intros j Hj; lia|]. right. right. split; [reflexivity|]. split; [lia|]. left.
    reflexivity.
  - cbn [saddle_while].
    rewrite (binary_dilation_dilated cube3 peaks_i m Hr). cbn [bind].
    rewrite (peaks_extended_of_candidate dt_i _ x0 Hx). cbn [bind].
    replace (Z.of_nat m + 1) with (Z.of_nat (S m)) by lia.
    destruct (np_all (equal_bool (candidate dt_i (dilated cube3 peaks_i (S m))) peaks_i))
      eqn:Et.
    + exists (Arr peaks_i), (S m). split; [reflexivity|]. split; [lia|].
      split; [intros j Hj; lia|]. left. split; [reflexivity|]. split; [lia|]. exact Et.
    + destruct (np_sum (logical_and (candidate dt_i (dilated cube3 peaks_i (S m))) peaks_i)
                =? 0) eqn:Es.
      * exists (Scalar false), (S m). split; [reflexivity|]. split; [lia|].
        split; [intros j Hj; lia|]. right. left. split; [reflexivity|]. split; [lia|].
        unfold found_saddle, found_true_peak. rewrite Et, Es. reflexivity.
      * assert (Hu : undecided cube3 dt_i peaks_i (S m) = true).
        { unfold undecided, found_saddle, found_true_peak. rewrite Et, Es. reflexivity. }
        destruct (IH (S m)) as [v [iters [Hrun [Hb [Hund Hcase]]]]].
        exists v, iters. split; [exact Hrun|]. split; [lia|]. split.
        -- intros j Hj. destruct (Nat.eq_dec j (S m)) as [->|Hne]; [exact Hu|].
           apply Hund. lia.
        -- destruct Hcase as [[Hv [Hi Ht]]|[[Hv [Hi Hs]]|[Hv [Hi Hl]]]].
           ++ left. split; [exact Hv|]. split; [lia|exact Ht].
           ++ right. left. split; [exact Hv|]. split; [lia|exact Hs].
           ++ right. right. split; [exact Hv|]. split; [lia|]. right.
              destruct Hl as [->|Hl]; [exact Hu|exact Hl].
Qed.

(** * The claims *)

(** ** The linear distance transform *)

(** C7, as the specification states it, fails: in mode 'both' the function
    does not return [0,1,1,1,0,1,1,0] on [0,1,1,1,0,1,1,0]. *)
Lemma distance_transform_lin_both_not_ones :
  exists out,
    distance_transform_lin lin_example 0 "both" = Ok out /\
    out <> mk_ndarray [8] [0; 1; 1; 1; 0; 1; 1; 0].
Proof.
  eexists. split; [by_run|]. discriminate.
Qed.

(** C7, amended: on the 1-dimensional array [0,1,1,1,0,1,1,0],
    distance_transform_lin returns [0,1,2,3,0,1,2,0] in mode 'forward' and
    [0,1,2,1,0,1,1,0] in mode 'both', the elementwise minimum of the forward
    result and the backward result [0,3,2,1,0,2,1,0]. *)
Theorem distance_transform_lin_example :
  distance_transform_lin lin_example 0 "forward" = Ok (mk_ndarray [8] [0; 1; 2; 3; 0; 1; 2; 0])
  /\ distance_transform_lin lin_example 0 "backward" = Ok (mk_ndarray [8] [0; 3; 2; 1; 0; 2; 1; 0])
  /\ distance_transform_lin lin_example 0 "both" = Ok (mk_ndarray [8] [0; 1; 2; 1; 0; 1; 1; 0]).
Proof. repeat split; by_run. Qed.

(** ** Mode options *)

(** C8, as the specification states it, fails: distance_transform_lin with a
    mode that is none of 'forward', 'reverse', 'backward' and 'both' computes
    a result, the one of mode 'forward'. *)
Lemma distance_transform_lin_unknown_mode_returns :
  mode_in "sideways" ["forward"; "reverse"; "backward"; "both"]%string = false /\
  distance_transform_lin lin_example 0 "sideways"
  = Ok (mk_ndarray [8] [0; 1; 2; 3; 0; 1; 2; 0]).
Proof. split; by_run. Qed.

Lemma mode_in_false (mode : string) (options : list string) :
  (forall o, In o options -> mode <> o) -> mode_in mode options = false.
Proof.
  intros H. unfold mode_in. induction options as [|o options IH]; [reflexivity|].
  simpl. rewrite IH.
  - rewrite orb_false_r. apply String.eqb_neq. apply H. left. reflexivity.
  - intros o' Ho'. apply H. right. exact Ho'.
Qed.

(** C8, amended: of the operations that take a string-valued mode only
    porosimetry, and local_thickness which calls it, check the mode: with a
    mode that is none of 'mio', 'dt' and 'hybrid' they raise, and the error is
    the exception 'Unreckognized mode ...' of line 1008 unless a statement
    before the dispatch raises first (get_border for the default inlets; for
    an integer [sizes], amax on an image without voxels, or logspace).
    flood does not check its mode: with a mode that begins with none of
    'max', 'min' and 'size' it raises, but only because V is never assigned,
    and never with an exception of class Exception.
    distance_transform_lin does not check its mode: every mode that is none
    of 'backward', 'reverse' and 'both' is computed as mode 'forward'.
    trim_extrema does not check its mode either: with a mode that is none of
    'maxima', 'minima' and 'extrema' it returns its input. *)
Theorem unrecognized_mode
    (distance_transform_edt : ndarray bool -> ndarray Q) (log10 : Q -> Q)
    (logspace : Q -> Q -> Z -> result (list Q))
    (pad_symmetric : ndarray Z -> Z -> result (ndarray Z))
    (fftconvolve : ndarray bool -> ndarray bool -> string -> result (ndarray Q))
    (get_border : list Z -> string -> result (ndarray bool))
    (ps_disk ps_ball : Q -> result (ndarray bool))
    (fftmorphology : ndarray Z -> ndarray bool -> string -> result (ndarray bool))
    (reconstruction : ndarray Q -> ndarray Q -> string -> ndarray Q)
    (im : ndarray Z) (sizes : sizes_arg) (inlets : option (ndarray bool))
    (access_limited : bool) (axis : nat) (grey : ndarray Q) (h : Q)
    (values : ndarray Q) (regions : option (ndarray Z)) (mode : string) :
  (mode <> "mio"%string -> mode <> "dt"%string -> mode <> "hybrid"%string ->
   porosimetry distance_transform_edt log10 logspace pad_symmetric fftconvolve get_border
     ps_disk ps_ball fftmorphology im sizes inlets access_limited mode
   = (_ <- porosimetry_inlets get_border im inlets ;;
      _ <- porosimetry_sizes log10 logspace
             (distance_transform_edt (map_nd (fun v => v >? 0) im)) sizes ;;
      Raise (Exception ("Unreckognized mode " ++ mode)))
   /\ raises (porosimetry distance_transform_edt log10 logspace pad_symmetric fftconvolve
                get_border ps_disk ps_ball fftmorphology im sizes inlets access_limited mode)
   /\ raises (local_thickness distance_transform_edt log10 logspace pad_symmetric
                fftconvolve get_border ps_disk ps_ball fftmorphology im sizes mode))
  /\ (prefix "max" mode = false -> prefix "min" mode = false ->
      prefix "size" mode = false ->
      raises (porespy.flood values regions mode)
      /\ forall msg, porespy.flood values regions mode <> Raise (Exception msg))
  /\ (mode <> "backward"%string -> mode <> "reverse"%string -> mode <> "both"%string ->
      distance_transform_lin im axis mode = distance_transform_lin im axis "forward"
      /\ distance_transform_lin im axis mode = distance_transform_lin_else im axis)
  /\ (mode <> "maxima"%string -> mode <> "minima"%string -> mode <> "extrema"%string ->
      trim_extrema reconstruction grey h mode = grey).
Proof.
  split; [|split; [|split]].
  - intros H1 H2 H3.
    assert (Hform : forall im sizes inlets access_limited,
      porosimetry distance_transform_edt log10 logspace pad_symmetric fftconvolve get_border
        ps_disk ps_ball fftmorphology im sizes inlets access_limited mode
      = (_ <- porosimetry_inlets get_border im inlets ;;
         _ <- porosimetry_sizes log10 logspace
                (distance_transform_edt (map_nd (fun v => v >? 0) im)) sizes ;;
         Raise (Exception ("Unreckognized mode " ++ mode)))).
    { intros im' sizes' inlets' al'. unfold porosimetry.
      apply String.eqb_neq in H1, H2, H3. rewrite H1, H2, H3. reflexivity. }
    assert (Hraises : forall im sizes inlets access_limited,
      raises (porosimetry distance_transform_edt log10 logspace pad_symmetric fftconvolve
                get_border ps_disk ps_ball fftmorphology im sizes inlets access_limited mode)).
    { intros im' sizes' inlets' al'. rewrite Hform. unfold raises.
      destruct (porosimetry_inlets get_border im' inlets') as [i|e]; [|exists e; reflexivity].
      cbn [bind].
      destruct (porosimetry_sizes log10 logspace _ sizes') as [l|e]; [|exists e; reflexivity].
      cbn [bind]. eexists. reflexivity. }
    split; [apply Hform|]. split; [apply Hraises|]. unfold local_thickness. apply Hraises.
  - intros Hmax Hmin Hsize. unfold porespy.flood. rewrite Hmax, Hmin, Hsize.
    destruct regions as [regions|].
    + unfold array_max. destruct (flatten regions) as [|v vs].
      * split; [eexists; reflexivity|]. intros msg. discriminate.
      * split; [eexists; reflexivity|]. intros msg. discriminate.
    + unfold label_default, label.
      destruct (same_rank _ _).
      * destruct (label_scan _ _ _ _ _) as [labels N].
        split; [eexists; reflexivity|]. intros msg. discriminate.
      * split; [eexists; reflexivity|]. intros msg. discriminate.
  - intros Hb Hr Ho. unfold distance_transform_lin.
    cbn [distance_transform_lin_rec].
    rewrite (@mode_in_false mode ["backward"; "reverse"]%string),
            (@mode_in_false mode ["both"]%string).
    + split; reflexivity.
    + intros o [<-|[]]. exact Ho.
    + intros o [<-|[<-|[]]]; assumption.
  - intros Hmax Hmin Hext. unfold trim_extrema.
    rewrite (@mode_in_false mode ["maxima"; "extrema"]%string),
            (@mode_in_false mode ["minima"; "extrema"]%string).
    + reflexivity.
    + intros o [<-|[<-|[]]]; assumption.
    + intros o [<-|[<-|[]]]; assumption.
Qed.

Lemma unrecognized_mode_witness :
  porosimetry unit_dt (fun v => v) three_sizes mirror_pad keep_convolve faces_border
    square_strel square_strel keep_opening ring_im (Sizes_int 3) None true "sideways"
  = Raise (Exception "Unreckognized mode sideways")
  /\ raises (local_thickness unit_dt (fun v => v) three_sizes mirror_pad keep_convolve
               faces_border square_strel square_strel keep_opening ring_im (Sizes_int 3)
               "sideways")
  /\ raises (porespy.flood flood_example (Some flood_regions) "sideways")
  /\ distance_transform_lin ring_im 0 "sideways"
     = distance_transform_lin ring_im 0 "forward"
  /\ trim_extrema (fun seed mask method => seed) flood_example 1 "sideways" = flood_example.
Proof.
  destruct (@unrecognized_mode unit_dt (fun v => v) three_sizes mirror_pad keep_convolve
              faces_border square_strel square_strel keep_opening
              (fun seed mask method => seed) ring_im (Sizes_int 3) None true 0%nat
              flood_example 1 flood_example (Some flood_regions) "sideways")
    as [H1 [H2 [H3 H4]]].
  split; [|split; [|split; [|split]]].
  - destruct H1 as [H _]; [discriminate..|]. rewrite H. reflexivity.
  - apply H1; discriminate.
  - apply H2; reflexivity.
  - apply H3; discriminate.
  - apply H4; discriminate.
Defined.

(** With an integer [sizes] and an image without voxels the error is the one
    of amax (line 967), whatever the mode. *)
Lemma porosimetry_no_voxels (mode : string) :
  porosimetry unit_dt (fun v => v) three_sizes mirror_pad keep_convolve faces_border
    square_strel square_strel keep_opening no_voxels (Sizes_int 3) None true mode
  = Raise (ValueError "zero-size array to reduction operation maximum which has no identity").
Proof. reflexivity. Qed.

(** The three recognized modes on the ring image, with the sizes 1 and 2
    and without access limitation: the void voxels get the size 2 in mode
    'mio' (the opening is the stand-in that keeps the image) and 1 in the
    other modes. *)
Lemma porosimetry_ring :
  forall mode, In mode ["mio"; "dt"; "hybrid"]%string ->
    porosimetry unit_dt (fun v => v) three_sizes mirror_pad keep_convolve faces_border
      square_strel square_strel keep_opening ring_im (Sizes_array [1%Q; 2%Q]) None false mode
    = Ok (map_nd (fun v => if v >? 0 then (if String.eqb mode "mio" then 2%Q else 1%Q)
                           else 0%Q) ring_im).
Proof.
  intros mode [<-|[<-|[<-|[]]]]; vm_compute; reflexivity.
Qed.

(** ** Images without peaks *)

(** C9: trim_nearby_peaks raises whenever its input peak image has no true
    element (for an image of 2 or 3 dimensions the ValueError of vstack on an
    empty list of centres), and so snow_partitioning raises, whatever its
    options, when find_peaks followed by trim_saddle_points leaves such an
    image. *)
Theorem no_peaks_raise (peaks : ndarray bool) (Hn : no_true peaks) :
  (forall dt, raises (trim_nearby_peaks peaks dt))
  /\ (forall dt, shape dt = shape peaks -> ndim peaks = 2 \/ ndim peaks = 3 ->
        trim_nearby_peaks peaks dt
        = Raise (ValueError "need at least one array to concatenate"))
  /\ (forall (distance_transform_edt : ndarray bool -> ndarray Q)
             (gaussian_filter : ndarray Q -> Q -> ndarray Q)
             (watershed : ndarray Q -> ndarray Z -> option (ndarray bool) -> ndarray Z)
             (randomize_colors : ndarray Z -> ndarray Z)
             (im : ndarray Z) (dt : option (ndarray Q)) (r_max : Z) (sigma : Q)
             (return_all mask randomize : bool) (p0 : ndarray bool),
        let d := snow_blur gaussian_filter
                   (snow_distance_transform distance_transform_edt
                      (map_nd (fun v => v >? 0) im) (shape im) dt) sigma in
        find_peaks d r_max None = Ok p0 ->
        trim_saddle_points p0 d 500 = Ok peaks ->
        raises (snow_partitioning distance_transform_edt gaussian_filter watershed
                  randomize_colors im dt r_max sigma return_all mask randomize)).
Proof.
  split; [|split].
  - intros dt. apply trim_nearby_peaks_no_true, Hn.
  - intros dt Hsh Hd. apply trim_nearby_peaks_no_true_error; assumption.
  - intros edt gf ws rc im dt r_max sigma return_all mask randomize p0 d H0 H1.
    unfold snow_partitioning. fold d. rewrite H0. simpl. rewrite H1. simpl.
    destruct (trim_nearby_peaks_no_true d Hn) as [e ->]. exists e. reflexivity.
Qed.

Lemma no_true_full_false (sh : list Z) : no_true (full sh false).
Proof. intros x. apply (item_full_fill (A := bool)). Qed.

Lemma no_peaks_raise_witness :
  raises (trim_nearby_peaks (full [3; 3] false) (full [3; 3] 0%Q))
  /\ raises (snow_partitioning edt_unit blur_half watershed_markers keep_colors
               solid_im None 4 (4 # 10) true true true).
Proof.
  destruct (no_peaks_raise (no_true_full_false [3; 3])) as [H1 [_ H3]].
  split.
  - apply H1.
  - apply H3 with (p0 := full [3; 3] false); by_run.
Defined.

(** ** The distance field that snow_partitioning returns *)

(** C10: with [sigma > 0] and [return_all] set, the [dt] field of the tuple
    that snow_partitioning returns is the distance transform from before the
    Gaussian blur: the field the caller supplied or, when none was supplied,
    the Euclidean distance transform of the image (taken on the squeezed
    image and expanded again when the image has an axis of length 1). The
    blurred field is what find_peaks, trim_saddle_points, trim_nearby_peaks
    and (negated) the watershed receive, and it is no field of the tuple. *)
Theorem snow_returns_raw_dt
    (distance_transform_edt : ndarray bool -> ndarray Q)
    (gaussian_filter : ndarray Q -> Q -> ndarray Q)
    (watershed : ndarray Q -> ndarray Z -> option (ndarray bool) -> ndarray Z)
    (randomize_colors : ndarray Z -> ndarray Z)
    (im : ndarray Z) (dt : option (ndarray Q)) (r_max : Z) (sigma : Q)
    (mask randomize : bool) (p0 p1 p2 : ndarray bool) (markers : ndarray Z) (N : Z) :
  let im_bool := map_nd (fun v => v >? 0) im in
  let raw :=
    match dt with
    | Some supplied => supplied
    | None =>
        match first_unit_axis (shape im) with
        | Some ax => expand_dims (distance_transform_edt (squeeze im_bool)) ax
        | None => distance_transform_edt im_bool
        end
    end in
  let blurred := gaussian_filter raw sigma in
  (0 < sigma)%Q ->
  find_peaks blurred r_max None = Ok p0 ->
  trim_saddle_points p0 blurred 500 = Ok p1 ->
  trim_nearby_peaks p1 blurred = Ok p2 ->
  label_default p2 = Ok (markers, N) ->
  snow_partitioning distance_transform_edt gaussian_filter watershed randomize_colors
    im dt r_max sigma true mask randomize
  = Ok (All {| tup_im := im_bool;
               tup_dt := raw;
               tup_peaks := markers;
               tup_regions :=
                 let regions := watershed (map_nd Qopp blurred) markers
                                  (if mask then Some im_bool else None) in
                 if randomize then randomize_colors regions else regions |}).
Proof.
  intros im_bool raw blurred Hs H0 H1 H2 H3.
  unfold snow_partitioning. fold im_bool.
  assert (Hraw : snow_distance_transform distance_transform_edt im_bool (shape im) dt = raw).
  { unfold snow_distance_transform, raw. destruct dt; reflexivity. }
  rewrite Hraw.
  assert (Hb : snow_blur gaussian_filter raw sigma = blurred).
  { unfold snow_blur, Qltb. destruct (Qle_bool sigma 0) eqn:E; [|reflexivity].
    apply Qle_bool_iff in E. exfalso. lra. }
  rewrite Hb, H0. simpl. rewrite H1. simpl. rewrite H2. simpl. rewrite H3. reflexivity.
Qed.

Lemma snow_returns_raw_dt_witness :
  exists tup,
    snow_partitioning edt_unit blur_half watershed_markers keep_colors
      snow_im None 4 (4 # 10) true true true = Ok (All tup)
    /\ tup_dt tup = edt_unit (map_nd (fun v => v >? 0) snow_im)
    /\ tup_dt tup <> blur_half (edt_unit (map_nd (fun v => v >? 0) snow_im)) (4 # 10).
Proof.
  eexists. split; [|split].
  - apply (@snow_returns_raw_dt edt_unit blur_half watershed_markers keep_colors
             snow_im None 4 (4 # 10) true true
             (full [5; 5] true) (full [5; 5] true) (full [5; 5] true)
             (full [5; 5] 1) 1).
    + reflexivity.
    + by_run.
    + by_run.
    + by_run.
    + by_run.
  - reflexivity.
  - vm_compute. discriminate.
Defined.
(** ** The penalty of find_peaks *)

(** C3 fails on the code, against the function's own documentation
    ("Returns all local maxima in the distance transform"): a single void
    voxel in solid has distance 1, the largest value of its neighbourhood,
    and find_peaks does not report it. The penalty that line 231 adds to the
    solid voxels is the constant 2, not a bound on the distance values, and
    it masks the void maximum of value 1 beside them. *)
Lemma find_peaks_masks_genuine_peak :
  exists peaks,
    find_peaks lone_void_dt 1 None = Ok peaks
    /\ genuine_void_max lone_void_dt (disk 1) [1; 1] = true
    /\ item peaks [1; 1] = false.
Proof.
  eexists. split; [by_run|]. split; by_run.
Qed.


(** ** The loop of the saddle-point trimmer *)

(** C1, as the specification states it, fails. On the plateau image the
    candidate set of the second iteration equals the working set from before
    that dilation, so the loop as worded keeps the cluster at iteration 2;
    the source compares with the cluster's own voxel, goes on, and drops the
    cluster at iteration 3. *)
Lemma saddle_loop_not_as_claimed :
  let im_i := greater_zero_Q plateau_dt in
  np_all (equal_bool (candidate plateau_dt (dilated (square 3) plateau_peak 2))
            (dilated (square 3) plateau_peak 1)) = true
  /\ saddle_while_claimed 500 0 (square 3) plateau_dt im_i plateau_peak plateau_peak
     = Ok (Arr plateau_peak, 2)
  /\ saddle_while 500 0 (square 3) plateau_dt im_i plateau_peak plateau_peak
     = Ok (Scalar false, 3)
  /\ saddle_decisions plateau_peak plateau_dt 500 = Ok [false]
  /\ trim_saddle_points plateau_peak plateau_dt 500 = Ok (full [7; 7] false).
Proof. cbv zeta. repeat split; by_run. Qed.

(** ** The peak set only shrinks *)

(** C6: the output of trim_saddle_points marks no voxel that its input does
    not mark, and neither does the output of trim_nearby_peaks (for any
    input, of this stage or not); so a voxel that is not a peak before
    trim_saddle_points, or after it, is not a peak after trim_nearby_peaks. *)
Theorem peak_set_only_shrinks (peaks : ndarray bool) (dt : ndarray Q) (max_iters : Z)
    (trimmed merged : ndarray bool) :
  trim_saddle_points peaks dt max_iters = Ok trimmed ->
  trim_nearby_peaks trimmed dt = Ok merged ->
  peaks_subset trimmed peaks
  /\ peaks_subset merged trimmed
  /\ (forall x, item peaks x = false -> item merged x = false)
  /\ (forall p d out, trim_nearby_peaks p d = Ok out -> peaks_subset out p)
  /\ (forall p d n out, trim_saddle_points p d n = Ok out -> peaks_subset out p).
Proof.
  intros Hs Hn.
  pose proof (trim_saddle_points_subset _ _ _ Hs) as [Hsh1 H1].
  pose proof (trim_nearby_peaks_subset _ _ Hn) as [Hsh2 H2].
  split; [split; assumption|]. split; [split; assumption|]. split; [|split].
  - intros x Hx. destruct (item merged x) eqn:E; [|reflexivity].
    apply H2, H1 in E. congruence.
  - intros p d out. apply trim_nearby_peaks_subset.
  - intros p d n out. apply trim_saddle_points_subset.
Qed.

Lemma peak_set_only_shrinks_witness :
  peaks_subset (mark [3; 8] [[0; 5]]) two_dots
  /\ peaks_subset (mark [3; 8] [[0; 5]]) (mark [3; 8] [[0; 5]])
  /\ (forall x, item two_dots x = false -> item (mark [3; 8] [[0; 5]]) x = false)
  /\ (forall p d out, trim_nearby_peaks p d = Ok out -> peaks_subset out p)
  /\ (forall p d n out, trim_saddle_points p d n = Ok out -> peaks_subset out p).
Proof.
  apply (@peak_set_only_shrinks two_dots two_dots_dt 500).
  - by_run.
  - by_run.
Defined.

(** ** Where the code departs from its documentation *)

Lemma drop_list_marks (dist_to_solid : list Q) (nearest_neighbor hits : list nat) (k : nat) :
  In k (drop_list dist_to_solid nearest_neighbor hits) <->
  exists peak, In peak hits /\
    let nn := nth peak nearest_neighbor O in
    (k = peak /\ (nth peak dist_to_solid 0 < nth nn dist_to_solid 0)%Q)
    \/ (k = nn /\ (nth nn dist_to_solid 0 <= nth peak dist_to_solid 0)%Q).
Proof.
  unfold drop_list. rewrite in_map_iff. split.
  - intros [peak [Hk Hp]]. exists peak. split; [exact Hp|]. cbv zeta in *.
    destruct (Qltb _ _) eqn:E.
    + left. split; [symmetry; exact Hk | apply Qltb_lt, E].
    + right. split; [symmetry; exact Hk | apply Qltb_ge, E].
  - intros [peak [Hp H]]. exists peak. split; [|exact Hp]. cbv zeta in *.
    destruct H as [[-> H]|[-> H]].
    + apply Qltb_lt in H. rewrite H. reflexivity.
    + apply Qltb_ge in H. rewrite H. reflexivity.
Qed.

(** C2: of a peak that is nearer to its nearest neighbour than to the solid
    and of that neighbour, the loop of lines 379-383 marks the peak when its
    distance to the solid is strictly smaller, and the neighbour otherwise,
    also when the two distances are equal. Two peaks two voxels apart, each
    nearer to the other than to the solid (distance 2 against 3) and with
    equal distances to the solid, therefore mark each other, and
    trim_nearby_peaks removes both; with different distances the peak
    further from the solid survives. *)
Theorem nearby_tie_removes_both :
  (forall dist_to_solid nearest_neighbor hits k,
     In k (drop_list dist_to_solid nearest_neighbor hits) <->
     exists peak, In peak hits /\
       let nn := nth peak nearest_neighbor O in
       (k = peak /\ (nth peak dist_to_solid 0 < nth nn dist_to_solid 0)%Q)
       \/ (k = nn /\ (nth nn dist_to_solid 0 <= nth peak dist_to_solid 0)%Q))
  /\ dist_lt (Some (dist_sq [2; 2] [2; 4])) (item twins_dt [2; 2]) = true
  /\ dist_lt (Some (dist_sq [2; 4] [2; 2])) (item twins_dt [2; 4]) = true
  /\ (exists labels,
        nearby_decisions twins twins_dt = Ok (labels, [0%nat; 1%nat])
        /\ item labels [2; 2] = 1 /\ item labels [2; 4] = 2)
  /\ trim_nearby_peaks twins twins_dt = Ok (full [5; 7] false)
  /\ trim_nearby_peaks twins siblings_dt = Ok (mark [5; 7] [[2; 4]]).
Proof.
  split; [apply drop_list_marks|].
  split; [by_run|]. split; [by_run|].
  split; [eexists; split; [by_run | split; reflexivity]|].
  split; by_run.
Qed.

(** C4: a cluster that its stage decides to keep is erased all the same.
    [two_dots] is what find_peaks reports for its distance field;
    trim_saddle_points finds both of its single-voxel peaks to be true
    peaks, and the write-back of the second cluster's padded sub-volume
    erases the first. trim_nearby_peaks marks only the bracket of
    [bracket_and_dot] for removal, and zeroing the bracket's bounding slice
    erases the dot inside it. *)
Theorem trimming_erases_kept_clusters :
  find_peaks two_dots_dt 4 None = Ok two_dots
  /\ saddle_decisions two_dots two_dots_dt 500 = Ok [true; true]
  /\ item two_dots [0; 0] = true
  /\ trim_saddle_points two_dots two_dots_dt 500 = Ok (mark [3; 8] [[0; 5]])
  /\ (exists labels,
        nearby_decisions bracket_and_dot bracket_and_dot_dt = Ok (labels, [0%nat])
        /\ item labels [0; 0] = 1 /\ item labels [2; 3] = 2)
  /\ trim_nearby_peaks bracket_and_dot bracket_and_dot_dt = Ok (full [5; 5] false).
Proof.
  split; [by_run|].
  split; [by_run|]. split; [reflexivity|].
  split; [by_run|].
  split; [eexists; split; [by_run | split; reflexivity]|].
  by_run.
Qed.

(** C5: the number of features grows. [line_and_dot] is what find_peaks
    reports for its distance field; trim_saddle_points keeps the line and
    the dot, and the write-back of the dot's padded
    sub-volume cuts the line in two: 2 features before, 3 after.
    trim_nearby_peaks removes the angle of [comb_and_angle], and zeroing the
    angle's bounding slice cuts the comb into its three prongs: 2 features
    before, 3 after. *)
Theorem trimming_raises_feature_count :
  find_peaks line_and_dot_dt 4 None = Ok line_and_dot
  /\ count_features line_and_dot = Ok 2
  /\ saddle_decisions line_and_dot line_and_dot_dt 500 = Ok [true; true]
  /\ (exists out,
        trim_saddle_points line_and_dot line_and_dot_dt 500 = Ok out
        /\ argwhere out = [[0; 0]; [0; 1]; [0; 23]; [0; 24]; [2; 12]]
        /\ count_features out = Ok 3)
  /\ count_features comb_and_angle = Ok 2
  /\ (exists labels,
        nearby_decisions comb_and_angle comb_and_angle_dt = Ok (labels, [1%nat])
        /\ item labels [0; 0] = 1 /\ item labels [12; 0] = 2)
  /\ (exists out,
        trim_nearby_peaks comb_and_angle comb_and_angle_dt = Ok out
        /\ count_features out = Ok 3).
Proof.
  split; [by_run|].
  split; [by_run|]. split; [by_run|].
  split; [eexists; split; [by_run | split; by_run]|].
  split; [by_run|].
  split; [eexists; split; [by_run | split; by_run]|].
  eexists; split; [by_run | by_run].
Qed.

(** * Further properties of the code

    ** distance_transform_lin: what the three modes compute *)

Unset Implicit Arguments.

Section LineMath.

Variable line : nat -> Z.
Hypothesis line_nonneg : forall j, 0 <= line j.

Let pos (j : nat) : Z := if line j >? 0 then 1 else 0.
Let B := partial_sum pos.
Let g (k : nat) : Z := B k * (if line k =? 0 then 1 else 0).
Let c (k : nat) : Z := g (S k) - g k.

Lemma B_nonneg k : 0 <= B k.
Proof.
  induction k as [|k IH]; unfold B in *; simpl; unfold pos in *.
  - destruct (line 0 >? 0); lia.
  - destruct (line (S k) >? 0); lia.
Qed.

Lemma B_succ k : B (S k) = B k + pos (S k).
Proof. reflexivity. Qed.

Lemma base_bounds k : 0 <= base_count line k <= B k.
Proof.
  induction k as [|k IH].
  - simpl. pose proof (B_nonneg 0). lia.
  - cbn [base_count]. fold pos. fold B. destruct (line (S k) =? 0) eqn:E.
    + pose proof (B_nonneg (S k)). lia.
    + rewrite B_succ. unfold pos. destruct (line (S k) >? 0); lia.
Qed.

Lemma base_succ_ge k : base_count line k <= base_count line (S k).
Proof.
  cbn [base_count]. fold pos. fold B. destruct (line (S k) =? 0).
  - pose proof (base_bounds k). rewrite B_succ. unfold pos.
    destruct (line (S k) >? 0); lia.
  - lia.
Qed.

Lemma base_at_zero k : line k = 0 -> base_count line k = B k.
Proof.
  intros H. destruct k as [|k].
  - simpl. unfold B. simpl. unfold pos. rewrite H. reflexivity.
  - cbn [base_count]. rewrite H. reflexivity.
Qed.

Lemma base_at_pos k : 0 < line (S k) -> base_count line (S k) = base_count line k.
Proof.
  intros H. cbn [base_count]. destruct (Z.eqb_spec (line (S k)) 0); [lia|reflexivity].
Qed.

Lemma c_cases k :
  - base_count line k <= c k /\ (0 < line (S k) -> line k = 0 -> c k = - base_count line k).
Proof.
  pose proof (base_bounds k) as Hb. pose proof (B_nonneg (S k)) as HB.
  pose proof (line_nonneg k) as Hk. pose proof (line_nonneg (S k)) as Hk1.
  unfold c, g. rewrite B_succ in *. unfold pos in *.
  destruct (Z.eqb_spec (line (S k)) 0) as [E1|E1];
    destruct (Z.eqb_spec (line k) 0) as [E0|E0].
  - rewrite E1. simpl. split; [lia|intros; lia].
  - rewrite E1. simpl. split; [lia|intros; lia].
  - rewrite (base_at_zero k E0) in *. split; [lia|intros; lia].
  - split; [lia|intros; lia].
Qed.

Lemma running_min_spec k :
  - base_count line k <= running_min c k
  /\ (0 < line (S k) -> running_min c k = - base_count line k).
Proof.
  induction k as [|k [IH1 IH2]].
  - simpl. destruct (c_cases 0) as [H1 H2]. split; [exact H1|].
    intros Hp. destruct (Z.eq_dec (line 0) 0) as [E|E]; [apply H2; assumption|].
    pose proof (line_nonneg 0).
    unfold c, g. rewrite B_succ. unfold B. simpl. unfold pos.
    destruct (Z.eqb_spec (line 1) 0); [lia|].
    destruct (Z.eqb_spec (line 0) 0); [lia|]. lia.
  - cbn [running_min]. destruct (c_cases (S k)) as [H1 H2].
    pose proof (base_succ_ge k) as Hm. split; [lia|].
    intros Hp. destruct (Z.eq_dec (line (S k)) 0) as [E|E].
    + specialize (H2 Hp E). lia.
    + pose proof (line_nonneg (S k)).
      assert (Hk : 0 < line (S k)) by lia.
      specialize (IH2 Hk). rewrite (base_at_pos k Hk) in *. lia.
Qed.

Lemma run_from_counts k :
  B k - base_count line k = leading_run (map line (rev (seq 0 (S k)))).
Proof.
  induction k as [|k IH].
  - simpl. unfold B. simpl. unfold pos. destruct (line 0 >? 0); reflexivity.
  - rewrite seq_S, rev_app_distr. cbn [rev app map leading_run Nat.add].
    rewrite <- IH. rewrite B_succ. unfold pos.
    pose proof (line_nonneg (S k)).
    destruct (Z.gtb_spec (line (S k)) 0) as [Hp|Hn].
    + rewrite (base_at_pos k Hp). lia.
    + rewrite base_at_zero by lia. rewrite B_succ. unfold pos.
      destruct (Z.gtb_spec (line (S k)) 0); lia.
Qed.

(** [e] is the running minimum shifted by one, with 0 in front. *)
Lemma forward_value k :
  line k * (B k + match k with O => 0 | S k' => running_min c k' end)
  = line k * leading_run (map line (rev (seq 0 (S k)))).
Proof.
  pose proof (line_nonneg k) as Hk.
  destruct (Z.eq_dec (line k) 0) as [E|E]; [rewrite E; reflexivity|].
  f_equal. rewrite <- run_from_counts.
  destruct k as [|k].
  - simpl. lia.
  - destruct (running_min_spec k) as [_ H]. rewrite H by lia.
    rewrite base_at_pos by lia. lia.
Qed.

End LineMath.

Lemma length_axis_set (x : index) (a : nat) (k : Z) : length (axis_set x a k) = length x.
Proof.
  revert a. induction x as [|i x IH]; intros [|a]; simpl; try reflexivity.
  f_equal. apply IH.
Qed.

Lemma axis_get_set (x : index) (a : nat) (k : Z) :
  (a < length x)%nat -> axis_get (axis_set x a k) a = k.
Proof.
  revert a. induction x as [|i x IH]; intros [|a] H; simpl in *; try lia.
  - reflexivity.
  - apply IH. lia.
Qed.

Lemma axis_set_set (x : index) (a : nat) (k k' : Z) :
  axis_set (axis_set x a k) a k' = axis_set x a k'.
Proof.
  revert a. induction x as [|i x IH]; intros [|a]; simpl; try reflexivity.
  f_equal. apply IH.
Qed.

Lemma axis_set_get (x : index) (a : nat) :
  axis_set x a (axis_get x a) = x.
Proof.
  revert a. induction x as [|i x IH]; intros [|a]; simpl; try reflexivity.
  f_equal. apply IH.
Qed.

Lemma in_bounds_axis_set (x : index) (sh : list Z) (a : nat) (k m : Z) :
  in_bounds x sh = true -> (a < length sh)%nat ->
  in_bounds (axis_set x a k) (axis_set sh a m) = (0 <=? k) && (k <? m).
Proof.
  revert x a. induction sh as [|n sh IH]; intros [|i x] [|a] Hx Ha; simpl in *;
    try discriminate; try lia.
  - apply andb_true_iff in Hx. destruct Hx as [_ Hx]. rewrite Hx. apply andb_true_r.
  - apply andb_true_iff in Hx. destruct Hx as [Hi Hx]. rewrite Hi. simpl.
    apply IH; [exact Hx | lia].
Qed.

Lemma in_bounds_axis_line (x : index) (sh : list Z) (a : nat) (k : Z) :
  in_bounds x sh = true -> (a < length sh)%nat ->
  in_bounds (axis_set x a k) sh = (0 <=? k) && (k <? axis_get sh a).
Proof.
  intros Hx Ha. rewrite <- (in_bounds_axis_set x sh a k (axis_get sh a) Hx Ha).
  rewrite axis_set_get. reflexivity.
Qed.

Lemma axis_get_bounds (x : index) (sh : list Z) (a : nat) :
  in_bounds x sh = true -> (a < length sh)%nat ->
  0 <= axis_get x a < axis_get sh a.
Proof.
  intros Hx Ha. pose proof (in_bounds_axis_line x sh a (axis_get x a) Hx Ha) as H.
  rewrite axis_set_get, Hx in H. symmetry in H.
  apply andb_true_iff in H. lia.
Qed.

Lemma arange_succ (k : nat) : arange (Z.of_nat k + 1) = map Z.of_nat (seq 0 (S k)).
Proof. unfold arange. f_equal. f_equal. lia. Qed.

Lemma fold_add_partial_sum (F : Z -> Z) (k : nat) :
  fold_right Z.add 0 (map F (arange (Z.of_nat k + 1)))
  = partial_sum (fun j => F (Z.of_nat j)) k.
Proof.
  rewrite arange_succ, map_map.
  induction k as [|k IH]; [simpl; apply Z.add_0_r|].
  rewrite seq_S, map_app, fold_right_app. cbn [map fold_right Nat.add partial_sum].
  rewrite <- IH. generalize (seq 0 (S k)). intros l.
  induction l as [|j l IHl]; cbn [fold_right map]; lia.
Qed.

Lemma fold_min_running_min (F : Z -> Z) (k : nat) :
  fold_right Z.min (F 0) (map F (arange (Z.of_nat k + 1)))
  = running_min (fun j => F (Z.of_nat j)) k.
Proof.
  rewrite arange_succ, map_map.
  induction k as [|k IH]; [simpl; apply Z.min_id|].
  rewrite seq_S, map_app, fold_right_app. cbn [map fold_right Nat.add running_min].
  rewrite <- IH. generalize (seq 0 (S k)). intros l.
  induction l as [|j l IHl]; cbn [fold_right map]; lia.
Qed.

Section ForwardLine.

Variable im : ndarray Z.
Variable a : nat.
Variable x : index.
Hypothesis Ha : (a < length (shape im))%nat.
Hypothesis Hx : in_bounds x (shape im) = true.
Hypothesis Hnonneg : forall y, 0 <= item im y.

Let n := axis_get (shape im) a.
Let pt (k : Z) : index := axis_set x a k.
Let line (j : nat) : Z := item im (pt (Z.of_nat j)).
Let posf (v : Z) : Z := if v >? 0 then 1 else 0.
Let A := map_nd posf im.
Let b := fromfunction (shape A) (fun y =>
           fold_right Z.add 0
             (map (fun k => item A (axis_set y a k)) (arange (axis_get y a + 1)))).
Let G := zip_nd Z.mul b (map_nd (fun v => if v =? 0 then 1 else 0) im).
Let c := diff G a.
Let d := minimum_accumulate c a.
Let e := pad_before d a.

Lemma pt_in_bounds k : 0 <= k < n -> in_bounds (pt k) (shape im) = true.
Proof.
  intros Hk. unfold pt. rewrite in_bounds_axis_line by assumption.
  fold n. apply andb_true_iff. split; [apply Z.leb_le | apply Z.ltb_lt]; lia.
Qed.

Lemma pt_get k : axis_get (pt k) a = k.
Proof.
  unfold pt. apply axis_get_set. rewrite (in_bounds_length _ _ Hx). exact Ha.
Qed.

Lemma pt_set k k' : axis_set (pt k) a k' = pt k'.
Proof. unfold pt. apply axis_set_set. Qed.

Lemma n_pos : 0 <= axis_get x a < n.
Proof. apply axis_get_bounds; assumption. Qed.

Lemma item_A k : 0 <= k < n -> item A (pt k) = posf (item im (pt k)).
Proof. intros Hk. unfold A. apply item_map_nd. apply pt_in_bounds, Hk. Qed.

Lemma item_b (j : nat) :
  Z.of_nat j < n -> item b (pt (Z.of_nat j)) = partial_sum (fun i => posf (line i)) j.
Proof.
  intros Hj. unfold b. rewrite item_fromfunction by (apply pt_in_bounds; lia).
  rewrite pt_get.
  etransitivity; [|apply (fold_add_partial_sum (fun k => posf (item im (pt k))))].
  f_equal. apply map_ext_in. intros k Hk. apply In_arange in Hk.
  rewrite pt_set. apply item_A. lia.
Qed.

Lemma item_G (j : nat) :
  Z.of_nat j < n ->
  item G (pt (Z.of_nat j))
  = partial_sum (fun i => posf (line i)) j * (if line j =? 0 then 1 else 0).
Proof.
  intros Hj. unfold G. rewrite item_zip_nd by (apply pt_in_bounds; lia).
  rewrite item_b by exact Hj. rewrite item_map_nd by (apply pt_in_bounds; lia).
  reflexivity.
Qed.

Let gseq (j : nat) : Z :=
  partial_sum (fun i => posf (line i)) j * (if line j =? 0 then 1 else 0).

Lemma shape_c : shape c = axis_set (shape im) a (n - 1).
Proof.
  unfold c, diff. simpl. fold n. pose proof n_pos. f_equal. lia.
Qed.

Lemma item_c (j : nat) :
  Z.of_nat j < n - 1 -> item c (pt (Z.of_nat j)) = gseq (S j) - gseq j.
Proof.
  intros Hj.
  assert (Hb : in_bounds (pt (Z.of_nat j)) (shape c) = true).
  { rewrite shape_c. unfold pt. rewrite in_bounds_axis_set by assumption.
    apply andb_true_iff. split; [apply Z.leb_le | apply Z.ltb_lt]; lia. }
  unfold c, diff in *. rewrite item_fromfunction by exact Hb.
  rewrite pt_get, pt_set. replace (Z.of_nat j + 1) with (Z.of_nat (S j)) by lia.
  rewrite !item_G by lia. reflexivity.
Qed.

Let cseq (j : nat) : Z := gseq (S j) - gseq j.

Lemma item_d (j : nat) :
  Z.of_nat j < n - 1 -> item d (pt (Z.of_nat j)) = running_min cseq j.
Proof.
  intros Hj.
  assert (Hb : in_bounds (pt (Z.of_nat j)) (shape c) = true).
  { rewrite shape_c. unfold pt. rewrite in_bounds_axis_set by assumption.
    apply andb_true_iff. split; [apply Z.leb_le | apply Z.ltb_lt]; lia. }
  unfold d, minimum_accumulate. rewrite item_fromfunction by exact Hb.
  rewrite pt_get, pt_set.
  assert (Hmap : map (fun k => item c (axis_set (pt (Z.of_nat j)) a k))
                   (arange (Z.of_nat j + 1))
                 = map (fun k => cseq (Z.to_nat k)) (arange (Z.of_nat j + 1))).
  { apply map_ext_in. intros k Hk. apply In_arange in Hk. rewrite pt_set.
    rewrite <- (Z2Nat.id k) at 1 by lia. apply item_c. lia. }
  rewrite Hmap.
  replace (item c (pt 0)) with (cseq (Z.to_nat 0)) by (symmetry; apply (item_c 0); lia).
  rewrite (fold_min_running_min (fun k => cseq (Z.to_nat k))).
  clear. induction j as [|j IH]; simpl; [reflexivity|].
  rewrite IH. f_equal. f_equal. lia.
Qed.

Lemma shape_e : shape e = shape im.
Proof.
  unfold e, pad_before, d, minimum_accumulate. cbn [shape fromfunction].
  rewrite shape_c. rewrite axis_set_set, axis_get_set by exact Ha.
  replace (n - 1 + 1) with n by lia. apply axis_set_get.
Qed.

Lemma item_e (j : nat) :
  Z.of_nat j < n ->
  item e (pt (Z.of_nat j)) = match j with O => 0 | S j' => running_min cseq j' end.
Proof.
  intros Hj.
  assert (Hb : in_bounds (pt (Z.of_nat j)) (shape e) = true).
  { rewrite shape_e. apply pt_in_bounds. lia. }
  pose proof shape_e as Hs. unfold e, pad_before in *.
  rewrite item_fromfunction by exact Hb. rewrite pt_get, pt_set.
  destruct j as [|j]; [reflexivity|].
  destruct (Z.eqb_spec (Z.of_nat (S j)) 0) as [E|_]; [lia|].
  replace (Z.of_nat (S j) - 1) with (Z.of_nat j) by lia.
  apply item_d. lia.
Qed.

Lemma forward_item :
  item (zip_nd Z.mul im (zip_nd Z.add b e)) x
  = item im x * leading_run (line_back im x a).
Proof.
  pose proof n_pos as Hn.
  set (i := Z.to_nat (axis_get x a)).
  assert (Hpt : pt (Z.of_nat i) = x).
  { unfold pt, i. rewrite Z2Nat.id by lia. apply axis_set_get. }
  rewrite item_zip_nd by exact Hx.
  assert (HbA : in_bounds x (shape b) = true) by exact Hx.
  rewrite item_zip_nd by exact HbA.
  rewrite <- Hpt at 2 3. rewrite item_b, item_e by (unfold i; lia).
  assert (Hline : item im x = line i) by (unfold line; rewrite Hpt; reflexivity).
  rewrite Hline.
  assert (Hback : line_back im x a = map line (rev (seq 0 (S i)))).
  { unfold line_back. replace (axis_get x a + 1) with (Z.of_nat i + 1) by (unfold i; lia).
    rewrite arange_succ, <- map_rev, map_map. reflexivity. }
  rewrite Hback.
  apply (forward_value line). intros j. apply Hnonneg.
Qed.

End ForwardLine.

Lemma check_axis_ok {A : Type} (im : ndarray A) (a : nat) :
  (a < length (shape im))%nat -> check_axis im a = Ok tt.
Proof.
  intros Ha. unfold check_axis, ndim.
  destruct (Z.ltb_spec (Z.of_nat a) (Z.of_nat (length (shape im)))); [reflexivity|lia].
Qed.

Lemma check_axis_bad {A : Type} (im : ndarray A) (a : nat) :
  (length (shape im) <= a)%nat ->
  check_axis im a = Raise (AxisError "axis is out of bounds for array").
Proof.
  intros Ha. unfold check_axis, ndim.
  destruct (Z.ltb_spec (Z.of_nat a) (Z.of_nat (length (shape im)))); [lia|reflexivity].
Qed.

Lemma dtl_else_forward (im : ndarray Z) (a : nat) :
  (a < length (shape im))%nat ->
  (length (shape im) <= 3)%nat ->
  (forall y, 0 <= item im y) ->
  exists out,
    distance_transform_lin_else im a = Ok out
    /\ shape out = shape im
    /\ forall x, in_bounds x (shape im) = true ->
         item out x = item im x * leading_run (line_back im x a).
Proof.
  intros Ha Hr Hn. unfold distance_transform_lin_else, cumsum.
  rewrite check_axis_ok by exact Ha. cbn [bind].
  assert (Hcase : a = 0%nat /\ ndim im = 1 \/ ndim im = 2 \/ ndim im = 3).
  { unfold ndim. destruct (shape im) as [|n1 [|n2 [|n3 [|n4 s]]]]; simpl in *; lia. }
  destruct Hcase as [[-> H1]|[H2|H3]].
  - rewrite H1. cbn [Z.eqb bind Pos.eqb]. eexists. split; [reflexivity|].
    split; [reflexivity|]. intros x Hx. apply forward_item; assumption.
  - rewrite H2. cbn [Z.eqb bind Pos.eqb]. eexists. split; [reflexivity|].
    split; [reflexivity|]. intros x Hx. apply forward_item; assumption.
  - rewrite H3. cbn [Z.eqb bind Pos.eqb]. eexists. split; [reflexivity|].
    split; [reflexivity|]. intros x Hx. apply forward_item; assumption.
Qed.

Lemma map_rev_arange (F : Z -> Z) (m : nat) :
  map F (rev (arange (Z.of_nat m)))
  = map (fun k => F (Z.of_nat m - 1 - k)) (arange (Z.of_nat m)).
Proof.
  unfold arange. rewrite !Nat2Z.id.
  induction m as [|m IH]; [reflexivity|].
  rewrite seq_S at 1. rewrite map_app, rev_app_distr. cbn [map rev app Nat.add].
  rewrite IH. cbn [seq map]. f_equal; [f_equal; lia|].
  rewrite <- seq_shift, !map_map. apply map_ext. intros j. f_equal. lia.
Qed.

Lemma flip_ok (im : ndarray Z) (a : nat) :
  (a < length (shape im))%nat ->
  flip im a = Ok (fromfunction (shape im) (fun x =>
                    item im (axis_set x a (axis_get (shape im) a - 1 - axis_get x a)))).
Proof. intros Ha. unfold flip. rewrite check_axis_ok by exact Ha. reflexivity. Qed.

Lemma dtl_backward_item (im out' : ndarray Z) (a : nat) (x : index) :
  (a < length (shape im))%nat ->
  in_bounds x (shape im) = true ->
  let n := axis_get (shape im) a in
  let im' := fromfunction (shape im) (fun y => item im (axis_set y a (n - 1 - axis_get y a))) in
  shape out' = shape im ->
  (forall y, in_bounds y (shape im) = true ->
             item out' y = item im' y * leading_run (line_back im' y a)) ->
  item (fromfunction (shape out') (fun y =>
          item out' (axis_set y a (axis_get (shape out') a - 1 - axis_get y a)))) x
  = item im x * leading_run (line_forth im x a).
Proof.
  intros Ha Hx n im' Hsh Hout.
  pose proof (axis_get_bounds x (shape im) a Hx Ha) as Hb. fold n in Hb.
  assert (Hlen : (a < length x)%nat) by (rewrite (in_bounds_length _ _ Hx); exact Ha).
  rewrite Hsh. rewrite item_fromfunction by exact Hx. fold n.
  set (fx := axis_set x a (n - 1 - axis_get x a)).
  assert (Hfx : in_bounds fx (shape im) = true).
  { unfold fx. rewrite in_bounds_axis_line by assumption. fold n.
    apply andb_true_iff. split; [apply Z.leb_le | apply Z.ltb_lt]; lia. }
  assert (Hget : axis_get fx a = n - 1 - axis_get x a).
  { unfold fx. apply axis_get_set. exact Hlen. }
  rewrite (Hout fx Hfx).
  assert (Him : forall k, 0 <= k < n ->
                 item im' (axis_set x a k) = item im (axis_set x a (n - 1 - k))).
  { intros k Hk. unfold im'. rewrite item_fromfunction.
    - rewrite axis_set_set, axis_get_set by exact Hlen. reflexivity.
    - rewrite in_bounds_axis_line by assumption. fold n.
      apply andb_true_iff. split; [apply Z.leb_le | apply Z.ltb_lt]; lia. }
  f_equal.
  - unfold fx. rewrite Him by lia.
    replace (n - 1 - (n - 1 - axis_get x a)) with (axis_get x a) by lia.
    rewrite axis_set_get. reflexivity.
  - f_equal. unfold line_back, line_forth. rewrite Hget. fold n.
    replace (n - 1 - axis_get x a + 1) with (Z.of_nat (Z.to_nat (n - axis_get x a))) by lia.
    rewrite (map_rev_arange (fun k => item im' (axis_set fx a k))).
    rewrite Z2Nat.id by lia.
    apply map_ext_in. intros k Hk. apply In_arange in Hk.
    unfold fx. rewrite axis_set_set. rewrite Him by lia. f_equal. f_equal. lia.
Qed.

Lemma item_nonneg_of_data (im : ndarray Z) :
  Forall (fun v => 0 <= v) (data im) -> forall y, 0 <= item im y.
Proof.
  intros H y. unfold item. destruct (in_bounds y (shape im)); [|reflexivity].
  destruct (nth_in_or_default (Z.to_nat (ravel_multi_index y (shape im))) (data im) fill)
    as [Hin | ->]; [|reflexivity].
  rewrite Forall_forall in H. apply H, Hin.
Qed.

Lemma small_values_of_data (im : ndarray Z) (bound : Z) :
  0 < bound ->
  Forall (fun v => 0 <= v /\ v * bound < 2 ^ 31) (data im) ->
  forall y, 0 <= item im y /\ item im y * bound < 2 ^ 31.
Proof.
  intros Hb H y. unfold item. destruct (in_bounds y (shape im)); [|split; [reflexivity | cbn; lia]].
  destruct (nth_in_or_default (Z.to_nat (ravel_multi_index y (shape im))) (data im) fill)
    as [Hin | ->]; [|split; [reflexivity | cbn; lia]].
  rewrite Forall_forall in H. apply H, Hin.
Qed.

(** The values of the three modes, in exact integers. *)
Lemma dtl_forward_values (im : ndarray Z) (axis : nat) :
  (axis < length (shape im) <= 3)%nat ->
  (forall y, 0 <= item im y) ->
  exists out,
    distance_transform_lin im axis "forward" = Ok out
    /\ shape out = shape im
    /\ forall x, in_bounds x (shape im) = true ->
         item out x = item im x * leading_run (line_back im x axis).
Proof.
  intros [Ha Hr] Hn. apply dtl_else_forward; assumption.
Qed.

Lemma dtl_backward_values (im : ndarray Z) (axis : nat) (mode : string) :
  (axis < length (shape im) <= 3)%nat ->
  (forall y, 0 <= item im y) ->
  mode = "backward"%string \/ mode = "reverse"%string ->
  exists out,
    distance_transform_lin im axis mode = Ok out
    /\ shape out = shape im
    /\ forall x, in_bounds x (shape im) = true ->
         item out x = item im x * leading_run (line_forth im x axis).
Proof.
  intros [Ha Hr] Hn Hm.
  assert (Hrun : distance_transform_lin im axis mode
                 = (im1 <- flip im axis ;;
                    im2 <- distance_transform_lin_else im1 axis ;;
                    flip im2 axis)).
  { destruct Hm as [-> | ->]; reflexivity. }
  rewrite Hrun. rewrite flip_ok by exact Ha. cbn [bind].
  set (im' := fromfunction (shape im) _).
  destruct (dtl_else_forward im' axis) as [out' [Hout' [Hsh' Hitem']]].
  - exact Ha.
  - exact Hr.
  - intros y. unfold im'. destruct (in_bounds y (shape im)) eqn:Hy.
    + rewrite item_fromfunction by exact Hy. apply Hn.
    + rewrite item_out_of_bounds by exact Hy. reflexivity.
  - rewrite Hout'. cbn [bind]. change (shape im') with (shape im) in Hsh'.
    rewrite flip_ok by (rewrite Hsh'; exact Ha).
    eexists. split; [reflexivity|]. split; [exact Hsh'|].
    intros x Hx. apply (dtl_backward_item im out' axis x Ha Hx Hsh'). exact Hitem'.
Qed.

Lemma leading_run_nonneg (l : list Z) : 0 <= leading_run l.
Proof. induction l as [|v l IH]; cbn [leading_run]; [lia|]. destruct (v >? 0); lia. Qed.

Lemma dtl_both_values (im : ndarray Z) (axis : nat) :
  (axis < length (shape im) <= 3)%nat ->
  (forall y, 0 <= item im y) ->
  exists out,
    distance_transform_lin im axis "both" = Ok out
    /\ shape out = shape im
    /\ forall x, in_bounds x (shape im) = true ->
         item out x
         = item im x * Z.min (leading_run (line_back im x axis))
                             (leading_run (line_forth im x axis)).
Proof.
  intros Hr Hn.
  destruct (dtl_forward_values im axis Hr Hn) as [f [Hf [Hsf Hif]]].
  destruct (dtl_backward_values im axis "backward" Hr Hn (or_introl eq_refl))
    as [b [Hb [Hsb Hib]]].
  assert (Hrun : distance_transform_lin im axis "both"
                 = (im_f <- distance_transform_lin_else im axis ;;
                    im_b <- (im1 <- flip im axis ;;
                             im2 <- distance_transform_lin_else im1 axis ;;
                             flip im2 axis) ;;
                    Ok (minimum im_f im_b))) by reflexivity.
  rewrite Hrun.
  change (distance_transform_lin_else im axis) with (distance_transform_lin im axis "forward").
  rewrite Hf. cbn [bind].
  change (im1 <- flip im axis ;; im2 <- distance_transform_lin_else im1 axis ;; flip im2 axis)
    with (distance_transform_lin im axis "backward").
  rewrite Hb. cbn [bind].
  eexists. split; [reflexivity|]. split; [exact Hsf|].
  intros x Hx. unfold minimum. rewrite item_zip_nd by (rewrite Hsf; exact Hx).
  rewrite (Hif x Hx), (Hib x Hx).
  apply Z.mul_min_distr_nonneg_l. apply Hn.
Qed.

(** The theorems below take the values of the image to be non-negative
    integers whose product with the length of the axis stays below 2^31: the
    product of line 73 is then exact in every integer type that numpy may
    give it, and the integers of the model are what the code computes. *)

(** X1: on an image of one, two or three dimensions whose values are
    non-negative integers (small enough for their product with the length of
    the axis to stay below 2^31), mode 'forward' returns an image of the same
    shape in which every voxel holds its own value times the number of
    consecutive positive voxels that end at it, counted along the axis
    towards index 0. *)
Theorem distance_transform_lin_forward (im : ndarray Z) (axis : nat) :
  (axis < length (shape im) <= 3)%nat ->
  (forall y, 0 <= item im y /\ item im y * axis_get (shape im) axis < 2 ^ 31) ->
  exists out,
    distance_transform_lin im axis "forward" = Ok out
    /\ shape out = shape im
    /\ forall x, in_bounds x (shape im) = true ->
         item out x = item im x * leading_run (line_back im x axis).
Proof.
  intros Hr Hn. apply dtl_forward_values; [exact Hr|]. intros y. apply Hn.
Qed.

Lemma distance_transform_lin_forward_witness :
  exists out,
    distance_transform_lin lin_example 0 "forward" = Ok out
    /\ shape out = shape lin_example
    /\ forall x, in_bounds x (shape lin_example) = true ->
         item out x = item lin_example x * leading_run (line_back lin_example x 0).
Proof.
  apply distance_transform_lin_forward.
  - simpl. lia.
  - apply small_values_of_data; [reflexivity|].
    repeat (apply Forall_cons; [vm_compute; split; [discriminate | reflexivity]|]).
    apply Forall_nil.
Defined.

(** X2: under the same conditions the modes 'backward' and 'reverse' return
    at every voxel its value times the number of consecutive positive voxels
    that start at it, counted along the axis towards the far end. *)
Theorem distance_transform_lin_backward (im : ndarray Z) (axis : nat) (mode : string) :
  (axis < length (shape im) <= 3)%nat ->
  (forall y, 0 <= item im y /\ item im y * axis_get (shape im) axis < 2 ^ 31) ->
  mode = "backward"%string \/ mode = "reverse"%string ->
  exists out,
    distance_transform_lin im axis mode = Ok out
    /\ shape out = shape im
    /\ forall x, in_bounds x (shape im) = true ->
         item out x = item im x * leading_run (line_forth im x axis).
Proof.
  intros Hr Hn Hm. apply dtl_backward_values; [exact Hr | | exact Hm]. intros y. apply Hn.
Qed.

Lemma distance_transform_lin_backward_witness :
  exists out,
    distance_transform_lin lin_example 0 "reverse" = Ok out
    /\ shape out = shape lin_example
    /\ forall x, in_bounds x (shape lin_example) = true ->
         item out x = item lin_example x * leading_run (line_forth lin_example x 0).
Proof.
  apply distance_transform_lin_backward.
  - simpl. lia.
  - apply small_values_of_data; [reflexivity|].
    repeat (apply Forall_cons; [vm_compute; split; [discriminate | reflexivity]|]).
    apply Forall_nil.
  - right. reflexivity.
Defined.

(** X3: under the same conditions mode 'both' returns at every voxel its
    value times the smaller of the two run lengths, the one towards index 0
    and the one towards the far end of the axis. *)
Theorem distance_transform_lin_both (im : ndarray Z) (axis : nat) :
  (axis < length (shape im) <= 3)%nat ->
  (forall y, 0 <= item im y /\ item im y * axis_get (shape im) axis < 2 ^ 31) ->
  exists out,
    distance_transform_lin im axis "both" = Ok out
    /\ shape out = shape im
    /\ forall x, in_bounds x (shape im) = true ->
         item out x
         = item im x * Z.min (leading_run (line_back im x axis))
                             (leading_run (line_forth im x axis)).
Proof.
  intros Hr Hn. apply dtl_both_values; [exact Hr|]. intros y. apply Hn.
Qed.

Lemma distance_transform_lin_both_witness :
  exists out,
    distance_transform_lin lin_example 0 "both" = Ok out
    /\ shape out = shape lin_example
    /\ forall x, in_bounds x (shape lin_example) = true ->
         item out x
         = item lin_example x * Z.min (leading_run (line_back lin_example x 0))
                                      (leading_run (line_forth lin_example x 0)).
Proof.
  apply distance_transform_lin_both.
  - simpl. lia.
  - apply small_values_of_data; [reflexivity|].
    repeat (apply Forall_cons; [vm_compute; split; [discriminate | reflexivity]|]).
    apply Forall_nil.
Defined.

(** X4: whatever the mode, the function raises when the axis is not an axis
    of the image or when the image has more than three dimensions. *)
Theorem distance_transform_lin_unsupported (im : ndarray Z) (axis : nat) (mode : string) :
  (length (shape im) <= axis)%nat \/ (3 < length (shape im))%nat ->
  raises (distance_transform_lin im axis mode).
Proof.
  intros H.
  assert (Helse : forall im0 : ndarray Z, shape im0 = shape im ->
                    raises (distance_transform_lin_else im0 axis)).
  { intros im0 Hs. unfold distance_transform_lin_else, cumsum.
    destruct (Nat.lt_ge_cases axis (length (shape im))) as [Ha|Ha].
    - rewrite check_axis_ok by (cbn [shape map_nd fromfunction]; rewrite Hs; exact Ha).
      cbn [bind].
      assert (Hnd : 3 < ndim im0) by (unfold ndim; rewrite Hs; lia).
      destruct (Z.eqb_spec (ndim im0) 1); [lia|].
      destruct (Z.eqb_spec (ndim im0) 2); [lia|].
      destruct (Z.eqb_spec (ndim im0) 3); [lia|].
      eexists. reflexivity.
    - rewrite check_axis_bad by (cbn [shape map_nd fromfunction]; rewrite Hs; exact Ha).
      eexists. reflexivity. }
  assert (Hflip : forall im0 : ndarray Z, shape im0 = shape im ->
            (exists im1, flip im0 axis = Ok im1 /\ shape im1 = shape im)
            \/ raises (flip im0 axis)).
  { intros im0 Hs. destruct (Nat.lt_ge_cases axis (length (shape im))) as [Ha|Ha].
    - left. rewrite flip_ok by (rewrite Hs; exact Ha). eexists. split; [reflexivity|exact Hs].
    - right. unfold flip. rewrite check_axis_bad by (rewrite Hs; exact Ha).
      eexists. reflexivity. }
  assert (Hback : raises (im1 <- flip im axis ;;
                          im2 <- distance_transform_lin_else im1 axis ;;
                          flip im2 axis)).
  { destruct (Hflip im eq_refl) as [[im1 [-> Hs1]]|[e ->]]; [|eexists; reflexivity].
    cbn [bind]. destruct (Helse im1 Hs1) as [e ->]. eexists. reflexivity. }
  unfold distance_transform_lin. cbn [distance_transform_lin_rec].
  destruct (mode_in mode ["backward"; "reverse"]%string).
  - exact Hback.
  - destruct (mode_in mode ["both"]%string).
    + change (mode_in "forward" ["backward"; "reverse"]%string) with false.
      change (mode_in "forward" ["both"]%string) with false. cbn iota.
      destruct (Helse im eq_refl) as [e ->]. eexists. reflexivity.
    + apply Helse. reflexivity.
Qed.

Lemma distance_transform_lin_unsupported_witness :
  raises (distance_transform_lin (full [2; 1; 1; 1] 1) 0 "both").
Proof.
  apply distance_transform_lin_unsupported. right. simpl. lia.
Defined.

(** ** find_dt_artifacts *)

Lemma leading_run_ones (l : list Z) :
  Forall (fun v => v = 1) l -> leading_run l = Z.of_nat (length l).
Proof.
  induction 1 as [|v l Hv Hl IH]; [reflexivity|].
  cbn [leading_run length]. rewrite Hv, IH.
  change (1 >? 0) with true. cbv iota. lia.
Qed.

Lemma dtl_both_ones (sh : list Z) (a : nat) :
  (a < length sh <= 3)%nat ->
  exists out,
    distance_transform_lin (full sh 1) a "both" = Ok out
    /\ shape out = sh
    /\ forall x, in_bounds x sh = true ->
         item out x = Z.min (axis_get x a + 1) (axis_get sh a - axis_get x a).
Proof.
  intros Hr.
  assert (Hone : forall y, in_bounds y sh = true -> item (full sh 1) y = 1).
  { intros y Hy. apply (item_full sh 1 y Hy). }
  destruct (dtl_both_values (full sh 1) a) as [out [Hout [Hsh Hitem]]].
  - exact Hr.
  - intros y. destruct (in_bounds y sh) eqn:Hy.
    + rewrite Hone by exact Hy. lia.
    + rewrite item_out_of_bounds by exact Hy. reflexivity.
  - exists out. split; [exact Hout|]. split; [exact Hsh|].
    intros x Hx. change (shape (full sh 1)) with sh in Hitem.
    rewrite (Hitem x Hx), (Hone x Hx), Z.mul_1_l.
    destruct Hr as [Ha Hr].
    pose proof (axis_get_bounds x sh a Hx Ha) as Hb.
    f_equal.
    + rewrite leading_run_ones.
      * unfold line_back. rewrite length_map, length_rev. unfold arange.
        rewrite length_map, length_seq. lia.
      * unfold line_back. apply Forall_forall. intros v Hv.
        apply in_map_iff in Hv. destruct Hv as [k [<- Hk]].
        apply in_rev, In_arange in Hk. apply Hone.
        rewrite in_bounds_axis_line by assumption.
        apply andb_true_iff. split; [apply Z.leb_le | apply Z.ltb_lt]; lia.
    + rewrite leading_run_ones.
      * unfold line_forth. rewrite length_map. unfold arange.
        rewrite length_map, length_seq. change (shape (full sh 1)) with sh. lia.
      * unfold line_forth. apply Forall_forall. intros v Hv.
        apply in_map_iff in Hv. destruct Hv as [k [<- Hk]].
        change (shape (full sh 1)) with sh in Hk.
        apply In_arange in Hk. apply Hone.
        rewrite in_bounds_axis_line by assumption.
        apply andb_true_iff. split; [apply Z.leb_le | apply Z.ltb_lt]; lia.
Qed.

Lemma artifacts_loop (sh : list Z) (axes : list nat) :
  (length sh <= 3)%nat ->
  (forall a, In a axes -> (a < length sh)%nat) ->
  forall temp : ndarray (option Z),
  shape temp = sh ->
  exists temp',
    for_each (fun temp ax =>
                dt_lin <- distance_transform_lin (full (shape temp) 1) ax "both" ;;
                Ok (zip_nd minimum_inf temp dt_lin)) axes temp = Ok temp'
    /\ shape temp' = sh
    /\ forall x, in_bounds x sh = true ->
         item temp' x = fold_left minimum_inf (map (axis_edge sh x) axes) (item temp x).
Proof.
  intros Hr. induction axes as [|a axes IH]; intros Hax temp Hsh.
  - exists temp. split; [reflexivity|]. split; [exact Hsh|]. reflexivity.
  - cbn [for_each]. rewrite Hsh.
    destruct (dtl_both_ones sh a) as [out [Hout [Hso Hitem]]].
    { split; [apply Hax; left; reflexivity | exact Hr]. }
    rewrite Hout. cbn [bind].
    destruct (IH (fun a' H => Hax a' (or_intror H)) (zip_nd minimum_inf temp out))
      as [temp' [Hrun [Hs' Hit']]].
    { exact Hsh. }
    exists temp'. split; [exact Hrun|]. split; [exact Hs'|].
    intros x Hx. rewrite (Hit' x Hx). cbn [map fold_left].
    rewrite item_zip_nd by (rewrite Hsh; exact Hx). rewrite (Hitem x Hx). reflexivity.
Qed.

Lemma fold_minimum_inf_spec (l : list Z) (t : option Z) :
  l <> [] ->
  exists m, fold_left minimum_inf l t = Some m
            /\ (forall v, In v l -> m <= v)
            /\ (match t with Some t' => m <= t' | None => True end)
            /\ (In m l \/ t = Some m).
Proof.
  revert t. induction l as [|v l IH]; intros t Hne; [contradiction Hne; reflexivity|].
  cbn [fold_left]. destruct l as [|w l].
  - cbn [fold_left]. destruct t as [t'|]; cbn [minimum_inf].
    + exists (Z.min t' v). split; [reflexivity|]. split; [intros u [<-|[]]; lia|].
      split; [lia|]. destruct (Z.min_spec t' v) as [[_ ->]|[_ ->]]; [right|left; left]; reflexivity.
    + exists v. split; [reflexivity|]. split; [intros u [<-|[]]; lia|].
      split; [exact I|]. left. left. reflexivity.
  - destruct (IH (minimum_inf t v) ltac:(discriminate)) as [m [Hm [Hall [Ht Hin]]]].
    exists m. split; [exact Hm|].
    assert (Hmv : m <= v /\ match t with Some t' => m <= t' | None => True end).
    { destruct t as [t'|]; cbn [minimum_inf] in Ht; split; try exact I; lia. }
    split; [intros u [<-|Hu]; [tauto | apply Hall, Hu]|]. split; [tauto|].
    destruct Hin as [Hin|Hin]; [left; right; exact Hin|].
    destruct t as [t'|]; cbn [minimum_inf] in Hin; injection Hin as Hin.
    + destruct (Z.min_spec t' v) as [[_ E]|[_ E]]; rewrite E in Hin; subst;
        [right; reflexivity | left; left; reflexivity].
    + left. left. exact Hin.
Qed.

(** X5: for a distance transform of one, two or three dimensions,
    find_dt_artifacts returns an image of the same shape whose value at a
    voxel is the distance value minus the distance [m] to the nearest face of
    the image, or 0 when that is negative; [m] is the smallest, over the axes,
    of the index plus one and the number of voxels from the index to the end
    of the axis. *)
Theorem find_dt_artifacts_spec (dt : ndarray Q) :
  (1 <= length (shape dt) <= 3)%nat ->
  exists out,
    find_dt_artifacts dt = Ok out
    /\ shape out = shape dt
    /\ forall x, in_bounds x (shape dt) = true ->
       exists m,
         (forall a, (a < length (shape dt))%nat ->
                    m <= axis_get x a + 1 /\ m <= axis_get (shape dt) a - axis_get x a)
         /\ (exists a, (a < length (shape dt))%nat /\
                       (m = axis_get x a + 1 \/ m = axis_get (shape dt) a - axis_get x a))
         /\ item out x = Qmaxb 0 (item dt x - inject_Z m).
Proof.
  intros [H1 H3]. unfold find_dt_artifacts.
  destruct (artifacts_loop (shape dt) (seq 0 (length (shape dt))) H3) with
    (temp := full (shape dt) (@None Z)) as [temp' [Hrun [Hs Hit]]].
  - intros a Ha. apply in_seq in Ha. lia.
  - reflexivity.
  - rewrite Hrun. cbn [bind]. eexists. split; [reflexivity|]. split; [reflexivity|].
    intros x Hx. rewrite item_zip_nd by exact Hx. rewrite (Hit x Hx).
    rewrite (item_full (shape dt) (@None Z) x Hx).
    destruct (fold_minimum_inf_spec (map (axis_edge (shape dt) x) (seq 0 (length (shape dt))))
                None) as [m [Hm [Hall [_ Hin]]]].
    { destruct (length (shape dt)); [lia|discriminate]. }
    rewrite Hm. exists m. split; [|split; [|reflexivity]].
    + intros a Ha. specialize (Hall (axis_edge (shape dt) x a)).
      assert (In (axis_edge (shape dt) x a)
                 (map (axis_edge (shape dt) x) (seq 0 (length (shape dt))))).
      { apply in_map. apply in_seq. lia. }
      specialize (Hall H). unfold axis_edge in Hall. lia.
    + destruct Hin as [Hin|Hin]; [|discriminate].
      apply in_map_iff in Hin. destruct Hin as [a [Ha Hina]]. apply in_seq in Hina.
      exists a. split; [lia|]. unfold axis_edge in Ha.
      destruct (Z.min_spec (axis_get x a + 1) (axis_get (shape dt) a - axis_get x a))
        as [[_ E]|[_ E]]; rewrite E in Ha; [left|right]; symmetry; exact Ha.
Qed.

Lemma find_dt_artifacts_spec_witness :
  exists out,
    find_dt_artifacts snow_dt = Ok out
    /\ shape out = shape snow_dt
    /\ forall x, in_bounds x (shape snow_dt) = true ->
       exists m,
         (forall a, (a < length (shape snow_dt))%nat ->
                    m <= axis_get x a + 1 /\ m <= axis_get (shape snow_dt) a - axis_get x a)
         /\ (exists a, (a < length (shape snow_dt))%nat /\
                       (m = axis_get x a + 1 \/ m = axis_get (shape snow_dt) a - axis_get x a))
         /\ item out x = Qmaxb 0 (item snow_dt x - inject_Z m).
Proof.
  apply find_dt_artifacts_spec. simpl. lia.
Defined.

(** ** nphase_border: the number of different values around a voxel *)

From Stdlib Require Import Sorted Permutation.

(** ** Sorting and counting distinct values *)

Lemma insert_sorted_perm (v : Z) (l : list Z) : Permutation (v :: l) (insert_sorted v l).
Proof.
  induction l as [|h t IH]; cbn [insert_sorted]; [reflexivity|].
  destruct (v <=? h); [reflexivity|].
  rewrite perm_swap. apply perm_skip, IH.
Qed.

Lemma sort_perm (l : list Z) : Permutation l (np_sort l).
Proof.
  induction l as [|v l IH]; cbn [np_sort fold_right]; [reflexivity|].
  fold (np_sort l). rewrite <- insert_sorted_perm. apply perm_skip, IH.
Qed.

Lemma insert_sorted_sorted (v : Z) (l : list Z) :
  StronglySorted Z.le l -> StronglySorted Z.le (insert_sorted v l).
Proof.
  induction 1 as [|h t Hs IH Hall]; cbn [insert_sorted].
  - constructor; constructor.
  - destruct (Z.leb_spec v h) as [Hle|Hgt].
    + constructor; [constructor; assumption|].
      constructor; [exact Hle|].
      rewrite Forall_forall in *. intros u Hu. specialize (Hall u Hu). lia.
    + constructor; [exact IH|].
      rewrite Forall_forall in *. intros u Hu.
      apply (Permutation_in _ (Permutation_sym (insert_sorted_perm v t))) in Hu.
      destruct Hu as [<-|Hu]; [lia | apply Hall, Hu].
Qed.

Lemma sort_sorted (l : list Z) : StronglySorted Z.le (np_sort l).
Proof.
  induction l as [|v l IH]; cbn [np_sort fold_right]; [constructor|].
  apply insert_sorted_sorted, IH.
Qed.

Lemma length_sort (l : list Z) : length (np_sort l) = length l.
Proof. symmetry. apply Permutation_length, sort_perm. Qed.

Lemma count_distinct_perm (l l' : list Z) :
  Permutation l l' -> count_distinct l = count_distinct l'.
Proof.
  intros H. unfold count_distinct. f_equal. apply Permutation_length.
  apply NoDup_Permutation; try apply NoDup_nodup.
  intros v. rewrite !nodup_In. split; apply Permutation_in; [|symmetry]; exact H.
Qed.

Lemma count_changes_sorted (l : list Z) :
  StronglySorted Z.le l -> l <> [] -> 1 + count_changes l = count_distinct l.
Proof.
  induction 1 as [|a t Hs IH Hall]; intros Hne; [contradiction Hne; reflexivity|].
  destruct t as [|b t'].
  - reflexivity.
  - specialize (IH ltac:(discriminate)).
    change (count_changes (a :: b :: t'))
      with ((if b =? a then 0 else 1) + count_changes (b :: t')).
    unfold count_distinct in *.
    change (nodup Z.eq_dec (a :: b :: t'))
      with (if in_dec Z.eq_dec a (b :: t') then nodup Z.eq_dec (b :: t')
            else a :: nodup Z.eq_dec (b :: t')).
    destruct (in_dec Z.eq_dec a (b :: t')) as [Hin|Hnin].
    + assert (a = b).
      { inversion Hs as [|? ? _ Hb]; subst. rewrite Forall_forall in Hall, Hb.
        pose proof (Hall b (or_introl eq_refl)).
        destruct Hin as [->|Hin]; [reflexivity|]. specialize (Hb a Hin). lia. }
      subst b. rewrite Z.eqb_refl. lia.
    + destruct (Z.eqb_spec b a) as [->|Hba]; [contradiction Hnin; left; reflexivity|].
      cbn [length]. lia.
Qed.

Lemma fold_left_map_list {A B C : Type} (f : A -> C -> A) (g : B -> C) (l : list B) (a : A) :
  fold_left f (map g l) a = fold_left (fun a x => f a (g x)) l a.
Proof. revert a. induction l as [|x l IH]; intros a; cbn; [reflexivity | apply IH]. Qed.

Lemma fold_left_ext_list {A B : Type} (f g : A -> B -> A) (l : list B) :
  (forall a x, In x l -> f a x = g a x) -> forall a, fold_left f l a = fold_left g l a.
Proof.
  induction l as [|x l IH]; intros H a; cbn; [reflexivity|].
  rewrite (H a x (or_introl eq_refl)). apply IH. intros a' x' Hx. apply H. right. exact Hx.
Qed.

(** The changes of a list, counted by position as the loop of the source
    counts them. *)
Lemma count_changes_positions (l : list Z) (acc : Z) :
  fold_left (fun acc k => acc + (if nth k l 0 =? nth (k - 1) l 0 then 0 else 1))
            (seq 1 (length l - 1)) acc
  = acc + count_changes l.
Proof.
  revert acc. induction l as [|a l IH]; intros acc; [cbn; lia|].
  destruct l as [|b t]; [cbn; lia|].
  cbn [length]. replace (S (S (length t)) - 1)%nat with (S (length t)) by lia.
  cbn [seq fold_left]. rewrite <- seq_shift, fold_left_map_list.
  change (nth 1 (a :: b :: t) 0) with b. change (nth (1 - 1) (a :: b :: t) 0) with a.
  change (count_changes (a :: b :: t))
    with ((if b =? a then 0 else 1) + count_changes (b :: t)).
  specialize (IH (acc + (if b =? a then 0 else 1))).
  cbn [length] in IH. replace (S (length t) - 1)%nat with (length t) in IH by lia.
  rewrite Z.add_assoc, <- IH.
  apply fold_left_ext_list. intros acc' k Hk. apply in_seq in Hk.
  destruct k as [|k]; [lia|]. replace (S (S k) - 1)%nat with (S k) by lia.
  replace (S k - 1)%nat with k by lia. reflexivity.
Qed.

(** ** Arrays with one more axis at the end *)

Lemma in_bounds_app (y : index) (sh : list Z) (k n : Z) :
  in_bounds (y ++ [k]) (sh ++ [n]) = in_bounds y sh && ((0 <=? k) && (k <? n)).
Proof.
  revert sh. induction y as [|i y IH]; intros [|m sh]; cbn [in_bounds app].
  - rewrite andb_true_r. reflexivity.
  - destruct sh; cbn [app]; rewrite andb_false_r; reflexivity.
  - destruct y; cbn [app in_bounds]; rewrite ?andb_false_r; reflexivity.
  - rewrite IH. rewrite !andb_assoc. reflexivity.
Qed.

Lemma axis_set_app (y : index) (k j : Z) : axis_set (y ++ [k]) (length y) j = y ++ [j].
Proof. induction y as [|i y IH]; cbn [axis_set app length]; [reflexivity|]. rewrite IH. reflexivity. Qed.

Lemma axis_get_app (y : index) (k : Z) : axis_get (y ++ [k]) (length y) = k.
Proof. unfold axis_get. rewrite nth_middle. reflexivity. Qed.

Lemma item_set_last (stack a : ndarray Z) (j : Z) (y : index) (k : Z) :
  in_bounds (y ++ [k]) (shape stack) = true ->
  item (set_last stack j a) (y ++ [k]) = if k =? j then item a y else item stack (y ++ [k]).
Proof.
  intros H. unfold set_last. rewrite item_fromfunction by exact H.
  rewrite last_last, removelast_last. reflexivity.
Qed.

(** The stack after the loop that fills the positions [a+1 .. a+n] of the
    last axis. *)
Lemma item_stack_loop (temps : nat -> ndarray Z) (n a : nat) (st : ndarray Z)
    (y : index) (k : Z) :
  in_bounds (y ++ [k]) (shape st) = true ->
  let st' := fold_left (fun st i => set_last st (Z.of_nat i + 1) (temps i)) (seq a n) st in
  shape st' = shape st
  /\ item st' (y ++ [k])
     = if (Z.of_nat a + 1 <=? k) && (k <=? Z.of_nat a + Z.of_nat n)
       then item (temps (Z.to_nat (k - 1))) y
       else item st (y ++ [k]).
Proof.
  revert a st. induction n as [|n IH]; intros a st Hb; cbn [seq fold_left].
  - split; [reflexivity|].
    destruct (Z.leb_spec (Z.of_nat a + 1) k), (Z.leb_spec k (Z.of_nat a + Z.of_nat 0));
      try reflexivity; lia.
  - destruct (IH (S a) (set_last st (Z.of_nat a + 1) (temps a)) Hb) as [Hs Hi].
    split; [exact Hs|]. rewrite Hi. rewrite item_set_last by exact Hb.
    destruct (Z.eqb_spec k (Z.of_nat a + 1)) as [->|Hne].
    + replace (Z.to_nat (Z.of_nat a + 1 - 1)) with a by lia.
      destruct (Z.leb_spec (Z.of_nat (S a) + 1) (Z.of_nat a + 1)); [lia|].
      cbn [andb].
      destruct (Z.leb_spec (Z.of_nat a + 1) (Z.of_nat a + 1)); [|lia].
      destruct (Z.leb_spec (Z.of_nat a + 1) (Z.of_nat a + Z.of_nat (S n))); [|lia].
      reflexivity.
    + destruct (Z.leb_spec (Z.of_nat (S a) + 1) k), (Z.leb_spec (Z.of_nat a + 1) k),
        (Z.leb_spec k (Z.of_nat (S a) + Z.of_nat n)),
        (Z.leb_spec k (Z.of_nat a + Z.of_nat (S n))); try reflexivity; lia.
Qed.

Lemma item_sort_last (a : ndarray Z) (sh : list Z) (K : Z) (y : index) (k : Z) :
  shape a = sh ++ [K] ->
  in_bounds (y ++ [k]) (sh ++ [K]) = true ->
  item (sort_last a) (y ++ [k])
  = nth (Z.to_nat k) (np_sort (map (fun j => item a (y ++ [j])) (arange K))) 0.
Proof.
  intros Hs Hb. unfold sort_last. rewrite item_fromfunction by (rewrite Hs; exact Hb).
  assert (Hl : length y = length sh).
  { rewrite in_bounds_app in Hb. apply andb_true_iff in Hb. destruct Hb as [Hb _].
    apply in_bounds_length in Hb. exact Hb. }
  rewrite Hs, length_app. cbn [length]. replace (length sh + 1 - 1)%nat with (length y) by lia.
  rewrite axis_get_app. rewrite Hl at 1. rewrite axis_get_app.
  f_equal. f_equal. apply map_ext. intros j. rewrite axis_set_app. reflexivity.
Qed.

Lemma item_changes_at (stack : ndarray Z) (sh : list Z) (K k : Z) (y : index) :
  shape stack = sh ++ [K] ->
  in_bounds y sh = true ->
  item (changes_at stack k) y = negb (item stack (y ++ [k]) =? item stack (y ++ [k - 1])).
Proof.
  intros Hs Hb. unfold changes_at. rewrite Hs, removelast_last.
  rewrite item_fromfunction by exact Hb. reflexivity.
Qed.

(** The loop that adds up the changes along the last axis. *)
Lemma changes_loop (stack : ndarray Z) (sh : list Z) (K : Z) (ks : list nat) :
  shape stack = sh ++ [K] ->
  forall out : ndarray Z, shape out = sh ->
  exists out',
    for_each (fun out k =>
                Ok (zip_nd (fun v (m : bool) => v + (if m then 1 else 0)) out
                      (changes_at stack (Z.of_nat k)))) ks out = Ok out'
    /\ shape out' = sh
    /\ forall y, in_bounds y sh = true ->
         item out' y
         = fold_left (fun acc k =>
                        acc + (if item stack (y ++ [Z.of_nat k])
                                  =? item stack (y ++ [Z.of_nat k - 1]) then 0 else 1))
                     ks (item out y).
Proof.
  intros Hs. induction ks as [|k ks IH]; intros out Ho.
  - exists out. split; [reflexivity|]. split; [exact Ho|]. reflexivity.
  - cbn [for_each bind].
    destruct (IH (zip_nd (fun v (m : bool) => v + (if m then 1 else 0)) out
                    (changes_at stack (Z.of_nat k)))) as [out' [Hrun [Hso Hi]]].
    { exact Ho. }
    exists out'. split; [exact Hrun|]. split; [exact Hso|].
    intros y Hy. rewrite (Hi y Hy). cbn [fold_left]. f_equal.
    rewrite item_zip_nd by (rewrite Ho; exact Hy).
    rewrite (item_changes_at stack sh K (Z.of_nat k) y Hs Hy).
    destruct (_ =? _); reflexivity.
Qed.

Lemma map_nth_seq {A B : Type} (F : A -> B) (l : list A) (d : A) :
  map (fun i => F (nth i l d)) (seq 0 (length l)) = map F l.
Proof.
  induction l as [|v l IH]; [reflexivity|].
  cbn [length seq map nth]. f_equal. rewrite <- seq_shift, map_map. exact IH.
Qed.

Lemma item_roll (a : ndarray Z) (s : Z) (axis : nat) (x : index) :
  in_bounds x (shape a) = true ->
  item (roll a s axis) x
  = item a (axis_set x axis ((axis_get x axis - s) mod axis_get (shape a) axis)).
Proof. intros H. unfold roll. rewrite item_fromfunction by exact H. reflexivity. Qed.

Lemma pad_edge_ok (a : ndarray Z) :
  Forall (fun n => 0 < n) (shape a) ->
  pad_edge a
  = Ok (fromfunction (map (fun n => n + 2) (shape a))
          (fun x => item a (clamp_index (shape a) (index_sub x (map (fun _ => 1) x))))).
Proof.
  intros H. unfold pad_edge.
  replace (existsb (fun n => n =? 0) (shape a)) with false; [reflexivity|].
  symmetry. apply not_true_is_false. intros E. apply existsb_exists in E.
  destruct E as [n [Hn E]]. rewrite Forall_forall in H. specialize (H n Hn).
  apply Z.eqb_eq in E. lia.
Qed.

Lemma shape_stack_loop (temps : nat -> ndarray Z) (l : list nat) (st : ndarray Z) :
  shape (fold_left (fun st i => set_last st (Z.of_nat i + 1) (temps i)) l st) = shape st.
Proof. revert st. induction l as [|i l IH]; intros st; cbn [fold_left]; [reflexivity|]. rewrite IH. reflexivity. Qed.

Lemma in_bounds_app_intro (y : index) (sh : list Z) (k n : Z) :
  in_bounds y sh = true -> 0 <= k < n -> in_bounds (y ++ [k]) (sh ++ [n]) = true.
Proof.
  intros Hy Hk. rewrite in_bounds_app, Hy. cbn [andb].
  apply andb_true_iff. split; [apply Z.leb_le | apply Z.ltb_lt]; lia.
Qed.

(** ** The stack of shifted images, sorted and scanned *)

Lemma stack_core (P : ndarray Z) (sh : list Z) (temps : nat -> ndarray Z) (K : nat) :
  let stack :=
    sort_last
      (fold_left (fun st i => set_last st (Z.of_nat i + 1) (temps i)) (seq 0 K)
         (set_last (full (sh ++ [Z.of_nat K + 1]) 0) 0 P)) in
  shape stack = sh ++ [Z.of_nat K + 1]
  /\ exists out,
       for_each (fun out k =>
                   Ok (zip_nd (fun v (m : bool) => v + (if m then 1 else 0)) out
                         (changes_at stack (Z.of_nat k)))) (seq 1 K) (full sh 1) = Ok out
       /\ shape out = sh
       /\ forall y, in_bounds y sh = true ->
            item out y
            = count_distinct (item P y :: map (fun i => item (temps i) y) (seq 0 K)).
Proof.
  set (st0 := set_last (full (sh ++ [Z.of_nat K + 1]) 0) 0 P).
  set (raw := fold_left _ _ st0). intros stack.
  assert (Hsraw : shape raw = sh ++ [Z.of_nat K + 1]).
  { unfold raw. rewrite shape_stack_loop. reflexivity. }
  assert (Hraw : forall y k, in_bounds y sh = true -> 0 <= k < Z.of_nat K + 1 ->
            item raw (y ++ [k])
            = if k =? 0 then item P y else item (temps (Z.to_nat (k - 1))) y).
  { intros y k Hy Hk.
    pose proof (in_bounds_app_intro y sh k (Z.of_nat K + 1) Hy Hk) as Hb.
    destruct (item_stack_loop temps K 0 st0 y k Hb) as [_ Hi].
    fold raw in Hi. rewrite Hi.
    destruct (Z.eqb_spec k 0) as [->|Hk0].
    - cbn [Z.of_nat Z.add Z.leb Z.compare andb]. unfold st0.
      rewrite item_set_last by exact Hb. reflexivity.
    - destruct (Z.leb_spec (Z.of_nat 0 + 1) k); [|lia].
      destruct (Z.leb_spec k (Z.of_nat 0 + Z.of_nat K)); [|lia]. reflexivity. }
  assert (Hss : shape stack = sh ++ [Z.of_nat K + 1]) by exact Hsraw.
  split; [exact Hss|].
  destruct (changes_loop stack sh (Z.of_nat K + 1) (seq 1 K) Hss (full sh 1) eq_refl)
    as [out [Hrun [Hso Hi]]].
  exists out. split; [exact Hrun|]. split; [exact Hso|].
  intros y Hy. rewrite (Hi y Hy). rewrite (item_full sh 1 y Hy).
  set (L := map (fun j => item raw (y ++ [j])) (arange (Z.of_nat K + 1))).
  assert (HL : L = item P y :: map (fun i => item (temps i) y) (seq 0 K)).
  { unfold L, arange. replace (Z.to_nat (Z.of_nat K + 1)) with (S K) by lia.
    rewrite map_map. cbn [seq map]. f_equal.
    - rewrite Hraw by (try exact Hy; lia). reflexivity.
    - rewrite <- seq_shift, map_map. apply map_ext_in. intros i Hi'. apply in_seq in Hi'.
      rewrite Hraw by (try exact Hy; lia).
      destruct (Z.eqb_spec (Z.of_nat (S i)) 0); [lia|].
      f_equal. f_equal. lia. }
  rewrite <- HL. rewrite (count_distinct_perm L (np_sort L) (sort_perm L)).
  rewrite <- count_changes_sorted.
  2: apply sort_sorted.
  2: { intros E. apply (f_equal (@length Z)) in E. rewrite length_sort, HL in E. discriminate. }
  rewrite <- (count_changes_positions (np_sort L) 1).
  rewrite length_sort. replace (length L - 1)%nat with K.
  2: { rewrite HL. cbn [length]. rewrite length_map, length_seq. lia. }
  apply fold_left_ext_list. intros acc k Hk. apply in_seq in Hk. f_equal.
  unfold stack.
  rewrite (item_sort_last raw sh (Z.of_nat K + 1) y (Z.of_nat k) Hsraw)
    by (apply in_bounds_app_intro; [exact Hy | lia]).
  replace (Z.of_nat k - 1) with (Z.of_nat (k - 1)) by lia.
  rewrite (item_sort_last raw sh (Z.of_nat K + 1) y (Z.of_nat (k - 1)) Hsraw)
    by (apply in_bounds_app_intro; [exact Hy | lia]).
  rewrite !Nat2Z.id. reflexivity.
Qed.

Lemma shifts_unit_2 (diag : bool) :
  forallb (unit_shift 2) (_get_axial_shifts 2 diag) = true.
Proof. destruct diag; vm_compute; reflexivity. Qed.

Lemma shifts_unit_3 (diag : bool) :
  forallb (unit_shift 3) (_get_axial_shifts 3 diag) = true.
Proof. destruct diag; vm_compute; reflexivity. Qed.

Ltac bounds :=
  cbn [in_bounds]; rewrite ?andb_true_iff, ?Z.leb_le, ?Z.ltb_lt; repeat split; lia.

Lemma float64_exact (v : Z) : Z.abs v <= 2 ^ 53 -> float64_of_Z v = v.
Proof.
  intros H. unfold float64_of_Z. destruct (Z.leb_spec (Z.abs v) (2 ^ 53)); [reflexivity | lia].
Qed.

Lemma roll_small (a : ndarray Z) (s : Z) (axis : nat) (B : Z) :
  0 <= B -> (forall y, Z.abs (item a y) <= B) -> forall y, Z.abs (item (roll a s axis) y) <= B.
Proof.
  intros HB H y. destruct (in_bounds y (shape a)) eqn:Hy.
  - rewrite item_roll by exact Hy. apply H.
  - rewrite item_out_of_bounds by exact Hy. exact HB.
Qed.

Lemma fromfunction_small (sh : list Z) (g : index -> Z) (B : Z) :
  0 <= B -> (forall y, Z.abs (g y) <= B) -> forall y, Z.abs (item (fromfunction sh g) y) <= B.
Proof.
  intros HB H y. destruct (in_bounds y sh) eqn:Hy.
  - rewrite item_fromfunction by exact Hy. apply H.
  - rewrite item_out_of_bounds by exact Hy. exact HB.
Qed.

Lemma nphase_border_2d (im : ndarray Z) (diag : bool) (n0 n1 : Z) :
  shape im = [n0; n1] -> 0 < n0 -> 0 < n1 ->
  (forall y, Z.abs (item im y) <= 2 ^ 53) ->
  exists out,
    nphase_border im diag = Ok out
    /\ shape out = [n0; n1]
    /\ forall u v, 0 <= u < n0 -> 0 <= v < n1 ->
         item out [u; v]
         = count_distinct
             (item im [u; v]
              :: map (fun s => item im (clamp_index [n0; n1] (index_sub [u; v] s)))
                   (_get_axial_shifts 2 diag)).
Proof.
  intros Hs H0 H1 Hsmall. unfold nphase_border. rewrite Hs. cbn [length Nat.eqb orb negb].
  rewrite pad_edge_ok by (rewrite Hs; repeat constructor; assumption).
  rewrite Hs. cbn [bind map].
  set (P := fromfunction [n0 + 2; n1 + 2] _).
  assert (HP : forall y, Z.abs (item P y) <= 2 ^ 53).
  { apply fromfunction_small; [lia|]. intros y. apply Hsmall. }
  unfold _make_stack. change (shape P) with [n0 + 2; n1 + 2].
  cbn [length Z.of_nat Pos.of_succ_nat Pos.succ Z.eqb Pos.eqb axis_get nth].
  pose proof (shifts_unit_2 diag) as Hunit.
  set (shifts := _get_axial_shifts 2 diag) in *.
  set (temps := fun i : nat =>
                  map_nd float64_of_Z (roll (roll P (axis_get (nth i shifts []) 0) 0)
                                         (axis_get (nth i shifts []) 1) 1)).
  destruct (stack_core (map_nd float64_of_Z P) [n0 + 2; n1 + 2] temps (length shifts))
    as [Hss [out [Hrun [Hso Hi]]]].
  cbn [app] in Hss, Hrun. unfold temps in Hss, Hrun. cbv beta in Hss, Hrun.
  match goal with |- context [shape (sort_last ?r)] => set (stack := sort_last r) in * end.
  rewrite Hss. cbn [axis_get nth].
  replace (Z.to_nat (Z.of_nat (length shifts) + 1)) with (S (length shifts)) by lia.
  cbn [seq tl]. rewrite Hrun. cbn [bind]. rewrite Hso. cbn [axis_get nth].
  eexists. split; [reflexivity|].
  split.
  { cbn [getslice shape fromfunction slice_shape map fst snd]. f_equal; [|f_equal]; lia. }
  intros u v Hu Hv.
  rewrite item_getslice by (cbn [slice_shape map fst snd]; bounds).
  cbn [index_add slice_start map combine fst snd].
  rewrite Hi by bounds.
  f_equal. f_equal.
  - rewrite item_map_nd by (change (shape P) with [n0 + 2; n1 + 2]; bounds).
    rewrite float64_exact by apply HP.
    unfold P. rewrite item_fromfunction by bounds.
    cbn [map index_sub combine fst snd clamp_index]. unfold clamp. f_equal. f_equal; [|f_equal]; lia.
  - rewrite <- (map_nth_seq (fun s => item im (clamp_index [n0; n1] (index_sub [u; v] s)))
                 shifts []).
    apply map_ext_in. intros i Hin. apply in_seq in Hin.
    assert (Hsi : unit_shift 2 (nth i shifts []) = true).
    { rewrite forallb_forall in Hunit. apply Hunit, nth_In. lia. }
    unfold temps.
    rewrite item_map_nd
      by (change (in_bounds [u + 1; v + 1] [n0 + 2; n1 + 2] = true); bounds).
    rewrite float64_exact by (apply roll_small; [lia|]; apply roll_small; [lia | exact HP]).
    destruct (nth i shifts []) as [|s0 [|s1 [|? ?]]]; try discriminate Hsi.
    unfold unit_shift in Hsi. cbn [length Nat.eqb forallb andb] in Hsi.
    rewrite !andb_true_iff, !Z.leb_le in Hsi.
    cbn [axis_get nth].
    rewrite item_roll by (change (shape (roll P s0 0)) with [n0 + 2; n1 + 2]; bounds).
    change (shape (roll P s0 0)) with [n0 + 2; n1 + 2]. cbn [axis_get axis_set nth].
    rewrite Z.mod_small by lia.
    rewrite item_roll by (change (shape P) with [n0 + 2; n1 + 2]; bounds).
    change (shape P) with [n0 + 2; n1 + 2]. cbn [axis_get axis_set nth].
    rewrite Z.mod_small by lia.
    unfold P. rewrite item_fromfunction by bounds.
    cbn [map index_sub combine fst snd]. f_equal. f_equal. f_equal; [|f_equal]; lia.
Qed.

Lemma nphase_border_3d (im : ndarray Z) (diag : bool) (n0 n1 n2 : Z) :
  shape im = [n0; n1; n2] -> 0 < n0 -> 0 < n1 -> 0 < n2 ->
  (forall y, Z.abs (item im y) <= 2 ^ 53) ->
  exists out,
    nphase_border im diag = Ok out
    /\ shape out = [n0; n1; n2]
    /\ forall u v w, 0 <= u < n0 -> 0 <= v < n1 -> 0 <= w < n2 ->
         item out [u; v; w]
         = count_distinct
             (item im [u; v; w]
              :: map (fun s => item im (clamp_index [n0; n1; n2] (index_sub [u; v; w] s)))
                   (_get_axial_shifts 3 diag)).
Proof.
  intros Hs H0 H1 H2 Hsmall. unfold nphase_border. rewrite Hs. cbn [length Nat.eqb orb negb].
  rewrite pad_edge_ok by (rewrite Hs; repeat constructor; assumption).
  rewrite Hs. cbn [bind map].
  set (P := fromfunction [n0 + 2; n1 + 2; n2 + 2] _).
  assert (HP : forall y, Z.abs (item P y) <= 2 ^ 53).
  { apply fromfunction_small; [lia|]. intros y. apply Hsmall. }
  unfold _make_stack. change (shape P) with [n0 + 2; n1 + 2; n2 + 2].
  cbn [length Z.of_nat Pos.of_succ_nat Pos.succ Z.eqb Pos.eqb axis_get nth].
  pose proof (shifts_unit_3 diag) as Hunit.
  set (shifts := _get_axial_shifts 3 diag) in *.
  set (temps := fun i : nat =>
                  map_nd float64_of_Z
                    (roll (roll (roll P (axis_get (nth i shifts []) 0) 0)
                             (axis_get (nth i shifts []) 1) 1)
                       (axis_get (nth i shifts []) 2) 2)).
  destruct (stack_core (map_nd float64_of_Z P) [n0 + 2; n1 + 2; n2 + 2] temps (length shifts))
    as [Hss [out [Hrun [Hso Hi]]]].
  cbn [app] in Hss, Hrun. unfold temps in Hss, Hrun. cbv beta in Hss, Hrun.
  match goal with |- context [shape (sort_last ?r)] => set (stack := sort_last r) in * end.
  rewrite Hss. cbn [axis_get nth].
  replace (Z.to_nat (Z.of_nat (length shifts) + 1)) with (S (length shifts)) by lia.
  cbn [seq tl]. rewrite Hrun. cbn [bind]. rewrite Hso. cbn [axis_get nth].
  eexists. split; [reflexivity|].
  split.
  { cbn [getslice shape fromfunction slice_shape map fst snd].
    f_equal; [|f_equal; [|f_equal]]; lia. }
  intros u v w Hu Hv Hw.
  rewrite item_getslice by (cbn [slice_shape map fst snd]; bounds).
  cbn [index_add slice_start map combine fst snd].
  rewrite Hi by bounds.
  f_equal. f_equal.
  - rewrite item_map_nd by (change (shape P) with [n0 + 2; n1 + 2; n2 + 2]; bounds).
    rewrite float64_exact by apply HP.
    unfold P. rewrite item_fromfunction by bounds.
    cbn [map index_sub combine fst snd clamp_index]. unfold clamp. f_equal.
    f_equal; [|f_equal; [|f_equal]]; lia.
  - rewrite <- (map_nth_seq
                  (fun s => item im (clamp_index [n0; n1; n2] (index_sub [u; v; w] s)))
                  shifts []).
    apply map_ext_in. intros i Hin. apply in_seq in Hin.
    assert (Hsi : unit_shift 3 (nth i shifts []) = true).
    { rewrite forallb_forall in Hunit. apply Hunit, nth_In. lia. }
    unfold temps.
    rewrite item_map_nd
      by (change (in_bounds [u + 1; v + 1; w + 1] [n0 + 2; n1 + 2; n2 + 2] = true); bounds).
    rewrite float64_exact
      by (apply roll_small; [lia|]; apply roll_small; [lia|]; apply roll_small; [lia | exact HP]).
    destruct (nth i shifts []) as [|s0 [|s1 [|s2 [|? ?]]]]; try discriminate Hsi.
    unfold unit_shift in Hsi. cbn [length Nat.eqb forallb andb] in Hsi.
    rewrite !andb_true_iff, !Z.leb_le in Hsi.
    cbn [axis_get nth].
    set (R0 := roll P s0 0). set (R1 := roll R0 s1 1).
    rewrite item_roll by (change (shape R1) with [n0 + 2; n1 + 2; n2 + 2]; bounds).
    change (shape R1) with [n0 + 2; n1 + 2; n2 + 2]. cbn [axis_get axis_set nth].
    rewrite Z.mod_small by lia. unfold R1.
    rewrite item_roll by (change (shape R0) with [n0 + 2; n1 + 2; n2 + 2]; bounds).
    change (shape R0) with [n0 + 2; n1 + 2; n2 + 2]. cbn [axis_get axis_set nth].
    rewrite Z.mod_small by lia. unfold R0.
    rewrite item_roll by (change (shape P) with [n0 + 2; n1 + 2; n2 + 2]; bounds).
    change (shape P) with [n0 + 2; n1 + 2; n2 + 2]. cbn [axis_get axis_set nth].
    rewrite Z.mod_small by lia.
    unfold P. rewrite item_fromfunction by bounds.
    cbn [map index_sub combine fst snd]. f_equal. f_equal.
    f_equal; [|f_equal; [|f_equal]]; lia.
Qed.

Lemma nphase_border_item (im : ndarray Z) (diag : bool) :
  (length (shape im) = 2 \/ length (shape im) = 3)%nat ->
  Forall (fun n => 0 < n) (shape im) ->
  (forall y, Z.abs (item im y) <= 2 ^ 53) ->
  exists out,
    nphase_border im diag = Ok out
    /\ shape out = shape im
    /\ forall x, in_bounds x (shape im) = true ->
         item out x
         = count_distinct
             (item im x
              :: map (fun s => item im (clamp_index (shape im) (index_sub x s)))
                   (_get_axial_shifts (Z.of_nat (length (shape im))) diag)).
Proof.
  intros Hr Hpos Hsmall. destruct (shape im) as [|n0 [|n1 [|n2 [|n3 sh]]]] eqn:Hs;
    try (destruct Hr; discriminate).
  - inversion Hpos as [|? ? H0 Hp1]; subst. inversion Hp1 as [|? ? H1 _]; subst.
    destruct (nphase_border_2d im diag n0 n1 Hs H0 H1 Hsmall) as [out [Hrun [Hso Hi]]].
    exists out. split; [exact Hrun|]. split; [exact Hso|].
    intros x Hx. assert (Hl := Hx). apply in_bounds_length in Hl.
    destruct x as [|u [|v [|? ?]]]; try discriminate Hl.
    cbn [in_bounds] in Hx. rewrite !andb_true_iff, !Z.leb_le, !Z.ltb_lt in Hx.
    apply Hi; lia.
  - inversion Hpos as [|? ? H0 Hp1]; subst. inversion Hp1 as [|? ? H1 Hp2]; subst.
    inversion Hp2 as [|? ? H2 _]; subst.
    destruct (nphase_border_3d im diag n0 n1 n2 Hs H0 H1 H2 Hsmall) as [out [Hrun [Hso Hi]]].
    exists out. split; [exact Hrun|]. split; [exact Hso|].
    intros x Hx. assert (Hl := Hx). apply in_bounds_length in Hl.
    destruct x as [|u [|v [|w [|? ?]]]]; try discriminate Hl.
    cbn [in_bounds] in Hx. rewrite !andb_true_iff, !Z.leb_le, !Z.ltb_lt in Hx.
    apply Hi; lia.
Qed.

Lemma count_distinct_le (l : list Z) : count_distinct l <= Z.of_nat (length l).
Proof.
  unfold count_distinct. apply inj_le.
  induction l as [|a l IH]; [reflexivity|]. cbn [nodup length].
  destruct (in_dec Z.eq_dec a l); cbn [length]; lia.
Qed.

Lemma count_distinct_pos (a : Z) (l : list Z) : 1 <= count_distinct (a :: l).
Proof.
  unfold count_distinct.
  assert (In a (nodup Z.eq_dec (a :: l))) as H by (apply nodup_In; left; reflexivity).
  destruct (nodup Z.eq_dec (a :: l)); [contradiction H|]. cbn [length]. lia.
Qed.

Lemma count_distinct_one (a : Z) (l : list Z) :
  count_distinct (a :: l) = 1 <-> forall v, In v l -> v = a.
Proof.
  unfold count_distinct. split.
  - intros H v Hv.
    assert (Ha : In a (nodup Z.eq_dec (a :: l))) by (apply nodup_In; left; reflexivity).
    assert (Hv' : In v (nodup Z.eq_dec (a :: l))) by (apply nodup_In; right; exact Hv).
    destruct (nodup Z.eq_dec (a :: l)) as [|b [|c t]]; cbn [length] in H; try lia.
    destruct Ha as [<-|[]]. destruct Hv' as [<-|[]]. reflexivity.
  - induction l as [|b l IH]; intros H; [reflexivity|].
    assert (b = a) by (apply H; left; reflexivity). subst b.
    cbn [nodup]. destruct (in_dec Z.eq_dec a (a :: l)) as [_|Hn].
    + apply IH. intros v Hv. apply H. right. exact Hv.
    + contradiction Hn. left. reflexivity.
Qed.

Lemma small_of_data (im : ndarray Z) (B : Z) :
  0 <= B -> Forall (fun v => Z.abs v <= B) (data im) -> forall y, Z.abs (item im y) <= B.
Proof.
  intros HB H y. unfold item. destruct (in_bounds y (shape im)); [|exact HB].
  destruct (nth_in_or_default (Z.to_nat (ravel_multi_index y (shape im))) (data im) fill)
    as [Hin|E]; [|rewrite E; exact HB].
  rewrite Forall_forall in H. apply H, Hin.
Qed.

(** X6: on an integer image of two or three dimensions without an empty
    axis, whose values are at most 2^53 in absolute value (so that the copy
    into the float64 stack keeps them as they are), nphase_border returns an
    image of the same shape whose value at a voxel is the number of different
    values among the voxel and its neighbours, where a neighbour beyond the
    edge of the image is replaced by the nearest voxel inside (the image is
    padded by its edge values). *)
Theorem nphase_border_counts (im : ndarray Z) (include_diagonals : bool) :
  (length (shape im) = 2 \/ length (shape im) = 3)%nat ->
  Forall (fun n => 0 < n) (shape im) ->
  (forall y, Z.abs (item im y) <= 2 ^ 53) ->
  exists out,
    nphase_border im include_diagonals = Ok out
    /\ shape out = shape im
    /\ forall x, in_bounds x (shape im) = true ->
         item out x
         = count_distinct
             (item im x
              :: map (fun s => item im (clamp_index (shape im) (index_sub x s)))
                   (_get_axial_shifts (Z.of_nat (length (shape im))) include_diagonals)).
Proof. apply nphase_border_item. Qed.

Lemma nphase_border_counts_witness :
  exists out,
    nphase_border border_example false = Ok out
    /\ shape out = shape border_example
    /\ forall x, in_bounds x (shape border_example) = true ->
         item out x
         = count_distinct
             (item border_example x
              :: map (fun s => item border_example
                                 (clamp_index (shape border_example) (index_sub x s)))
                   (_get_axial_shifts (Z.of_nat (length (shape border_example))) false)).
Proof.
  apply nphase_border_counts.
  - left. reflexivity.
  - repeat constructor.
  - apply small_of_data; [discriminate|].
    repeat (apply Forall_cons; [discriminate|]). apply Forall_nil.
Defined.

(** X7: under the same conditions every value of the result lies between 1
    and the number of neighbours plus one, and it is 1 exactly at the voxels
    all of whose neighbours (taken at the nearest voxel inside the image)
    carry the voxel's own value. *)
Theorem nphase_border_one (im : ndarray Z) (include_diagonals : bool) :
  (length (shape im) = 2 \/ length (shape im) = 3)%nat ->
  Forall (fun n => 0 < n) (shape im) ->
  (forall y, Z.abs (item im y) <= 2 ^ 53) ->
  exists out,
    nphase_border im include_diagonals = Ok out
    /\ forall x, in_bounds x (shape im) = true ->
         let shifts := _get_axial_shifts (Z.of_nat (length (shape im))) include_diagonals in
         1 <= item out x <= 1 + Z.of_nat (length shifts)
         /\ (item out x = 1 <->
             forall s, In s shifts ->
                       item im (clamp_index (shape im) (index_sub x s)) = item im x).
Proof.
  intros Hr Hpos Hsmall.
  destruct (nphase_border_item im include_diagonals Hr Hpos Hsmall) as [out [Hrun [_ Hi]]].
  exists out. split; [exact Hrun|]. intros x Hx shifts. rewrite (Hi x Hx). fold shifts.
  split; [split|].
  - apply count_distinct_pos.
  - etransitivity; [apply count_distinct_le|]. cbn [length]. rewrite length_map. lia.
  - rewrite count_distinct_one. split.
    + intros H s Hs. apply H. apply in_map_iff. exists s. split; [reflexivity|exact Hs].
    + intros H v Hv. apply in_map_iff in Hv. destruct Hv as [s [<- Hs]]. apply H, Hs.
Qed.

Lemma nphase_border_one_witness :
  exists out,
    nphase_border border_example true = Ok out
    /\ forall x, in_bounds x (shape border_example) = true ->
         let shifts := _get_axial_shifts (Z.of_nat (length (shape border_example))) true in
         1 <= item out x <= 1 + Z.of_nat (length shifts)
         /\ (item out x = 1 <->
             forall s, In s shifts ->
                       item border_example (clamp_index (shape border_example) (index_sub x s))
                       = item border_example x).
Proof.
  apply nphase_border_one.
  - left. reflexivity.
  - repeat constructor.
  - apply small_of_data; [discriminate|].
    repeat (apply Forall_cons; [discriminate|]). apply Forall_nil.
Defined.

(** X8: the shifts of _get_axial_shifts are the offsets with entries in
    -1, 0, 1 other than the zero offset, all of them with diagonals and those
    along one axis without; any [ndim] other than 2 gives the offsets of
    three dimensions. *)
Theorem axial_shifts_are_neighbours (ndim : Z) (include_diagonals : bool) (s : index) :
  In s (_get_axial_shifts ndim include_diagonals)
  <-> unit_shift (if ndim =? 2 then 2 else 3) s = true
      /\ 0 < sum_abs s
      /\ (include_diagonals = true \/ sum_abs s = 1).
Proof.
  assert (E : _get_axial_shifts ndim include_diagonals
              = _get_axial_shifts (if ndim =? 2 then 2 else 3) include_diagonals).
  { unfold _get_axial_shifts. destruct (ndim =? 2); reflexivity. }
  rewrite E. clear E.
  assert (Hdec : forall c, (-1 <=? c) && (c <=? 1) = true -> c = -1 \/ c = 0 \/ c = 1).
  { intros c Hc. apply andb_true_iff in Hc. rewrite !Z.leb_le in Hc. lia. }
  split.
  - intros Hin.
    assert (Hall : forallb (fun s => unit_shift (if ndim =? 2 then 2%nat else 3%nat) s
                                     && (0 <? sum_abs s)
                                     && (include_diagonals || (sum_abs s =? 1)))
                     (_get_axial_shifts (if ndim =? 2 then 2 else 3) include_diagonals) = true).
    { destruct (ndim =? 2), include_diagonals; vm_compute; reflexivity. }
    rewrite forallb_forall in Hall. specialize (Hall s Hin).
    rewrite !andb_true_iff, orb_true_iff, Z.ltb_lt, Z.eqb_eq in Hall. tauto.
  - intros [Hu [Hpos Hd]]. unfold unit_shift in Hu. apply andb_true_iff in Hu.
    destruct Hu as [Hlen Hent]. apply Nat.eqb_eq in Hlen.
    destruct (ndim =? 2).
    + destruct s as [|a [|b [|? ?]]]; try discriminate Hlen.
      cbn [forallb] in Hent. rewrite !andb_true_iff in Hent.
      destruct Hent as [Ha [Hb _]]. rewrite <- andb_true_iff in Ha, Hb.
      destruct (Hdec a Ha) as [-> | [-> | ->]], (Hdec b Hb) as [-> | [-> | ->]];
        try (vm_compute in Hpos; discriminate Hpos);
        destruct Hd as [-> | Hd]; try (vm_compute in Hd; discriminate Hd);
        try destruct include_diagonals; vm_compute; tauto.
    + destruct s as [|a [|b [|c [|? ?]]]]; try discriminate Hlen.
      cbn [forallb] in Hent. rewrite !andb_true_iff in Hent.
      destruct Hent as [Ha [Hb [Hc _]]]. rewrite <- andb_true_iff in Ha, Hb, Hc.
      destruct (Hdec a Ha) as [-> | [-> | ->]], (Hdec b Hb) as [-> | [-> | ->]],
        (Hdec c Hc) as [-> | [-> | ->]];
        try (vm_compute in Hpos; discriminate Hpos);
        destruct Hd as [-> | Hd]; try (vm_compute in Hd; discriminate Hd);
        try destruct include_diagonals; vm_compute; tauto.
Qed.

(** ** Sequences indexed as numpy indexes them *)

Lemma np_index_ok (n : nat) (j : Z) :
  0 <= j < Z.of_nat n -> np_index n j = Ok (Z.to_nat j).
Proof.
  intros H. unfold np_index.
  destruct (Z.leb_spec 0 j); [|lia]. destruct (Z.ltb_spec j (Z.of_nat n)); [|lia]. reflexivity.
Qed.

Lemma length_set_nth {A : Type} (j : nat) (v : A) (l : list A) :
  length (set_nth j v l) = length l.
Proof.
  revert j. induction l as [|h t IH]; intros [|j]; cbn [set_nth length]; try reflexivity.
  rewrite IH. reflexivity.
Qed.

Lemma nth_set_nth {A : Type} (j k : nat) (v d : A) (l : list A) :
  (j < length l)%nat ->
  nth k (set_nth j v l) d = if Nat.eqb k j then v else nth k l d.
Proof.
  revert j k. induction l as [|h t IH]; intros j k Hj; cbn [length] in Hj; [lia|].
  destruct j as [|j], k as [|k]; cbn [set_nth nth Nat.eqb]; try reflexivity.
  apply IH. lia.
Qed.

Lemma map_result_ok {A B : Type} (f : A -> result B) (g : A -> B) (l : list A) :
  (forall a, In a l -> f a = Ok (g a)) -> map_result f l = Ok (map g l).
Proof.
  induction l as [|a l IH]; intros H; cbn [map_result map]; [reflexivity|].
  rewrite (H a (or_introl eq_refl)). cbn [bind].
  rewrite IH by (intros a' Ha'; apply H; right; exact Ha'). reflexivity.
Qed.

(** A loop over [range(n)] with an invariant that depends on the number of
    rounds done. *)
Lemma for_each_range {S : Type} (Inv : nat -> S -> Prop) (body : S -> nat -> result S)
    (n : nat) :
  (forall i st, (i < n)%nat -> Inv i st ->
                exists st', body st i = Ok st' /\ Inv (Datatypes.S i) st') ->
  forall st, Inv O st ->
  exists st', for_each body (seq 0 n) st = Ok st' /\ Inv n st'.
Proof.
  intros Hstep.
  assert (G : forall m a st, (a + m = n)%nat -> Inv a st ->
                exists st', for_each body (seq a m) st = Ok st' /\ Inv n st').
  { induction m as [|m IH]; intros a st Ham Hinv; cbn [seq for_each].
    - exists st. split; [reflexivity|]. replace n with a by lia. exact Hinv.
    - destruct (Hstep a st ltac:(lia) Hinv) as [st1 [Hb Hi1]].
      rewrite Hb. cbn [bind]. apply IH; [lia | exact Hi1]. }
  intros st H0. apply G; [lia | exact H0].
Qed.

Lemma item_mk_map {A : Type} `{Fill A} (sh : list Z) (f : index -> A) (x : index) :
  in_bounds x sh = true -> item (mk_ndarray sh (map f (ndindex sh))) x = f x.
Proof. exact (item_fromfunction sh f x). Qed.

Lemma in_bounds_zeros (sh : list Z) :
  Forall (fun n => 0 < n) sh -> in_bounds (map (fun _ => 0) sh) sh = true.
Proof.
  induction 1 as [|n sh Hn Hsh IH]; cbn [map in_bounds]; [reflexivity|].
  rewrite IH. destruct (Z.ltb_spec 0 n); [reflexivity | lia].
Qed.

Lemma fold_max_start (l : list Z) (a : Z) : a <= fold_left Z.max l a.
Proof.
  revert a. induction l as [|b l IH]; intros a; cbn [fold_left]; [lia|].
  specialize (IH (Z.max a b)). lia.
Qed.

Lemma fold_max_ge (l : list Z) (a v : Z) :
  In v (a :: l) -> v <= fold_left Z.max l a.
Proof.
  revert a. induction l as [|b l IH]; intros a Hin; cbn [fold_left].
  - destruct Hin as [->|[]]. lia.
  - destruct Hin as [->|[->|Hin]].
    + pose proof (fold_max_start l (Z.max v b)). lia.
    + pose proof (fold_max_start l (Z.max a v)). lia.
    + apply IH. right. exact Hin.
Qed.

Lemma fold_right_max_ge (l : list Z) (d v : Z) :
  In v l -> v <= fold_right Z.max d l.
Proof.
  induction l as [|b l IH]; intros Hin; [destruct Hin|]. cbn [fold_right].
  destruct Hin as [<-|Hin]; [lia|]. specialize (IH Hin). lia.
Qed.

Lemma In_flatten {A : Type} `{Fill A} (a : ndarray A) (v : A) :
  In v (flatten a) <-> exists y, in_bounds y (shape a) = true /\ item a y = v.
Proof.
  unfold flatten. rewrite in_map_iff. split; intros [y [H1 H2]]; exists y.
  - apply In_ndindex in H2. tauto.
  - split; [exact H2 | apply In_ndindex, H1].
Qed.

(** ** region_size *)

Lemma region_size_labelled (im : ndarray Z) :
  Forall (fun n => 0 < n) (shape im) ->
  (forall y, in_bounds y (shape im) = true -> 0 <= item im y) ->
  exists out,
    region_size (IntImage im) = Ok out
    /\ shape out = shape im
    /\ forall x, in_bounds x (shape im) = true ->
         item out x
         = if item im x =? 0 then 0
           else Z.of_nat (count_occ Z.eq_dec (flatten im) (item im x)).
Proof.
  intros Hpos Hnn. unfold region_size. cbn [bind].
  set (l := flatten im).
  assert (Hl : forall v, In v l -> 0 <= v).
  { intros v Hv. apply In_flatten in Hv. destruct Hv as [y [Hy <-]]. apply Hnn, Hy. }
  unfold bincount.
  replace (existsb (fun v => v <? 0) l) with false.
  2: { symmetry. apply not_true_is_false. intros E. apply existsb_exists in E.
       destruct E as [v [Hv E]]. apply Z.ltb_lt in E. specialize (Hl v Hv). lia. }
  cbn [bind]. set (M := fold_right Z.max (-1) l).
  set (counts := map _ (arange (M + 1))).
  assert (HM : forall v, In v l -> v <= M).
  { intros v Hv. apply fold_right_max_ge, Hv. }
  assert (H0 : In (item im (map (fun _ => 0) (shape im))) l).
  { apply In_flatten. eexists. split; [apply in_bounds_zeros, Hpos | reflexivity]. }
  assert (HM0 : 0 <= M) by (specialize (HM _ H0); specialize (Hl _ H0); lia).
  assert (Hlen : length counts = Z.to_nat (M + 1)).
  { unfold counts, arange. rewrite !length_map, length_seq. reflexivity. }
  rewrite np_index_ok by lia. cbn [bind].
  rewrite (map_result_ok _ (fun v => nth (Z.to_nat v) (set_nth 0 0 counts) 0)).
  2: { intros v Hv. rewrite np_index_ok; [reflexivity|].
       rewrite length_set_nth, Hlen. specialize (Hl v Hv). specialize (HM v Hv). lia. }
  cbn [bind]. eexists. split; [reflexivity|]. split; [reflexivity|].
  intros x Hx. unfold l, flatten. rewrite map_map. rewrite item_mk_map by exact Hx.
  rewrite nth_set_nth by lia.
  assert (Hv : In (item im x) l).
  { apply In_flatten. exists x. split; [exact Hx | reflexivity]. }
  pose proof (Hl _ Hv). pose proof (HM _ Hv).
  destruct (Z.eqb_spec (item im x) 0) as [E|E].
  - rewrite E. reflexivity.
  - destruct (Nat.eqb_spec (Z.to_nat (item im x)) 0); [lia|].
    apply nth_error_nth. unfold counts. rewrite nth_error_map.
    rewrite nth_error_arange by lia. reflexivity.
Qed.

(** ** flood *)

Lemma nth_map_lt {A B : Type} (f : A -> B) (l : list A) (k : nat) (d : B) (d' : A) :
  (k < length l)%nat -> nth k (map f l) d = f (nth k l d').
Proof.
  intros Hk. rewrite (nth_indep _ d (f d')) by (rewrite length_map; exact Hk).
  apply map_nth.
Qed.

Lemma get_nth_ok {A : Type} (l : list A) (i : nat) (d : A) :
  (i < length l)%nat -> get_nth l i = Ok (nth i l d).
Proof.
  intros Hi. unfold get_nth. destruct (nth_error l i) as [v|] eqn:E.
  - rewrite (nth_error_nth _ _ d E). reflexivity.
  - apply nth_error_None in E. lia.
Qed.

Lemma position_of_index (sh : list Z) (x : index) :
  in_bounds x sh = true ->
  exists k, (k < length (ndindex sh))%nat /\ nth k (ndindex sh) [] = x.
Proof.
  intros Hx. exists (Z.to_nat (ravel_multi_index x sh)).
  pose proof (nth_error_ndindex x sh Hx) as E. split.
  - apply nth_error_Some. rewrite E. discriminate.
  - apply nth_error_nth, E.
Qed.

Lemma index_of_position (sh : list Z) (k : nat) :
  (k < length (ndindex sh))%nat -> in_bounds (nth k (ndindex sh) []) sh = true.
Proof. intros Hk. apply In_ndindex, nth_In, Hk. Qed.

(** The labels given as [regions]: their maximum bounds them. *)
Lemma array_max_ok (regions : ndarray Z) :
  Forall (fun n => 0 < n) (shape regions) ->
  exists N, array_max regions = Ok N
            /\ (forall y, in_bounds y (shape regions) = true -> item regions y <= N)
            /\ exists y, in_bounds y (shape regions) = true /\ item regions y = N.
Proof.
  intros Hpos. unfold array_max.
  pose proof (in_bounds_zeros (shape regions) Hpos) as H0.
  destruct (flatten regions) as [|v vs] eqn:E.
  - exfalso. assert (Hin : In (item regions (map (fun _ => 0) (shape regions))) (flatten regions)).
    { apply In_flatten. eexists. split; [exact H0 | reflexivity]. }
    rewrite E in Hin. destruct Hin.
  - eexists. split; [reflexivity|]. split.
    + intros y Hy. apply fold_max_ge. rewrite <- E. apply In_flatten. exists y. tauto.
    + assert (Hin : In (fold_left Z.max vs v) (v :: vs)).
      { clear E. revert v. induction vs as [|w vs IH]; intros v; cbn [fold_left].
        - left. reflexivity.
        - destruct (IH (Z.max v w)) as [Hm|Hm].
          + rewrite <- Hm.
            destruct (Z.max_spec v w) as [[_ Hw]|[_ Hw]]; rewrite Hw.
            * right. left. reflexivity.
            * left. reflexivity.
          + right. right. exact Hm. }
      rewrite <- E in Hin. apply In_flatten in Hin. exact Hin.
Qed.

(** The last three statements of the function, once [V] is known. *)
Lemma flood_tail (im : ndarray Q) (labels : ndarray Z) (V : list (option Q)) :
  shape labels = shape im ->
  Forall (fun n => 0 < n) (shape im) ->
  (forall y, in_bounds y (shape im) = true -> 0 <= item labels y < Z.of_nat (length V)) ->
  exists out,
    (Vl <- map_result (fun l => j <- np_index (length V) l ;; Ok (nth j V None))
             (flatten labels) ;;
     im_flooded <- reshape Vl (shape im) ;;
     Ok (zip_nd mul_mask im_flooded (greater_zero_Q im))) = Ok out
    /\ shape out = shape im
    /\ forall x, in_bounds x (shape im) = true ->
         item out x
         = mul_mask (nth (Z.to_nat (item labels x)) V None) (Qltb 0 (item im x)).
Proof.
  intros Hs Hpos Hl.
  rewrite (map_result_ok _ (fun l => nth (Z.to_nat l) V None)).
  2: { intros l Hin. apply In_flatten in Hin. destruct Hin as [y [Hy <-]].
       rewrite Hs in Hy. rewrite np_index_ok by (apply Hl, Hy). reflexivity. }
  cbn [bind]. unfold reshape, flatten. rewrite Hs, !length_map.
  rewrite length_ndindex.
  2: { eapply Forall_impl; [|exact Hpos]. cbv beta. intros; lia. }
  rewrite Z.eqb_refl. cbn [bind]. eexists. split; [reflexivity|]. split; [reflexivity|].
  intros x Hx. rewrite item_zip_nd by exact Hx.
  rewrite map_map, item_mk_map by exact Hx.
  unfold greater_zero_Q. rewrite item_map_nd by exact Hx. reflexivity.
Qed.

Lemma nth_repeat_any {A : Type} (v d : A) (n k : nat) :
  (k < n)%nat -> nth k (repeat v n) d = v.
Proof. intros Hk. apply nth_error_nth. rewrite nth_error_repeat by exact Hk. reflexivity. Qed.

Lemma flood_max_loop (N : Z) (L : list Z) (I : list Q) :
  0 <= N -> length I = length L ->
  (forall k, (k < length L)%nat -> 0 <= nth k L 0 <= N) ->
  exists V,
    for_each (fun V i =>
                j <- np_index (length V) (nth i L 0) ;;
                Ii <- get_nth I i ;;
                if Qltb (nth j V 0%Q) Ii then Ok (set_nth j Ii V) else Ok V)
             (seq 0 (length L)) (repeat 0%Q (Z.to_nat (N + 1))) = Ok V
    /\ length V = Z.to_nat (N + 1)
    /\ forall l, 0 <= l <= N ->
         (0 <= nth (Z.to_nat l) V 0)%Q
         /\ (forall k, (k < length L)%nat -> nth k L 0 = l ->
                       (nth k I 0 <= nth (Z.to_nat l) V 0)%Q)
         /\ (nth (Z.to_nat l) V 0%Q = 0%Q
             \/ exists k, (k < length L)%nat /\ nth k L 0 = l
                          /\ nth (Z.to_nat l) V 0%Q = nth k I 0%Q).
Proof.
  intros HN HI HL.
  set (Inv := fun (i : nat) (V : list Q) =>
    length V = Z.to_nat (N + 1)
    /\ forall l, 0 <= l <= N ->
         (0 <= nth (Z.to_nat l) V 0)%Q
         /\ (forall k, (k < i)%nat -> nth k L 0 = l ->
                       (nth k I 0 <= nth (Z.to_nat l) V 0)%Q)
         /\ (nth (Z.to_nat l) V 0%Q = 0%Q
             \/ exists k, (k < i)%nat /\ nth k L 0 = l
                          /\ nth (Z.to_nat l) V 0%Q = nth k I 0%Q)).
  destruct (for_each_range Inv
              (fun V i =>
                 j <- np_index (length V) (nth i L 0) ;;
                 Ii <- get_nth I i ;;
                 if Qltb (nth j V 0%Q) Ii then Ok (set_nth j Ii V) else Ok V)
              (length L)) with (st := repeat 0%Q (Z.to_nat (N + 1))) as [V [Hrun HV]].
  - intros i V Hi [Hlen Hinv]. specialize (HL i Hi).
    rewrite np_index_ok by lia. cbn [bind].
    rewrite (get_nth_ok I i 0%Q) by lia. cbn [bind].
    set (j := nth i L 0) in *. set (Ii := nth i I 0%Q).
    destruct (Qltb (nth (Z.to_nat j) V 0%Q) Ii) eqn:Hcmp.
    + apply Qltb_lt in Hcmp. eexists. split; [reflexivity|].
      split; [rewrite length_set_nth; exact Hlen|].
      intros l Hl. destruct (Hinv l Hl) as [H0 [Hle Hatt]].
      destruct (Hinv j HL) as [H0j [Hlej _]].
      rewrite nth_set_nth by lia.
      destruct (Nat.eqb_spec (Z.to_nat l) (Z.to_nat j)) as [E|E].
      * assert (l = j) by lia. subst l. split; [lra|]. split.
        -- intros k Hk Hkl. destruct (Nat.eq_dec k i) as [->|Hne]; [fold Ii; lra|].
           specialize (Hlej k ltac:(lia) Hkl). lra.
        -- right. exists i. split; [lia|]. split; reflexivity.
      * split; [exact H0|]. split.
        -- intros k Hk Hkl. destruct (Nat.eq_dec k i) as [->|Hne].
           ++ fold j in Hkl. subst l. contradiction E. reflexivity.
           ++ apply Hle; [lia | exact Hkl].
        -- destruct Hatt as [Hz|[k [Hk [Hkl Hv]]]]; [left; exact Hz|].
           right. exists k. split; [lia|]. split; assumption.
    + apply Qltb_ge in Hcmp. eexists. split; [reflexivity|].
      split; [exact Hlen|].
      intros l Hl. destruct (Hinv l Hl) as [H0 [Hle Hatt]].
      split; [exact H0|]. split.
      * intros k Hk Hkl. destruct (Nat.eq_dec k i) as [->|Hne].
        -- fold j in Hkl. subst l. exact Hcmp.
        -- apply Hle; [lia | exact Hkl].
      * destruct Hatt as [Hz|[k [Hk [Hkl Hv]]]]; [left; exact Hz|].
        right. exists k. split; [lia|]. split; assumption.
  - split; [apply repeat_length|].
    intros l Hl. rewrite nth_repeat_any by lia.
    split; [lra|]. split; [intros k Hk; lia | left; reflexivity].
  - exists V. split; [exact Hrun|]. exact HV.
Qed.

(** The body of the function after the labels are known, mode 'max'. *)
Lemma flood_max_core (im : ndarray Q) (labels : ndarray Z) (N : Z) :
  shape labels = shape im ->
  Forall (fun n => 0 < n) (shape im) ->
  (forall y, in_bounds y (shape im) = true -> 0 <= item labels y <= N) ->
  exists out,
    (V <- (n <- zeros_length (N + 1) ;;
           V <- for_each
                  (fun V i =>
                     j <- np_index (length V) (nth i (flatten labels) 0) ;;
                     Ii <- get_nth (flatten im) i ;;
                     if Qltb (nth j V 0%Q) Ii then Ok (set_nth j Ii V) else Ok V)
                  (seq 0 (length (flatten labels))) (repeat 0%Q n) ;;
           Ok (map Some V)) ;;
     Vl <- map_result (fun l => j <- np_index (length V) l ;; Ok (nth j V None))
             (flatten labels) ;;
     im_flooded <- reshape Vl (shape im) ;;
     Ok (zip_nd mul_mask im_flooded (greater_zero_Q im))) = Ok out
    /\ shape out = shape im
    /\ forall x, in_bounds x (shape im) = true ->
         (~ (0 < item im x)%Q -> item out x = Some 0%Q)
         /\ ((0 < item im x)%Q ->
             exists y, in_bounds y (shape im) = true
                       /\ item labels y = item labels x
                       /\ item out x = Some (item im y)
                       /\ forall y', in_bounds y' (shape im) = true ->
                                     item labels y' = item labels x ->
                                     (item im y' <= item im y)%Q).
Proof.
  intros Hs Hpos Hl.
  pose proof (in_bounds_zeros (shape im) Hpos) as Hz.
  assert (HN : 0 <= N) by (specialize (Hl _ Hz); lia).
  unfold zeros_length. destruct (Z.ltb_spec (N + 1) 0); [lia|]. cbn [bind].
  assert (HlenL : length (flatten labels) = length (ndindex (shape im))).
  { unfold flatten. rewrite Hs, length_map. reflexivity. }
  assert (HlenI : length (flatten im) = length (ndindex (shape im))).
  { unfold flatten. rewrite length_map. reflexivity. }
  assert (HnthL : forall k, (k < length (ndindex (shape im)))%nat ->
            nth k (flatten labels) 0 = item labels (nth k (ndindex (shape im)) [])).
  { intros k Hk. unfold flatten. rewrite Hs. apply nth_map_lt, Hk. }
  assert (HnthI : forall k, (k < length (ndindex (shape im)))%nat ->
            nth k (flatten im) 0%Q = item im (nth k (ndindex (shape im)) [])).
  { intros k Hk. unfold flatten. apply nth_map_lt, Hk. }
  destruct (flood_max_loop N (flatten labels) (flatten im) HN) as [V [Hrun [HlenV HV]]].
  { congruence. }
  { intros k Hk. rewrite HlenL in Hk. rewrite (HnthL k Hk).
    apply Hl, index_of_position, Hk. }
  rewrite Hrun. cbn [bind].
  destruct (flood_tail im labels (map Some V) Hs Hpos) as [out [Hout [Hso Hi]]].
  { intros y Hy. rewrite length_map, HlenV. specialize (Hl y Hy). lia. }
  exists out. split; [exact Hout|]. split; [exact Hso|].
  intros x Hx. rewrite (Hi x Hx).
  destruct (Hl x Hx) as [Hx0 HxN].
  rewrite (nth_map_lt Some V _ None 0%Q) by lia.
  destruct (HV (item labels x) (conj Hx0 HxN)) as [H0 [Hle Hatt]].
  destruct (position_of_index (shape im) x Hx) as [kx [Hkx Ekx]].
  assert (Hxv : (item im x <= nth (Z.to_nat (item labels x)) V 0)%Q).
  { rewrite <- Ekx at 1. rewrite <- (HnthI kx Hkx).
    apply Hle; [lia|]. rewrite (HnthL kx Hkx), Ekx. reflexivity. }
  cbn [mul_mask]. split.
  - intros Hn. destruct (Qltb 0 (item im x)) eqn:E; [|reflexivity].
    apply Qltb_lt in E. contradiction.
  - intros Hp. destruct (Qltb 0 (item im x)) eqn:E.
    2: { apply Qltb_ge in E. exfalso. lra. }
    destruct Hatt as [Hzero|[k [Hk [Hkl Hv]]]].
    { exfalso. rewrite Hzero in Hxv. lra. }
    rewrite HlenL in Hk. rewrite (HnthL k Hk) in Hkl. rewrite (HnthI k Hk) in Hv.
    exists (nth k (ndindex (shape im)) []).
    split; [apply index_of_position, Hk|]. split; [exact Hkl|].
    split; [rewrite Hv; reflexivity|].
    intros y' Hy' Hly'. rewrite <- Hv.
    destruct (position_of_index (shape im) y' Hy') as [k' [Hk' Ek']].
    rewrite <- Ek' at 1. rewrite <- (HnthI k' Hk').
    apply Hle; [lia|]. rewrite (HnthL k' Hk'), Ek'. exact Hly'.
Qed.

Lemma firstn_succ_nth {A : Type} (l : list A) (i : nat) (d : A) :
  (i < length l)%nat -> firstn (S i) l = firstn i l ++ [nth i l d].
Proof.
  revert i. induction l as [|h t IH]; intros i Hi; cbn [length] in Hi; [lia|].
  destruct i as [|i]; [reflexivity|].
  cbn [firstn nth app]. f_equal. apply IH. lia.
Qed.

Lemma flood_size_loop (N : Z) (L : list Z) :
  0 <= N ->
  (forall k, (k < length L)%nat -> 0 <= nth k L 0 <= N) ->
  exists V,
    for_each (fun V i =>
                j <- np_index (length V) (nth i L 0) ;;
                Ok (set_nth j (nth j V 0 + 1) V))
             (seq 0 (length L)) (repeat 0 (Z.to_nat (N + 1))) = Ok V
    /\ length V = Z.to_nat (N + 1)
    /\ forall l, 0 <= l <= N ->
         nth (Z.to_nat l) V 0 = Z.of_nat (count_occ Z.eq_dec L l).
Proof.
  intros HN HL.
  set (Inv := fun (i : nat) (V : list Z) =>
    length V = Z.to_nat (N + 1)
    /\ forall l, 0 <= l <= N ->
         nth (Z.to_nat l) V 0 = Z.of_nat (count_occ Z.eq_dec (firstn i L) l)).
  destruct (for_each_range Inv
              (fun V i =>
                 j <- np_index (length V) (nth i L 0) ;;
                 Ok (set_nth j (nth j V 0 + 1) V))
              (length L)) with (st := repeat 0 (Z.to_nat (N + 1))) as [V [Hrun [Hlen HV]]].
  - intros i V Hi [Hlen Hinv]. specialize (HL i Hi).
    rewrite np_index_ok by lia. cbn [bind].
    set (j := nth i L 0) in *.
    eexists. split; [reflexivity|]. split; [rewrite length_set_nth; exact Hlen|].
    intros l Hl. rewrite nth_set_nth by lia.
    rewrite (firstn_succ_nth L i 0 Hi), count_occ_app. fold j. cbn [count_occ].
    destruct (Nat.eqb_spec (Z.to_nat l) (Z.to_nat j)) as [E|E].
    + assert (l = j) by lia. subst l. rewrite (Hinv j HL).
      destruct (Z.eq_dec j j) as [_|Hne]; [lia | contradiction Hne; reflexivity].
    + rewrite (Hinv l Hl). destruct (Z.eq_dec j l) as [->|_]; [contradiction E; reflexivity | lia].
  - split; [apply repeat_length|].
    intros l Hl. rewrite nth_repeat_any by lia. reflexivity.
  - exists V. split; [exact Hrun|]. split; [exact Hlen|].
    intros l Hl. rewrite (HV l Hl), firstn_all. reflexivity.
Qed.

(** The body of the function after the labels are known, mode 'size'. *)
Lemma flood_size_core (im : ndarray Q) (labels : ndarray Z) (N : Z) :
  shape labels = shape im ->
  Forall (fun n => 0 < n) (shape im) ->
  (forall y, in_bounds y (shape im) = true -> 0 <= item labels y <= N) ->
  exists out,
    (V <- (n <- zeros_length (N + 1) ;;
           V <- for_each
                  (fun V i =>
                     j <- np_index (length V) (nth i (flatten labels) 0) ;;
                     Ok (set_nth j (nth j V 0 + 1) V))
                  (seq 0 (length (flatten labels))) (repeat 0 n) ;;
           Ok (map (fun c => Some (inject_Z c)) V)) ;;
     Vl <- map_result (fun l => j <- np_index (length V) l ;; Ok (nth j V None))
             (flatten labels) ;;
     im_flooded <- reshape Vl (shape im) ;;
     Ok (zip_nd mul_mask im_flooded (greater_zero_Q im))) = Ok out
    /\ shape out = shape im
    /\ forall x, in_bounds x (shape im) = true ->
         item out x
         = Some (if Qltb 0 (item im x)
                 then inject_Z (Z.of_nat (count_occ Z.eq_dec (flatten labels) (item labels x)))
                 else 0%Q).
Proof.
  intros Hs Hpos Hl.
  pose proof (in_bounds_zeros (shape im) Hpos) as Hz.
  assert (HN : 0 <= N) by (specialize (Hl _ Hz); lia).
  unfold zeros_length. destruct (Z.ltb_spec (N + 1) 0); [lia|]. cbn [bind].
  destruct (flood_size_loop N (flatten labels) HN) as [V [Hrun [HlenV HV]]].
  { intros k Hk. unfold flatten in *. rewrite length_map in Hk.
    rewrite (nth_map_lt _ _ _ 0 []) by exact Hk. rewrite Hs in *.
    apply Hl, index_of_position, Hk. }
  rewrite Hrun. cbn [bind].
  destruct (flood_tail im labels (map (fun c => Some (inject_Z c)) V) Hs Hpos)
    as [out [Hout [Hso Hi]]].
  { intros y Hy. rewrite length_map, HlenV. specialize (Hl y Hy). lia. }
  exists out. split; [exact Hout|]. split; [exact Hso|].
  intros x Hx. rewrite (Hi x Hx). destruct (Hl x Hx) as [Hx0 HxN].
  rewrite (nth_map_lt (fun c => Some (inject_Z c)) V _ None 0) by lia.
  rewrite (HV (item labels x) (conj Hx0 HxN)). reflexivity.
Qed.

Lemma flood_min_loop (N : Z) (L : list Z) (I : list Q) :
  0 <= N -> length I = length L ->
  (forall k, (k < length L)%nat -> 0 <= nth k L 0 <= N) ->
  exists V,
    for_each (fun V i =>
                j <- np_index (length V) (nth i L 0) ;;
                Ii <- get_nth I i ;;
                if gt_inf (nth j V None) Ii then Ok (set_nth j (Some Ii) V) else Ok V)
             (seq 0 (length L)) (repeat None (Z.to_nat (N + 1))) = Ok V
    /\ length V = Z.to_nat (N + 1)
    /\ forall l, 0 <= l <= N ->
         (nth (Z.to_nat l) V None = None /\ forall k, (k < length L)%nat -> nth k L 0 <> l)
         \/ exists k, (k < length L)%nat /\ nth k L 0 = l
                      /\ nth (Z.to_nat l) V None = Some (nth k I 0%Q)
                      /\ forall k', (k' < length L)%nat -> nth k' L 0 = l ->
                                    (nth k I 0 <= nth k' I 0)%Q.
Proof.
  intros HN HI HL.
  set (Inv := fun (i : nat) (V : list (option Q)) =>
    length V = Z.to_nat (N + 1)
    /\ forall l, 0 <= l <= N ->
         (nth (Z.to_nat l) V None = None /\ forall k, (k < i)%nat -> nth k L 0 <> l)
         \/ exists k, (k < i)%nat /\ nth k L 0 = l
                      /\ nth (Z.to_nat l) V None = Some (nth k I 0%Q)
                      /\ forall k', (k' < i)%nat -> nth k' L 0 = l ->
                                    (nth k I 0 <= nth k' I 0)%Q).
  destruct (for_each_range Inv
              (fun V i =>
                 j <- np_index (length V) (nth i L 0) ;;
                 Ii <- get_nth I i ;;
                 if gt_inf (nth j V None) Ii then Ok (set_nth j (Some Ii) V) else Ok V)
              (length L)) with (st := repeat (@None Q) (Z.to_nat (N + 1)))
    as [V [Hrun [Hlen HV]]].
  - intros i V Hi [Hlen Hinv]. pose proof (HL i Hi) as HLi.
    rewrite np_index_ok by lia. cbn [bind].
    rewrite (get_nth_ok I i 0%Q) by lia. cbn [bind].
    set (j := nth i L 0) in *. set (Ii := nth i I 0%Q).
    assert (Hother : forall V', length V' = Z.to_nat (N + 1) ->
              (forall l, 0 <= l <= N -> l <> j ->
                 nth (Z.to_nat l) V' None = nth (Z.to_nat l) V None) ->
              forall l, 0 <= l <= N -> l <> j ->
              (nth (Z.to_nat l) V' None = None
               /\ forall k, (k < S i)%nat -> nth k L 0 <> l)
              \/ exists k, (k < S i)%nat /\ nth k L 0 = l
                           /\ nth (Z.to_nat l) V' None = Some (nth k I 0%Q)
                           /\ forall k', (k' < S i)%nat -> nth k' L 0 = l ->
                                         (nth k I 0 <= nth k' I 0)%Q).
    { intros V' _ Hsame l Hl Hne. rewrite (Hsame l Hl Hne).
      destruct (Hinv l Hl) as [[Hnone Hno]|[k [Hk [Hkl [Hv Hmin]]]]].
      - left. split; [exact Hnone|]. intros k Hk.
        destruct (Nat.eq_dec k i) as [->|Hki]; [fold j; congruence | apply Hno; lia].
      - right. exists k. split; [lia|]. split; [exact Hkl|]. split; [exact Hv|].
        intros k' Hk' Hk'l. destruct (Nat.eq_dec k' i) as [->|Hki].
        + fold j in Hk'l. congruence.
        + apply Hmin; [lia | exact Hk'l]. }
    destruct (gt_inf (nth (Z.to_nat j) V None) Ii) eqn:Hcmp.
    + eexists. split; [reflexivity|]. split; [rewrite length_set_nth; exact Hlen|].
      intros l Hl. destruct (Z.eq_dec l j) as [->|Hne].
      * right. exists i. split; [lia|]. split; [reflexivity|].
        split; [rewrite nth_set_nth by lia; rewrite Nat.eqb_refl; reflexivity|].
        intros k' Hk' Hk'l. destruct (Nat.eq_dec k' i) as [->|Hki]; [fold Ii; lra|].
        destruct (Hinv j HLi) as [[_ Hno]|[k [Hk [Hkl [Hv Hmin]]]]].
        -- exfalso. apply (Hno k'); [lia | exact Hk'l].
        -- rewrite Hv in Hcmp. cbn [gt_inf] in Hcmp. apply Qltb_lt in Hcmp.
           specialize (Hmin k' ltac:(lia) Hk'l). fold Ii. lra.
      * apply (Hother (set_nth (Z.to_nat j) (Some Ii) V)); try assumption.
        -- rewrite length_set_nth. exact Hlen.
        -- intros l' Hl' Hne'. rewrite nth_set_nth by lia.
           destruct (Nat.eqb_spec (Z.to_nat l') (Z.to_nat j)) as [E|E]; [|reflexivity].
           exfalso. apply Hne'. lia.
    + eexists. split; [reflexivity|]. split; [exact Hlen|].
      intros l Hl. destruct (Z.eq_dec l j) as [->|Hne].
      * destruct (Hinv j HLi) as [[Hnone _]|[k [Hk [Hkl [Hv Hmin]]]]].
        -- rewrite Hnone in Hcmp. discriminate Hcmp.
        -- right. exists k. split; [lia|]. split; [exact Hkl|]. split; [exact Hv|].
           rewrite Hv in Hcmp. cbn [gt_inf] in Hcmp. apply Qltb_ge in Hcmp.
           intros k' Hk' Hk'l. destruct (Nat.eq_dec k' i) as [->|Hki]; [exact Hcmp|].
           apply Hmin; [lia | exact Hk'l].
      * apply (Hother V); try assumption. intros; reflexivity.
  - split; [apply repeat_length|]. intros l Hl. left.
    split; [apply nth_repeat_any; lia | intros k Hk; lia].
  - exists V. split; [exact Hrun|]. split; [exact Hlen|]. exact HV.
Qed.

(** The body of the function after the labels are known, mode 'min'. *)
Lemma flood_min_core (im : ndarray Q) (labels : ndarray Z) (N : Z) :
  shape labels = shape im ->
  Forall (fun n => 0 < n) (shape im) ->
  (forall y, in_bounds y (shape im) = true -> 0 <= item labels y <= N) ->
  exists out,
    (V <- (n <- zeros_length (N + 1) ;;
           for_each
             (fun V i =>
                j <- np_index (length V) (nth i (flatten labels) 0) ;;
                Ii <- get_nth (flatten im) i ;;
                if gt_inf (nth j V None) Ii then Ok (set_nth j (Some Ii) V) else Ok V)
             (seq 0 (length (flatten labels))) (repeat None n)) ;;
     Vl <- map_result (fun l => j <- np_index (length V) l ;; Ok (nth j V None))
             (flatten labels) ;;
     im_flooded <- reshape Vl (shape im) ;;
     Ok (zip_nd mul_mask im_flooded (greater_zero_Q im))) = Ok out
    /\ shape out = shape im
    /\ forall x, in_bounds x (shape im) = true ->
         exists y, in_bounds y (shape im) = true
                   /\ item labels y = item labels x
                   /\ (forall y', in_bounds y' (shape im) = true ->
                                  item labels y' = item labels x ->
                                  (item im y <= item im y')%Q)
                   /\ item out x = Some (if Qltb 0 (item im x) then item im y else 0%Q).
Proof.
  intros Hs Hpos Hl.
  pose proof (in_bounds_zeros (shape im) Hpos) as Hz.
  assert (HN : 0 <= N) by (specialize (Hl _ Hz); lia).
  unfold zeros_length. destruct (Z.ltb_spec (N + 1) 0); [lia|]. cbn [bind].
  assert (HlenL : length (flatten labels) = length (ndindex (shape im))).
  { unfold flatten. rewrite Hs, length_map. reflexivity. }
  assert (HlenI : length (flatten im) = length (ndindex (shape im))).
  { unfold flatten. rewrite length_map. reflexivity. }
  assert (HnthL : forall k, (k < length (ndindex (shape im)))%nat ->
            nth k (flatten labels) 0 = item labels (nth k (ndindex (shape im)) [])).
  { intros k Hk. unfold flatten. rewrite Hs. apply nth_map_lt, Hk. }
  assert (HnthI : forall k, (k < length (ndindex (shape im)))%nat ->
            nth k (flatten im) 0%Q = item im (nth k (ndindex (shape im)) [])).
  { intros k Hk. unfold flatten. apply nth_map_lt, Hk. }
  destruct (flood_min_loop N (flatten labels) (flatten im) HN) as [V [Hrun [HlenV HV]]].
  { congruence. }
  { intros k Hk. rewrite HlenL in Hk. rewrite (HnthL k Hk).
    apply Hl, index_of_position, Hk. }
  rewrite Hrun. cbn [bind].
  destruct (flood_tail im labels V Hs Hpos) as [out [Hout [Hso Hi]]].
  { intros y Hy. rewrite HlenV. specialize (Hl y Hy). lia. }
  exists out. split; [exact Hout|]. split; [exact Hso|].
  intros x Hx. rewrite (Hi x Hx).
  destruct (position_of_index (shape im) x Hx) as [kx [Hkx Ekx]].
  destruct (HV (item labels x) (Hl x Hx)) as [[_ Hno]|[k [Hk [Hkl [Hv Hmin]]]]].
  { exfalso. apply (Hno kx); [lia|]. rewrite (HnthL kx Hkx), Ekx. reflexivity. }
  rewrite HlenL in Hk. rewrite (HnthL k Hk) in Hkl. rewrite (HnthI k Hk) in Hv, Hmin.
  exists (nth k (ndindex (shape im)) []).
  split; [apply index_of_position, Hk|]. split; [exact Hkl|]. split.
  - intros y' Hy' Hly'.
    destruct (position_of_index (shape im) y' Hy') as [k' [Hk' Ek']].
    rewrite <- Ek' at 1. rewrite <- (HnthI k' Hk').
    apply Hmin; [lia|]. rewrite (HnthL k' Hk'), Ek'. exact Hly'.
  - rewrite Hv. reflexivity.
Qed.

Lemma prefix_min_not_max (mode : string) :
  prefix "min" mode = true -> prefix "max" mode = false.
Proof.
  destruct mode as [|c1 [|c2 rest]]; cbn [prefix]; try discriminate.
  - destruct (ascii_dec "m" c1); [discriminate | reflexivity].
  - destruct (ascii_dec "m" c1); [|reflexivity].
    destruct (ascii_dec "i" c2) as [<-|]; [|intros; discriminate].
    destruct (ascii_dec "a" "i"); [discriminate | reflexivity].
Qed.

Lemma prefix_size_not_max_min (mode : string) :
  prefix "size" mode = true -> prefix "max" mode = false /\ prefix "min" mode = false.
Proof.
  destruct mode as [|c1 rest]; cbn [prefix]; try discriminate.
  destruct (ascii_dec "s" c1) as [<-|]; [|intros; discriminate].
  destruct (ascii_dec "m" "s"); [discriminate|]. intros _. split; reflexivity.
Qed.

Section FloodRegions.

Variable im : ndarray Q.
Variable regions : ndarray Z.
Hypothesis same_shape : shape regions = shape im.
Hypothesis not_empty : Forall (fun n => 0 < n) (shape im).
Hypothesis labels_nonneg : forall y, in_bounds y (shape im) = true -> 0 <= item regions y.

Lemma flood_regions_bound :
  exists N, array_max regions = Ok N
            /\ forall y, in_bounds y (shape im) = true -> 0 <= item regions y <= N.
Proof.
  destruct (array_max_ok regions) as [N [HN [Hle _]]].
  - rewrite same_shape. exact not_empty.
  - exists N. split; [exact HN|]. intros y Hy. split; [apply labels_nonneg, Hy|].
    apply Hle. rewrite same_shape. exact Hy.
Qed.

(** X10: with regions given (same shape as the image, no negative label, no
    empty axis) and a mode that starts with 'max', flood returns at every
    voxel with a positive value the largest value of the image over the
    voxels that carry the voxel's region label, and 0 at every other voxel. *)
Theorem flood_max_of_region (mode : string) :
  prefix "max" mode = true ->
  exists out,
    porespy.flood im (Some regions) mode = Ok out
    /\ shape out = shape im
    /\ forall x, in_bounds x (shape im) = true ->
         (~ (0 < item im x)%Q -> item out x = Some 0%Q)
         /\ ((0 < item im x)%Q ->
             exists y, in_bounds y (shape im) = true
                       /\ item regions y = item regions x
                       /\ item out x = Some (item im y)
                       /\ forall y', in_bounds y' (shape im) = true ->
                                     item regions y' = item regions x ->
                                     (item im y' <= item im y)%Q).
Proof.
  intros Hmode. destruct flood_regions_bound as [N [HN Hl]].
  unfold porespy.flood. rewrite HN. cbn [bind]. rewrite Hmode.
  exact (flood_max_core im regions N same_shape not_empty Hl).
Qed.

(** X11: under the same conditions a mode that starts with 'min' gives at
    every voxel with a positive value the smallest value of the image over
    the voxels of its region, and 0 at every other voxel; no value of the
    result is infinite. *)
Theorem flood_min_of_region (mode : string) :
  prefix "min" mode = true ->
  exists out,
    porespy.flood im (Some regions) mode = Ok out
    /\ shape out = shape im
    /\ forall x, in_bounds x (shape im) = true ->
         exists y, in_bounds y (shape im) = true
                   /\ item regions y = item regions x
                   /\ (forall y', in_bounds y' (shape im) = true ->
                                  item regions y' = item regions x ->
                                  (item im y <= item im y')%Q)
                   /\ item out x = Some (if Qltb 0 (item im x) then item im y else 0%Q).
Proof.
  intros Hmode. destruct flood_regions_bound as [N [HN Hl]].
  unfold porespy.flood. rewrite HN. cbn [bind].
  rewrite (prefix_min_not_max mode Hmode), Hmode.
  exact (flood_min_core im regions N same_shape not_empty Hl).
Qed.

Lemma flood_size_values (mode : string) :
  prefix "size" mode = true ->
  exists out,
    porespy.flood im (Some regions) mode = Ok out
    /\ shape out = shape im
    /\ forall x, in_bounds x (shape im) = true ->
         item out x
         = Some (if Qltb 0 (item im x)
                 then inject_Z (Z.of_nat (count_occ Z.eq_dec (flatten regions)
                                            (item regions x)))
                 else 0%Q).
Proof.
  intros Hmode. destruct flood_regions_bound as [N [HN Hl]].
  unfold porespy.flood. rewrite HN. cbn [bind].
  destruct (prefix_size_not_max_min mode Hmode) as [-> ->]. rewrite Hmode.
  exact (flood_size_core im regions N same_shape not_empty Hl).
Qed.

(** X12: under the same conditions a mode that starts with 'size' gives at
    every voxel with a positive value the number of voxels that carry its
    region label, and 0 at every other voxel. *)
Theorem flood_size_of_region (mode : string) :
  prefix "size" mode = true ->
  exists out,
    porespy.flood im (Some regions) mode = Ok out
    /\ shape out = shape im
    /\ forall x, in_bounds x (shape im) = true ->
         item out x
         = Some (if Qltb 0 (item im x)
                 then inject_Z (Z.of_nat (count_occ Z.eq_dec (flatten regions)
                                            (item regions x)))
                 else 0%Q).
Proof. apply flood_size_values. Qed.

End FloodRegions.

Lemma flood_max_of_region_witness :
  exists out,
    porespy.flood flood_example (Some flood_regions) "max" = Ok out
    /\ shape out = shape flood_example
    /\ forall x, in_bounds x (shape flood_example) = true ->
         (~ (0 < item flood_example x)%Q -> item out x = Some 0%Q)
         /\ ((0 < item flood_example x)%Q ->
             exists y, in_bounds y (shape flood_example) = true
                       /\ item flood_regions y = item flood_regions x
                       /\ item out x = Some (item flood_example y)
                       /\ forall y', in_bounds y' (shape flood_example) = true ->
                                     item flood_regions y' = item flood_regions x ->
                                     (item flood_example y' <= item flood_example y)%Q).
Proof.
  apply flood_max_of_region.
  - reflexivity.
  - repeat constructor.
  - intros y Hy. apply item_nonneg_of_data. repeat (apply Forall_cons; [lia|]). apply Forall_nil.
  - reflexivity.
Defined.

Lemma flood_min_of_region_witness :
  exists out,
    porespy.flood flood_example (Some flood_regions) "min" = Ok out
    /\ shape out = shape flood_example
    /\ forall x, in_bounds x (shape flood_example) = true ->
         exists y, in_bounds y (shape flood_example) = true
                   /\ item flood_regions y = item flood_regions x
                   /\ (forall y', in_bounds y' (shape flood_example) = true ->
                                  item flood_regions y' = item flood_regions x ->
                                  (item flood_example y <= item flood_example y')%Q)
                   /\ item out x
                      = Some (if Qltb 0 (item flood_example x)
                              then item flood_example y else 0%Q).
Proof.
  apply flood_min_of_region.
  - reflexivity.
  - repeat constructor.
  - intros y Hy. apply item_nonneg_of_data. repeat (apply Forall_cons; [lia|]). apply Forall_nil.
  - reflexivity.
Defined.

Lemma flood_size_of_region_witness :
  exists out,
    porespy.flood flood_example (Some flood_regions) "size" = Ok out
    /\ shape out = shape flood_example
    /\ forall x, in_bounds x (shape flood_example) = true ->
         item out x
         = Some (if Qltb 0 (item flood_example x)
                 then inject_Z (Z.of_nat (count_occ Z.eq_dec (flatten flood_regions)
                                            (item flood_regions x)))
                 else 0%Q).
Proof.
  apply flood_size_of_region.
  - reflexivity.
  - repeat constructor.
  - intros y Hy. apply item_nonneg_of_data. repeat (apply Forall_cons; [lia|]). apply Forall_nil.
  - reflexivity.
Defined.

(** X9: on a labelled image (integers, none negative, no empty axis)
    region_size returns an image of the same shape that holds 0 at the voxels
    of value 0 and, at every other voxel, the number of voxels of the image
    that carry the voxel's value. *)
Theorem region_size_counts (im : ndarray Z) :
  Forall (fun n => 0 < n) (shape im) ->
  (forall y, in_bounds y (shape im) = true -> 0 <= item im y) ->
  exists out,
    region_size (IntImage im) = Ok out
    /\ shape out = shape im
    /\ forall x, in_bounds x (shape im) = true ->
         item out x
         = if item im x =? 0 then 0
           else Z.of_nat (count_occ Z.eq_dec (flatten im) (item im x)).
Proof. apply region_size_labelled. Qed.

Lemma region_size_counts_witness :
  exists out,
    region_size (IntImage flood_regions) = Ok out
    /\ shape out = shape flood_regions
    /\ forall x, in_bounds x (shape flood_regions) = true ->
         item out x
         = if item flood_regions x =? 0 then 0
           else Z.of_nat (count_occ Z.eq_dec (flatten flood_regions) (item flood_regions x)).
Proof.
  apply region_size_counts.
  - repeat constructor.
  - intros y Hy. apply item_nonneg_of_data. repeat (apply Forall_cons; [lia|]). apply Forall_nil.
Defined.

(** X13: region_size raises on an integer image without elements and on one
    that holds a negative value. *)
Theorem region_size_rejects (im : ndarray Z) :
  ndindex (shape im) = [] \/ (exists y, in_bounds y (shape im) = true /\ item im y < 0) ->
  raises (region_size (IntImage im)).
Proof.
  intros H. unfold region_size. cbn [bind]. unfold bincount.
  destruct (existsb (fun v => v <? 0) (flatten im)) eqn:E.
  - eexists. reflexivity.
  - destruct H as [Hempty|[y [Hy Hneg]]].
    + unfold flatten. rewrite Hempty. cbn. eexists. reflexivity.
    + exfalso. apply not_true_iff_false in E. apply E. apply existsb_exists.
      exists (item im y). split; [apply In_flatten; exists y; tauto | apply Z.ltb_lt, Hneg].
Qed.

Lemma region_size_rejects_witness :
  raises (region_size (IntImage (mk_ndarray [2] [-1; 2]))).
Proof.
  apply region_size_rejects. right. exists [0]. split; [reflexivity | reflexivity].
Defined.

(** X14: on a labelled image without negative labels, flood in mode 'size'
    with the image itself as regions returns the sizes that region_size
    returns. *)
Theorem flood_size_is_region_size (labels : ndarray Z) (mode : string) :
  Forall (fun n => 0 < n) (shape labels) ->
  (forall y, in_bounds y (shape labels) = true -> 0 <= item labels y) ->
  prefix "size" mode = true ->
  exists out sizes,
    porespy.flood (map_nd inject_Z labels) (Some labels) mode = Ok out
    /\ region_size (IntImage labels) = Ok sizes
    /\ shape out = shape sizes
    /\ forall x, in_bounds x (shape labels) = true ->
         item out x = Some (inject_Z (item sizes x)).
Proof.
  intros Hpos Hnn Hmode.
  destruct (flood_size_values (map_nd inject_Z labels) labels eq_refl Hpos Hnn mode Hmode)
    as [out [Hout [Hso Hi]]].
  destruct (region_size_labelled labels Hpos Hnn) as [sizes [Hsz [Hss Hj]]].
  exists out, sizes. split; [exact Hout|]. split; [exact Hsz|].
  split; [rewrite Hso, Hss; reflexivity|].
  intros x Hx. rewrite (Hi x Hx), (Hj x Hx). rewrite item_map_nd by exact Hx.
  specialize (Hnn x Hx). f_equal.
  destruct (item labels x) as [|p|p] eqn:E; [reflexivity | reflexivity | lia].
Qed.

Lemma flood_size_is_region_size_witness :
  exists out sizes,
    porespy.flood (map_nd inject_Z flood_regions) (Some flood_regions) "size" = Ok out
    /\ region_size (IntImage flood_regions) = Ok sizes
    /\ shape out = shape sizes
    /\ forall x, in_bounds x (shape flood_regions) = true ->
         item out x = Some (inject_Z (item sizes x)).
Proof.
  apply flood_size_is_region_size.
  - repeat constructor.
  - intros y Hy. apply item_nonneg_of_data. repeat (apply Forall_cons; [lia|]). apply Forall_nil.
  - reflexivity.
Defined.

(** * Connected components: what scipy.ndimage.label computes *)

(** ** Counting the true elements of an image *)

Lemma filter_length_le {A : Type} (f g : A -> bool) (l : list A) :
  (forall x, In x l -> f x = true -> g x = true) ->
  (length (filter f l) <= length (filter g l))%nat.
Proof.
  induction l as [|a l IH]; intros H; cbn [filter]; [lia|].
  assert (IH' := IH (fun x Hx => H x (or_intror Hx))).
  destruct (f a) eqn:Ef.
  - rewrite (H a (or_introl eq_refl) Ef). cbn [length]. lia.
  - destruct (g a); cbn [length]; lia.
Qed.

Lemma filter_length_lt {A : Type} (f g : A -> bool) (l : list A) (a : A) :
  (forall x, In x l -> f x = true -> g x = true) ->
  In a l -> f a = false -> g a = true ->
  (length (filter f l) < length (filter g l))%nat.
Proof.
  induction l as [|b l IH]; intros H Hin Hf Hg; [destruct Hin|].
  cbn [filter]. destruct Hin as [->|Hin].
  - rewrite Hf, Hg. cbn [length].
    pose proof (filter_length_le f g l (fun x Hx => H x (or_intror Hx))). lia.
  - assert (IH' := IH (fun x Hx => H x (or_intror Hx)) Hin Hf Hg).
    destruct (f b) eqn:Ef.
    + rewrite (H b (or_introl eq_refl) Ef). cbn [length]. lia.
    + destruct (g b); cbn [length]; lia.
Qed.

Lemma NoDup_ndindex (sh : list Z) : NoDup (ndindex sh).
Proof.
  induction sh as [|n sh IH]; cbn [ndindex].
  - constructor; [intros [] | constructor].
  - unfold arange. generalize (seq 0 (Z.to_nat n)) (seq_NoDup (Z.to_nat n) 0).
    intros l Hl. induction Hl as [|i l Hi Hl IHl]; cbn [map flat_map]; [constructor|].
    apply NoDup_app.
    + apply Finite.Injective_map_NoDup; [|exact IH]. intros x y E. injection E. tauto.
    + exact IHl.
    + intros x Hx Hx'. apply in_map_iff in Hx. destruct Hx as [y [<- _]].
      apply in_flat_map in Hx'. destruct Hx' as [j [Hj Hx']].
      apply in_map_iff in Hx'. destruct Hx' as [y' [E _]]. injection E as E _.
      apply in_map_iff in Hj. destruct Hj as [k [<- Hk]].
      apply Nat2Z.inj in E. subst k. contradiction.
Qed.

(** The position of an index in the data is its place in C order; a true
    element is read from the data, so there are at most as many true
    elements as the data is long. *)
Lemma count_true_le_data (a : ndarray bool) :
  (length (filter (item a) (ndindex (shape a))) <= length (data a))%nat.
Proof.
  set (l := filter (item a) (ndindex (shape a))).
  set (pos := fun x => Z.to_nat (ravel_multi_index x (shape a))).
  assert (Hnd : NoDup (map pos l)).
  { assert (Hl : NoDup l) by (apply NoDup_filter, NoDup_ndindex).
    assert (Hin : forall x, In x l -> in_bounds x (shape a) = true).
    { intros x Hx. apply filter_In in Hx. apply In_ndindex. tauto. }
    induction Hl as [|x l' Hx Hl' IH]; cbn [map]; constructor.
    - intros Hm. apply in_map_iff in Hm. destruct Hm as [y [E Hy]].
      pose proof (nth_error_ndindex x (shape a) (Hin x (or_introl eq_refl))) as Ex.
      pose proof (nth_error_ndindex y (shape a) (Hin y (or_intror Hy))) as Ey.
      unfold pos in E. rewrite E in Ey. rewrite Ey in Ex. injection Ex as ->.
      contradiction.
    - apply IH. intros y Hy. apply Hin. right. exact Hy. }
  rewrite <- (length_map pos l), <- (length_seq (length (data a)) 0).
  apply NoDup_incl_length; [exact Hnd|].
  intros k Hk. apply in_map_iff in Hk. destruct Hk as [x [<- Hx]].
  apply filter_In in Hx. destruct Hx as [Hx Hit]. apply In_ndindex in Hx.
  apply in_seq. split; [lia|]. cbn [plus].
  unfold item in Hit. rewrite Hx in Hit. fold (pos x) in Hit.
  destruct (Nat.lt_ge_cases (pos x) (length (data a))) as [Hlt|Hge]; [exact Hlt|].
  rewrite nth_overflow in Hit by exact Hge. discriminate Hit.
Qed.

(** ** The flood fill reaches its fixed point *)

Lemma item_grow (offs : list index) (input comp : ndarray bool) (x : index) :
  in_bounds x (shape input) = true ->
  item (grow offs input comp) x
  = item input x && (item comp x || existsb (fun o => item comp (index_sub x o)) offs).
Proof. intros Hx. unfold grow. rewrite item_fromfunction by exact Hx. reflexivity. Qed.

Lemma forallb_false_witness {A : Type} (f : A -> bool) (l : list A) :
  forallb f l = false -> exists x, In x l /\ f x = false.
Proof.
  induction l as [|a l IH]; cbn [forallb]; [discriminate|].
  destruct (f a) eqn:E; cbn [andb].
  - intros H. destruct (IH H) as [x [Hx Hf]]. exists x. split; [right; exact Hx | exact Hf].
  - intros _. exists a. split; [left; reflexivity | exact E].
Qed.

Lemma forallb_map_list {A B : Type} (f : B -> bool) (g : A -> B) (l : list A) :
  forallb f (map g l) = forallb (fun x => f (g x)) l.
Proof. induction l as [|a l IH]; cbn [map forallb]; [reflexivity|]. rewrite IH. reflexivity. Qed.

Lemma np_all_equal_bool_false (a b : ndarray bool) :
  np_all (equal_bool a b) = false ->
  exists x, in_bounds x (shape a) = true /\ item a x <> item b x.
Proof.
  unfold np_all, equal_bool, zip_nd, fromfunction. cbn [data]. rewrite forallb_map_list.
  intros H. apply forallb_false_witness in H. destruct H as [x [Hx Hf]].
  exists x. split; [apply In_ndindex, Hx|]. intros E. rewrite E in Hf.
  rewrite eqb_reflx in Hf. discriminate Hf.
Qed.

Section Flood.

Variable offs : list index.
Variable input : ndarray bool.

Let count (a : ndarray bool) : nat := length (filter (item a) (ndindex (shape input))).

Lemma grow_increases (comp : ndarray bool) (x : index) :
  (forall y, item comp y = true -> item input y = true) ->
  item comp x = true -> item (grow offs input comp) x = true.
Proof.
  intros Hc Hx. pose proof (Hc x Hx) as Hi.
  rewrite item_grow by (apply item_true_in_bounds, Hi). rewrite Hi, Hx. reflexivity.
Qed.

Lemma flood_closed (fuel : nat) :
  forall comp : ndarray bool,
  (forall y, item comp y = true -> item input y = true) ->
  (count input < count comp + fuel)%nat ->
  (forall x, item comp x = true -> item (flood fuel offs input comp) x = true)
  /\ (forall x, in_bounds x (shape input) = true ->
                item (grow offs input (flood fuel offs input comp)) x
                = item (flood fuel offs input comp) x).
Proof.
  induction fuel as [|fuel IH]; intros comp Hc Hfuel.
  - exfalso. assert ((count comp <= count input)%nat).
    { apply filter_length_le. intros x _. apply Hc. }
    lia.
  - cbn [flood]. destruct (np_all (equal_bool (grow offs input comp) comp)) eqn:E.
    + split; [tauto|]. intros x Hx.
      apply (proj1 (np_all_equal_bool _ _) E). exact Hx.
    + apply np_all_equal_bool_false in E. destruct E as [x [Hx Hne]].
      change (shape (grow offs input comp)) with (shape input) in Hx.
      assert (Hx' : item comp x = false /\ item (grow offs input comp) x = true).
      { destruct (item comp x) eqn:Ec.
        - exfalso. apply Hne. apply grow_increases; assumption.
        - split; [reflexivity|]. destruct (item (grow offs input comp) x); congruence. }
      destruct (IH (grow offs input comp)) as [Hsub Hfix].
      * intros y Hy. apply (grow_sub _ _ _ _ Hy).
      * assert ((count comp < count (grow offs input comp))%nat).
        { apply (filter_length_lt _ _ _ x).
          - intros y _ Hy. apply grow_increases; assumption.
          - apply In_ndindex, Hx.
          - tauto.
          - tauto. }
        lia.
      * split; [|exact Hfix]. intros y Hy. apply Hsub. apply grow_increases; assumption.
Qed.

Variable seed : index.
Hypothesis seed_true : item input seed = true.

Lemma seed_in_bounds : in_bounds seed (shape input) = true.
Proof. apply item_true_in_bounds, seed_true. Qed.

Lemma index_eqb_eq (x y : index) : index_eqb x y = true <-> x = y.
Proof.
  revert y. induction x as [|i x IH]; intros [|j y]; cbn [index_eqb]; split;
    try discriminate; try reflexivity.
  - intros H. apply andb_true_iff in H. destruct H as [Hi Hx].
    apply Z.eqb_eq in Hi. apply IH in Hx. congruence.
  - intros E. injection E as -> ->. rewrite Z.eqb_refl. apply IH. reflexivity.
Qed.

Lemma item_seed (x : index) :
  item (fromfunction (shape input) (fun x => item input x && index_eqb x seed)) x = true
  <-> x = seed.
Proof.
  split.
  - intros H. pose proof (item_true_in_bounds _ _ H) as Hx. cbn [shape fromfunction] in Hx.
    rewrite item_fromfunction in H by exact Hx. apply andb_true_iff in H.
    apply index_eqb_eq. tauto.
  - intros ->. rewrite item_fromfunction by exact seed_in_bounds.
    rewrite seed_true. apply index_eqb_eq. reflexivity.
Qed.

Lemma component_closed :
  item (component offs input seed) seed = true
  /\ (forall x, in_bounds x (shape input) = true ->
                item (grow offs input (component offs input seed)) x
                = item (component offs input seed) x).
Proof.
  unfold component.
  destruct (flood_closed (length (data input))
              (fromfunction (shape input) (fun x => item input x && index_eqb x seed)))
    as [Hsub Hfix].
  - intros y Hy. apply item_seed in Hy. subst y. exact seed_true.
  - pose proof (count_true_le_data input) as Hle. fold (count input) in Hle.
    assert ((1 <= count (fromfunction (shape input)
                           (fun x => item input x && index_eqb x seed)))%nat).
    { unfold count.
      assert (Hin : In seed (filter (item (fromfunction (shape input)
                       (fun x => item input x && index_eqb x seed)))
                       (ndindex (shape input)))).
      { apply filter_In. split; [apply In_ndindex, seed_in_bounds|].
        apply item_seed. reflexivity. }
      destruct (filter _ _); [destruct Hin | cbn [length]; lia]. }
    lia.
  - split; [|exact Hfix]. apply Hsub. apply item_seed. reflexivity.
Qed.

(** The component of a seed is the set of voxels reached from it. *)
Lemma component_reach (x : index) :
  item (component offs input seed) x = true <-> reach offs input seed x.
Proof.
  split.
  - unfold component. generalize (length (data input)).
    assert (H0 : forall y,
              item (fromfunction (shape input)
                      (fun x => item input x && index_eqb x seed)) y = true ->
              reach offs input seed y).
    { intros y Hy. apply item_seed in Hy. subst y. apply reach_seed, seed_true. }
    revert H0. generalize (fromfunction (shape input)
                             (fun x => item input x && index_eqb x seed)).
    intros comp Hcomp fuel. revert comp Hcomp x.
    induction fuel as [|fuel IH]; intros comp Hcomp x Hx; cbn [flood] in Hx.
    + apply Hcomp, Hx.
    + destruct (np_all (equal_bool (grow offs input comp) comp)); [apply Hcomp, Hx|].
      apply (IH (grow offs input comp)); [|exact Hx].
      intros y Hy. pose proof (item_true_in_bounds _ _ Hy) as Hb.
      change (shape (grow offs input comp)) with (shape input) in Hb.
      rewrite item_grow in Hy by exact Hb. apply andb_true_iff in Hy.
      destruct Hy as [Hin Hy]. apply orb_true_iff in Hy. destruct Hy as [Hy|Hy].
      * apply Hcomp, Hy.
      * apply existsb_exists in Hy. destruct Hy as [o [Ho Hy]].
        eapply reach_step; [apply Hcomp, Hy | exact Ho | reflexivity | exact Hin].
  - destruct component_closed as [Hseed Hfix].
    induction 1 as [_|x y o Hr IH Ho Hsub Hin]; [exact Hseed|].
    rewrite <- Hfix by (apply item_true_in_bounds, Hin).
    rewrite item_grow by (apply item_true_in_bounds, Hin).
    rewrite Hin. cbn [andb]. apply orb_true_iff. right.
    apply existsb_exists. exists o. split; [exact Ho|]. rewrite Hsub. exact IH.
Qed.

End Flood.

(** ** Reachability is an equivalence on the true voxels *)

Lemma reach_true (offs : list index) (input : ndarray bool) (s x : index) :
  reach offs input s x -> item input s = true /\ item input x = true.
Proof. induction 1 as [H|x y o _ IH _ _ Hx]; tauto. Qed.

Lemma reach_trans (offs : list index) (input : ndarray bool) (s y x : index) :
  reach offs input s y -> reach offs input y x -> reach offs input s x.
Proof.
  intros Hsy Hyx. induction Hyx as [_|x z o _ IH Ho Hsub Hx]; [exact Hsy|].
  eapply reach_step; [exact IH | exact Ho | exact Hsub | exact Hx].
Qed.

Lemma index_sub_opp (x o : index) :
  length o = length x -> index_sub (index_sub x o) (map Z.opp o) = x.
Proof.
  revert o. induction x as [|i x IH]; intros [|c o] H; try discriminate H; [reflexivity|].
  unfold index_sub in *. cbn [combine map fst snd]. f_equal; [lia|].
  apply IH. cbn [length] in H. lia.
Qed.

Lemma reach_sym (offs : list index) (input : ndarray bool) (s x : index) :
  symmetric_offsets (length (shape input)) offs ->
  reach offs input s x -> reach offs input x s.
Proof.
  intros Hsym. induction 1 as [H|x y o Hr IH Ho Hsub Hx]; [apply reach_seed, H|].
  apply (reach_trans offs input x y s); [|exact IH].
  destruct (Hsym o Ho) as [Hlen Hopp].
  pose proof (proj2 (reach_true offs input s y Hr)) as Hy.
  eapply reach_step; [apply reach_seed, Hx | exact Hopp | | exact Hy].
  rewrite <- Hsub. apply index_sub_opp.
  rewrite Hlen. symmetry. apply in_bounds_length, item_true_in_bounds, Hx.
Qed.

(** ** The scan of label *)

Section LabelScan.

Variable offs : list index.
Variable input : ndarray bool.
Hypothesis offs_symmetric : symmetric_offsets (length (shape input)) offs.

Lemma label_scan_spec (todo : list index) :
  forall done labels n,
  labelled_upto offs input done labels n ->
  labelled_upto offs input (done ++ todo)
    (fst (label_scan todo offs input labels n)) (snd (label_scan todo offs input labels n)).
Proof.
  induction todo as [|x todo IH]; intros done labels n Hinv; cbn [label_scan].
  - rewrite app_nil_r. exact Hinv.
  - replace (done ++ x :: todo) with ((done ++ [x]) ++ todo)
      by (rewrite <- app_assoc; reflexivity).
    destruct Hinv as [Hn [H1 [H2 [H3 H4]]]].
    destruct (item input x && (item labels x =? 0)) eqn:Etest.
    + apply andb_true_iff in Etest. destruct Etest as [Hx Hx0]. apply Z.eqb_eq in Hx0.
      apply IH.
      set (comp := component offs input x).
      set (labels' := fromfunction (shape input)
                        (fun y => if item comp y then n + 1 else item labels y)).
      assert (Hcomp : forall z, item comp z = true <-> reach offs input x z).
      { intros z. apply component_reach, Hx. }
      assert (Hitem : forall y, item labels' y = if item comp y then n + 1 else item labels y).
      { intros y. destruct (in_bounds y (shape input)) eqn:Hb.
        - unfold labels'. rewrite item_fromfunction by exact Hb. reflexivity.
        - unfold labels'. rewrite item_out_of_bounds by exact Hb.
          destruct (item comp y) eqn:Ec.
          + apply Hcomp, reach_true in Ec. destruct Ec as [_ Ec].
            apply item_true_in_bounds in Ec. congruence.
          + destruct (Z.eq_dec (item labels y) 0) as [E|E]; [symmetry; exact E|].
            apply H1 in E. destruct E as [E _]. apply item_true_in_bounds in E. congruence. }
      assert (Hdisj : forall z, item comp z = true -> item labels z = 0).
      { intros z Hz. destruct (Z.eq_dec (item labels z) 0) as [E|E]; [exact E|].
        exfalso. apply Hcomp in Hz.
        pose proof (reach_sym offs input x z offs_symmetric Hz) as Hzx.
        apply (H3 z x E) in Hzx. congruence. }
      split; [lia|]. split; [|split; [|split]].
      * intros y Hy. rewrite Hitem in Hy |- *. destruct (item comp y) eqn:Ec.
        -- split; [|lia]. apply Hcomp, reach_true in Ec. tauto.
        -- destruct (H1 y Hy). split; [assumption | lia].
      * intros y Hy Hin. rewrite Hitem. destruct (item comp y) eqn:Ec; [lia|].
        apply in_app_or in Hy. destruct Hy as [Hy|[<-|[]]].
        -- apply H2; assumption.
        -- exfalso. assert (item comp x = true) by (apply Hcomp, reach_seed, Hx). congruence.
      * intros y z Hy. rewrite !Hitem in *. destruct (item comp y) eqn:Ecy.
        -- pose proof (proj1 (Hcomp y) Ecy) as Hxy.
           destruct (item comp z) eqn:Ecz.
           ++ split; [|reflexivity]. intros _.
              apply (reach_trans offs input y x z); [|apply Hcomp, Ecz].
              apply reach_sym; assumption.
           ++ split.
              ** intros E. exfalso.
                 destruct (Z.eq_dec (item labels z) 0) as [E0|E0]; [lia|].
                 apply H1 in E0. lia.
              ** intros Hyz. exfalso.
                 assert (item comp z = true)
                   by (apply Hcomp; apply (reach_trans offs input x y z); assumption).
                 congruence.
        -- destruct (H1 y Hy) as [_ Hrange]. destruct (item comp z) eqn:Ecz.
           ++ split; [intros E; lia|]. intros Hyz. exfalso.
              apply (H3 y z Hy) in Hyz. rewrite (Hdisj z Ecz) in Hyz. congruence.
           ++ apply H3, Hy.
      * intros l Hl. destruct (Z.eq_dec l (n + 1)) as [->|Hne].
        -- exists x. rewrite Hitem.
           assert (item comp x = true) as -> by (apply Hcomp, reach_seed, Hx). reflexivity.
        -- destruct (H4 l ltac:(lia)) as [y Hy]. exists y. rewrite Hitem.
           destruct (item comp y) eqn:Ec; [|exact Hy].
           rewrite (Hdisj y Ec) in Hy. lia.
    + apply IH. split; [exact Hn|]. split; [exact H1|]. split; [|split; [exact H3 | exact H4]].
      intros y Hy Hin. apply in_app_or in Hy. destruct Hy as [Hy|[<-|[]]].
      * apply H2; assumption.
      * rewrite Hin in Etest. cbn [andb] in Etest. apply Z.eqb_neq in Etest. exact Etest.
Qed.

End LabelScan.

(** The features of label are the classes of mutually reachable voxels. *)
Lemma label_components (input structure : ndarray bool) :
  same_rank input structure = true ->
  symmetric_offsets (length (shape input)) (offsets structure) ->
  exists labels N,
    label input structure = Ok (labels, N)
    /\ shape labels = shape input
    /\ 0 <= N
    /\ (forall y, item labels y <> 0 -> item input y = true /\ 1 <= item labels y <= N)
    /\ (forall y, item input y = true -> item labels y <> 0)
    /\ (forall y z, item labels y <> 0 ->
                    (item labels z = item labels y <-> reach (offsets structure) input y z))
    /\ (forall l, 1 <= l <= N -> exists y, item labels y = l).
Proof.
  intros Hrank Hsym. unfold label. rewrite Hrank.
  pose proof (label_scan_spec (offsets structure) input Hsym (ndindex (shape input))
                [] (full (shape input) 0) 0) as H.
  destruct (label_scan (ndindex (shape input)) (offsets structure) input
              (full (shape input) 0) 0) as [labels N] eqn:E.
  exists labels, N. split; [reflexivity|]. split.
  { change labels with (fst (labels, N)). rewrite <- E. apply label_scan_shape. reflexivity. }
  cbn [fst snd app] in H. destruct H as [HN [H1 [H2 [H3 H4]]]].
  - assert (Hz : forall y, item (full (shape input) 0) y = 0).
    { intros y. apply (item_full_fill (shape input) y). }
    split; [lia|]. split; [intros y Hy; rewrite Hz in Hy; congruence|].
    split; [intros y []|]. split; [intros y z Hy; rewrite Hz in Hy; congruence|].
    intros l Hl. lia.
  - split; [exact HN|]. split; [exact H1|]. split; [|split; [exact H3 | exact H4]].
    intros y Hy. apply H2; [|exact Hy]. apply In_ndindex, item_true_in_bounds, Hy.
Qed.

(** ** The structuring elements are symmetric *)

Lemma symmetric_offsetsb_ok (rank : nat) (offs : list index) :
  symmetric_offsetsb rank offs = true -> symmetric_offsets rank offs.
Proof.
  unfold symmetric_offsetsb. rewrite forallb_forall. intros H o Ho.
  specialize (H o Ho). apply andb_true_iff in H. destruct H as [Hl He].
  apply Nat.eqb_eq in Hl. apply existsb_exists in He. destruct He as [o' [Ho' E]].
  apply index_eqb_eq in E. subst o'. tauto.
Qed.

Lemma sum_sq_opp (v : index) : sum_sq (map Z.opp v) = sum_sq v.
Proof. induction v as [|c v IH]; cbn [map sum_sq fold_right] in *; [reflexivity|]. unfold sum_sq in IH. rewrite IH. lia. Qed.

Lemma mirror_in_bounds (rank : nat) (p : index) :
  in_bounds p (repeat 3 rank) = true ->
  in_bounds (map (fun c => 2 - c) p) (repeat 3 rank) = true
  /\ index_sub (map (fun c => 2 - c) p) (repeat 1 rank)
     = map Z.opp (index_sub p (repeat 1 rank)).
Proof.
  revert p. induction rank as [|rank IH]; intros [|c p] H; try discriminate H.
  - split; reflexivity.
  - cbn [repeat in_bounds map] in *. apply andb_true_iff in H. destruct H as [Hc Hp].
    apply andb_true_iff in Hc. destruct Hc as [Hc0 Hc1].
    apply Z.leb_le in Hc0. apply Z.ltb_lt in Hc1.
    destruct (IH p Hp) as [Hb Hs]. split.
    + rewrite Hb. apply andb_true_iff. split; [|reflexivity].
      apply andb_true_iff. split; [apply Z.leb_le | apply Z.ltb_lt]; lia.
    + unfold index_sub in *. cbn [combine map fst snd]. rewrite Hs. f_equal. lia.
Qed.

Lemma symmetric_generate_binary_structure (rank : nat) :
  symmetric_offsets rank (offsets (generate_binary_structure rank)).
Proof.
  intros o Ho. unfold offsets in Ho. cbn [shape generate_binary_structure fromfunction] in Ho.
  assert (Hc : map (fun n => n / 2) (repeat 3 rank) = repeat 1 rank).
  { rewrite map_repeat. reflexivity. }
  rewrite Hc in Ho. apply in_map_iff in Ho. destruct Ho as [p [<- Hp]].
  apply filter_In in Hp. destruct Hp as [Hp Hit]. apply In_ndindex in Hp.
  destruct (mirror_in_bounds rank p Hp) as [Hb Hs]. split.
  - rewrite length_index_sub; rewrite (in_bounds_length _ _ Hp), repeat_length;
      [reflexivity | rewrite repeat_length; reflexivity].
  - unfold offsets. cbn [shape generate_binary_structure fromfunction]. rewrite Hc.
    apply in_map_iff. exists (map (fun c => 2 - c) p). split; [exact Hs|].
    apply filter_In. split; [apply In_ndindex, Hb|].
    unfold generate_binary_structure in *. rewrite item_fromfunction in * by assumption.
    rewrite Hs, sum_sq_opp. exact Hit.
Qed.

Lemma symmetric_square3 : symmetric_offsets 2 (offsets (square 3)).
Proof. apply symmetric_offsetsb_ok. vm_compute. reflexivity. Qed.

Lemma symmetric_cube3 : symmetric_offsets 3 (offsets (cube 3)).
Proof. apply symmetric_offsetsb_ok. vm_compute. reflexivity. Qed.

Lemma symmetric_disk1 : symmetric_offsets 2 (offsets (disk 1)).
Proof. apply symmetric_offsetsb_ok. vm_compute. reflexivity. Qed.

Lemma symmetric_ball1 : symmetric_offsets 3 (offsets (ball 1)).
Proof. apply symmetric_offsetsb_ok. vm_compute. reflexivity. Qed.

(** ** clear_border on the labels of a labelled image *)

Lemma inclb_ok (l l' : list index) : inclb l l' = true -> incl l l'.
Proof.
  unfold inclb. rewrite forallb_forall. intros H o Ho. specialize (H o Ho).
  apply existsb_exists in H. destruct H as [o' [Ho' E]].
  apply index_eqb_eq in E. subst o'. exact Ho'.
Qed.

Lemma reach_mono (offs offs' : list index) (input input' : ndarray bool) (x y : index) :
  incl offs offs' ->
  (forall z, reach offs input x z -> item input' z = true) ->
  reach offs input x y -> reach offs' input' x y.
Proof.
  intros Hincl Hin. induction 1 as [H|z w o Hr IH Ho Hsub Hz].
  - apply reach_seed. apply Hin. apply reach_seed, H.
  - eapply reach_step; [exact IH | apply Hincl, Ho | exact Hsub |].
    apply Hin. eapply reach_step; [exact Hr | exact Ho | exact Hsub | exact Hz].
Qed.

Lemma existsb_agree {A : Type} (f g : A -> bool) (l : list A) :
  (forall a, In a l -> f a = g a) -> existsb f l = existsb g l.
Proof.
  induction l as [|a l IH]; intros H; cbn [existsb]; [reflexivity|].
  rewrite (H a (or_introl eq_refl)), IH; [reflexivity|].
  intros b Hb. apply H. right. exact Hb.
Qed.

Section ClearBorder.

Variable offs : list index.
Variable input : ndarray bool.
Variable labels : ndarray Z.

Hypothesis labels_shape : shape labels = shape input.
Hypothesis not_empty : Forall (fun n => 0 < n) (shape input).
Hypothesis offs_full : incl offs (offsets (full_structure (length (shape input)))).
Hypothesis labelled_classes :
  forall y z, item labels y <> 0 -> (item labels z = item labels y <-> reach offs input y z).

Lemma region_is_class (x y : index) :
  in_bounds x (shape input) = true ->
  item labels x <> 0 ->
  in_bounds y (shape input) = true ->
  item (component (offsets (full_structure (length (shape labels))))
          (map_nd (fun w => w =? item labels x) labels) x) y
  = (item labels y =? item labels x).
Proof.
  intros Hx Hv Hy.
  set (same := map_nd (fun w => w =? item labels x) labels).
  assert (Hsame : forall z, item same z = true <->
                            in_bounds z (shape input) = true /\ item labels z = item labels x).
  { intros z. split.
    - intros H. pose proof (item_true_in_bounds _ _ H) as Hz.
      change (shape same) with (shape labels) in Hz.
      unfold same in H. rewrite item_map_nd in H by exact Hz.
      apply Z.eqb_eq in H. rewrite labels_shape in Hz. tauto.
    - intros [Hz E]. unfold same. rewrite item_map_nd by (rewrite labels_shape; exact Hz).
      apply Z.eqb_eq, E. }
  assert (Hseed : item same x = true) by (apply Hsame; tauto).
  destruct (Z.eqb_spec (item labels y) (item labels x)) as [E|E].
  - apply (component_reach _ same x Hseed). rewrite labels_shape.
    apply (reach_mono offs _ input same x y offs_full).
    + intros z Hz. apply Hsame. split.
      * apply item_true_in_bounds. apply (reach_true offs input x z Hz).
      * apply (labelled_classes x z Hv), Hz.
    + apply (labelled_classes x y Hv), E.
  - apply not_true_is_false. intros H.
    apply (component_reach _ same x Hseed) in H. apply reach_true in H.
    destruct H as [_ H]. apply Hsame in H. tauto.
Qed.

Lemma clear_border_labelled :
  exists cleared,
    clear_border labels = Ok cleared
    /\ shape cleared = shape input
    /\ forall x, in_bounds x (shape input) = true ->
         item cleared x
         = if existsb (fun y => (item labels y =? item labels x)
                                && on_border (shape input) y) (ndindex (shape input))
           then 0 else item labels x.
Proof.
  unfold clear_border.
  replace (existsb (fun s => s <=? 0) (shape labels)) with false.
  2: { symmetry. apply not_true_is_false. intros E. apply existsb_exists in E.
       destruct E as [n [Hn E]]. rewrite labels_shape in Hn.
       rewrite Forall_forall in not_empty. specialize (not_empty n Hn).
       apply Z.leb_le in E. lia. }
  eexists. split; [reflexivity|]. split; [exact labels_shape|].
  intros x Hx. rewrite item_fromfunction by (rewrite labels_shape; exact Hx). cbv zeta.
  destruct (Z.eqb_spec (item labels x) 0) as [E|E].
  - rewrite E. destruct (existsb _ _); reflexivity.
  - rewrite (existsb_agree _ (fun y => (item labels y =? item labels x)
                                       && on_border (shape input) y)).
    + rewrite labels_shape. reflexivity.
    + intros y Hy. apply In_ndindex in Hy. rewrite labels_shape in Hy.
      rewrite (region_is_class x y Hx E Hy), labels_shape. reflexivity.
Qed.

End ClearBorder.

(** ** find_disconnected_voxels *)

Lemma disconnected_core (im strel : ndarray bool) :
  same_rank im strel = true ->
  symmetric_offsets (length (shape im)) (offsets strel) ->
  incl (offsets strel) (offsets (full_structure (length (shape im)))) ->
  Forall (fun n => 0 < n) (shape im) ->
  exists holes,
    ('(labels, N) <- label im strel ;;
     cleared <- clear_border labels ;;
     Ok (map_nd (fun v => 0 <? v) cleared)) = Ok holes
    /\ shape holes = shape im
    /\ forall x,
         (item holes x = true <->
          item im x = true /\ ~ touches_border (offsets strel) im x)
         /\ (item im x = true -> item holes x = false ->
             touches_border (offsets strel) im x).
Proof.
  intros Hrank Hsym Hincl Hpos.
  destruct (label_components im strel Hrank Hsym)
    as [labels [N [Hlab [Hshape [HN [H1 [H2 [H3 _]]]]]]]].
  rewrite Hlab. cbn [bind].
  destruct (clear_border_labelled (offsets strel) im labels Hshape Hpos Hincl H3)
    as [cleared [Hcl [Hsc Hitem]]].
  rewrite Hcl. cbn [bind]. eexists. split; [reflexivity|].
  split; [cbn [shape map_nd fromfunction]; exact Hsc|].
  intros x. destruct (in_bounds x (shape im)) eqn:Hx.
  2: { assert (Hh : item (map_nd (fun v => 0 <? v) cleared) x = false).
       { apply item_out_of_bounds. cbn [shape map_nd fromfunction]. rewrite Hsc. exact Hx. }
       assert (Hi : item im x = false) by (apply item_out_of_bounds, Hx).
       rewrite Hh, Hi. split; [split; [discriminate | intros [? _]; discriminate] | discriminate]. }
  rewrite item_map_nd by (rewrite Hsc; exact Hx). rewrite (Hitem x Hx).
  set (hit := existsb _ _).
  assert (Hhit : item labels x <> 0 ->
                 (hit = true <-> touches_border (offsets strel) im x)).
  { intros Hl. unfold hit. rewrite existsb_exists. split.
    - intros [y [_ Hy]]. apply andb_true_iff in Hy. destruct Hy as [Hy Hb].
      apply Z.eqb_eq in Hy. exists y. split; [apply (H3 x y Hl), Hy | exact Hb].
    - intros [y [Hr Hb]]. exists y. split.
      + apply In_ndindex, item_true_in_bounds. apply (reach_true _ _ _ _ Hr).
      + apply andb_true_iff. split; [apply Z.eqb_eq, (H3 x y Hl), Hr | exact Hb]. }
  destruct (Z.eq_dec (item labels x) 0) as [E|E].
  - assert (Hi : item im x = false).
    { apply not_true_is_false. intros Hi. apply H2 in Hi. contradiction. }
    rewrite Hi. rewrite E. destruct hit; cbn.
    + split; [split; [discriminate | intros [? _]; discriminate] | discriminate].
    + split; [split; [discriminate | intros [? _]; discriminate] | discriminate].
  - destruct (H1 x E) as [Hi Hrange]. specialize (Hhit E). destruct hit eqn:Eh.
    + split; [split; [discriminate|] | intros _ _; apply Hhit; reflexivity].
      intros [_ Hn]. exfalso. apply Hn, Hhit. reflexivity.
    + split.
      * split; [|intros _; apply Z.ltb_lt; lia].
        intros _. split; [exact Hi|]. intros Ht. apply Hhit in Ht. discriminate Ht.
      * intros _ Hf. apply Z.ltb_ge in Hf. lia.
Qed.

Lemma structure_facts (im : ndarray bool) (conn : option Z) (strel : ndarray bool) :
  connectivity_structure im conn = Ok strel ->
  same_rank im strel = true
  /\ symmetric_offsets (length (shape im)) (offsets strel)
  /\ incl (offsets strel) (offsets (full_structure (length (shape im)))).
Proof.
  unfold connectivity_structure, ndim, same_rank.
  destruct (Z.eqb_spec (Z.of_nat (length (shape im))) 2) as [E2|E2].
  - assert (Hl : length (shape im) = 2%nat) by lia. rewrite Hl.
    intros H.
    assert (Hs : strel = disk 1 \/ strel = square 3).
    { destruct conn as [c|]; [|injection H as <-; tauto].
      destruct c as [|p|p]; try discriminate H.
      repeat (destruct p as [p|p|]; try discriminate H); injection H as <-; tauto. }
    destruct Hs as [-> | ->]; (split; [unfold ndim; rewrite Hl; reflexivity|]);
      (split; [apply symmetric_offsetsb_ok | apply inclb_ok]); vm_compute; reflexivity.
  - destruct (Z.eqb_spec (Z.of_nat (length (shape im))) 3) as [E3|E3]; [|discriminate].
    assert (Hl : length (shape im) = 3%nat) by lia. rewrite Hl.
    intros H.
    assert (Hs : strel = ball 1 \/ strel = cube 3).
    { destruct conn as [c|]; [|injection H as <-; tauto].
      destruct c as [|p|p]; try discriminate H.
      repeat (destruct p as [p|p|]; try discriminate H); injection H as <-; tauto. }
    destruct Hs as [-> | ->]; (split; [unfold ndim; rewrite Hl; reflexivity|]);
      (split; [apply symmetric_offsetsb_ok | apply inclb_ok]); vm_compute; reflexivity.
Qed.

(** X15: on an image of two or three dimensions without an empty axis and
    with an accepted [conn], find_disconnected_voxels marks exactly the true
    voxels from which no voxel on the border of the image is reached through
    true voxels, stepping along the offsets of the selected structuring
    element. *)
Theorem find_disconnected_voxels_spec (im : ndarray bool) (conn : option Z)
    (strel : ndarray bool) :
  connectivity_structure im conn = Ok strel ->
  Forall (fun n => 0 < n) (shape im) ->
  exists holes,
    find_disconnected_voxels im conn = Ok holes
    /\ shape holes = shape im
    /\ forall x, item holes x = true <->
                 item im x = true /\ ~ touches_border (offsets strel) im x.
Proof.
  intros Hstrel Hpos. destruct (structure_facts im conn strel Hstrel) as [Hrank [Hsym Hincl]].
  destruct (disconnected_core im strel Hrank Hsym Hincl Hpos) as [holes [Hrun [Hs Hi]]].
  exists holes. unfold find_disconnected_voxels. rewrite Hstrel. cbn [bind].
  split; [exact Hrun|]. split; [exact Hs|]. intros x. apply Hi.
Qed.

Lemma find_disconnected_voxels_spec_witness :
  exists holes,
    find_disconnected_voxels pores_example (Some 4) = Ok holes
    /\ shape holes = shape pores_example
    /\ forall x, item holes x = true <->
                 item pores_example x = true
                 /\ ~ touches_border (offsets (disk 1)) pores_example x.
Proof.
  apply (find_disconnected_voxels_spec pores_example (Some 4) (disk 1)).
  - reflexivity.
  - repeat constructor.
Defined.

(** X16: find_disconnected_voxels raises when the image has neither two nor
    three dimensions, and when [conn] is a number other than 4 or 8 for two
    dimensions, or other than 6 or 26 for three: no structuring element is
    assigned. *)
Theorem find_disconnected_voxels_unsupported (im : ndarray bool) (conn : option Z) :
  (ndim im <> 2 /\ ndim im <> 3)
  \/ (exists c, conn = Some c /\ ndim im = 2 /\ c <> 4 /\ c <> 8)
  \/ (exists c, conn = Some c /\ ndim im = 3 /\ c <> 6 /\ c <> 26) ->
  raises (find_disconnected_voxels im conn).
Proof.
  intros H. unfold find_disconnected_voxels.
  assert (Hs : raises (connectivity_structure im conn)).
  { unfold connectivity_structure.
    destruct H as [[H2 H3]|[[c [-> [H2 [Ha Hb]]]]|[c [-> [H3 [Ha Hb]]]]]].
    - destruct (Z.eqb_spec (ndim im) 2); [contradiction|].
      destruct (Z.eqb_spec (ndim im) 3); [contradiction|]. eexists. reflexivity.
    - rewrite H2. cbn [Z.eqb Pos.eqb].
      destruct c as [|p|p]; try (eexists; reflexivity).
      repeat (destruct p as [p|p|]; try (eexists; reflexivity)); contradiction.
    - rewrite H3. cbn [Z.eqb Pos.eqb].
      destruct c as [|p|p]; try (eexists; reflexivity).
      repeat (destruct p as [p|p|]; try (eexists; reflexivity)); contradiction. }
  destruct Hs as [e ->]. eexists. reflexivity.
Qed.

Lemma find_disconnected_voxels_unsupported_witness :
  raises (find_disconnected_voxels pores_example (Some 5)).
Proof.
  apply find_disconnected_voxels_unsupported. right. left. exists 5.
  split; [reflexivity|]. split; [reflexivity|]. split; discriminate.
Defined.

Lemma default_structure (im : ndarray bool) :
  (length (shape im) = 2 \/ length (shape im) = 3)%nat ->
  connectivity_structure im None = Ok (full_structure (length (shape im))).
Proof.
  intros [H|H]; unfold connectivity_structure, ndim; rewrite H; reflexivity.
Qed.

Lemma item_assign_where (im holes : ndarray bool) (v : bool) (x : index) :
  in_bounds x (shape im) = true ->
  item (assign_where im holes v) x = if item holes x then v else item im x.
Proof. intros Hx. unfold assign_where. rewrite item_zip_nd by exact Hx. reflexivity. Qed.

Lemma fill_blind_pores_item (im : ndarray bool) :
  (length (shape im) = 2 \/ length (shape im) = 3)%nat ->
  Forall (fun n => 0 < n) (shape im) ->
  exists out,
    fill_blind_pores im = Ok out
    /\ shape out = shape im
    /\ forall x, item out x = true <->
                 item im x = true
                 /\ touches_border (offsets (full_structure (length (shape im)))) im x.
Proof.
  intros Hr Hpos. pose proof (default_structure im Hr) as Hstrel.
  destruct (structure_facts im None _ Hstrel) as [Hrank [Hsym Hincl]].
  destruct (disconnected_core im _ Hrank Hsym Hincl Hpos) as [holes [Hrun [Hs Hi]]].
  unfold fill_blind_pores, find_disconnected_voxels. rewrite Hstrel. cbn [bind].
  rewrite Hrun. cbn [bind]. eexists. split; [reflexivity|]. split; [reflexivity|].
  intros x. destruct (in_bounds x (shape im)) eqn:Hx.
  - rewrite item_assign_where by exact Hx. destruct (Hi x) as [Hiff Hfalse].
    destruct (item holes x) eqn:Eh.
    + split; [discriminate|]. intros [Him Ht]. exfalso.
      apply (proj2 (proj1 Hiff eq_refl)), Ht.
    + split.
      * intros Him. split; [exact Him|]. apply Hfalse; [exact Him | reflexivity].
      * tauto.
  - rewrite item_out_of_bounds by exact Hx.
    rewrite (item_out_of_bounds im x Hx). split; [discriminate | intros [? _]; discriminate].
Qed.

(** X17: fill_blind_pores keeps exactly the true voxels from which the
    border of the image is reached through true voxels under full
    connectivity. *)
Theorem fill_blind_pores_spec (im : ndarray bool) :
  (length (shape im) = 2 \/ length (shape im) = 3)%nat ->
  Forall (fun n => 0 < n) (shape im) ->
  exists out,
    fill_blind_pores im = Ok out
    /\ shape out = shape im
    /\ forall x, item out x = true <->
                 item im x = true
                 /\ touches_border (offsets (full_structure (length (shape im)))) im x.
Proof. apply fill_blind_pores_item. Qed.

Lemma fill_blind_pores_spec_witness :
  exists out,
    fill_blind_pores pores_example = Ok out
    /\ shape out = shape pores_example
    /\ forall x, item out x = true <->
                 item pores_example x = true
                 /\ touches_border (offsets (full_structure (length (shape pores_example))))
                      pores_example x.
Proof.
  apply fill_blind_pores_spec.
  - left. reflexivity.
  - repeat constructor.
Defined.

(** X18: trim_floating_solid returns true at a voxel exactly when the
    image is true there or the voxel lies in a part of the false phase from
    which the border of the image is not reached (full connectivity). *)
Theorem trim_floating_solid_spec (im : ndarray bool) :
  (length (shape im) = 2 \/ length (shape im) = 3)%nat ->
  Forall (fun n => 0 < n) (shape im) ->
  exists out,
    trim_floating_solid im = Ok out
    /\ shape out = shape im
    /\ forall x, in_bounds x (shape im) = true ->
         (item out x = true <->
          item im x = true
          \/ ~ touches_border (offsets (full_structure (length (shape im))))
                 (map_nd negb im) x).
Proof.
  intros Hr Hpos. set (solid := map_nd negb im).
  assert (Hss : shape solid = shape im) by reflexivity.
  pose proof (default_structure solid Hr) as Hstrel.
  destruct (structure_facts solid None _ Hstrel) as [Hrank [Hsym Hincl]].
  destruct (disconnected_core solid _ Hrank Hsym Hincl Hpos) as [holes [Hrun [Hs Hi]]].
  unfold trim_floating_solid, find_disconnected_voxels. fold solid.
  rewrite Hstrel. cbn [bind]. rewrite Hrun. cbn [bind].
  eexists. split; [reflexivity|]. split; [reflexivity|].
  intros x Hx. rewrite item_assign_where by exact Hx.
  destruct (Hi x) as [Hiff Hfalse]. rewrite Hss in *.
  assert (Hneg : item solid x = negb (item im x)).
  { unfold solid. rewrite item_map_nd by exact Hx. reflexivity. }
  destruct (item holes x) eqn:Eh.
  - split; [|reflexivity]. intros _. right. apply (proj1 Hiff eq_refl).
  - split; [tauto|]. intros [Him|Hn]; [exact Him|].
    destruct (item im x) eqn:Eim; [reflexivity|]. exfalso.
    rewrite Hneg in *. cbn [negb] in *. apply Hn, Hfalse; reflexivity.
Qed.

Lemma trim_floating_solid_spec_witness :
  exists out,
    trim_floating_solid pores_example = Ok out
    /\ shape out = shape pores_example
    /\ forall x, in_bounds x (shape pores_example) = true ->
         (item out x = true <->
          item pores_example x = true
          \/ ~ touches_border (offsets (full_structure (length (shape pores_example))))
                 (map_nd negb pores_example) x).
Proof.
  apply trim_floating_solid_spec.
  - left. reflexivity.
  - repeat constructor.
Defined.

Lemma fromfunction_ext {A : Type} (sh : list Z) (f g : index -> A) :
  (forall x, in_bounds x sh = true -> f x = g x) -> fromfunction sh f = fromfunction sh g.
Proof.
  intros H. unfold fromfunction. f_equal. apply map_ext_in.
  intros x Hx. apply H, In_ndindex, Hx.
Qed.

Lemma assign_where_ext (a b ha hb : ndarray bool) (v : bool) :
  shape a = shape b ->
  (forall x, item (assign_where a ha v) x = item (assign_where b hb v) x) ->
  assign_where a ha v = assign_where b hb v.
Proof.
  intros Hs H. unfold assign_where, zip_nd. rewrite Hs. apply fromfunction_ext.
  intros x Hx. specialize (H x).
  rewrite !item_assign_where in H by (try rewrite Hs; exact Hx). exact H.
Qed.

Lemma bool_iff_eq (a b : bool) : (a = true <-> b = true) -> a = b.
Proof. destruct a, b; intros [H1 H2]; try reflexivity; [symmetry; apply H1 | apply H2]; reflexivity. Qed.

(** X19: fill_blind_pores is idempotent: applied to its own result it
    returns that result unchanged. *)
Theorem fill_blind_pores_idempotent (im out : ndarray bool) :
  (length (shape im) = 2 \/ length (shape im) = 3)%nat ->
  Forall (fun n => 0 < n) (shape im) ->
  fill_blind_pores im = Ok out ->
  fill_blind_pores out = Ok out.
Proof.
  intros Hr Hpos Hout.
  destruct (fill_blind_pores_item im Hr Hpos) as [out' [Hrun [Hs Hi]]].
  rewrite Hrun in Hout. injection Hout as ->.
  assert (Hform : exists holes, out = assign_where im holes false).
  { unfold fill_blind_pores in Hrun.
    destruct (find_disconnected_voxels im None) as [holes|e]; [|discriminate Hrun].
    cbn [bind] in Hrun. injection Hrun as <-. exists holes. reflexivity. }
  destruct Hform as [holes Hform].
  assert (Hr2 : (length (shape out) = 2 \/ length (shape out) = 3)%nat) by (rewrite Hs; exact Hr).
  assert (Hpos2 : Forall (fun n => 0 < n) (shape out)) by (rewrite Hs; exact Hpos).
  destruct (fill_blind_pores_item out Hr2 Hpos2) as [out2 [Hrun2 [Hs2 Hi2]]].
  assert (Hform2 : exists holes2, out2 = assign_where out holes2 false).
  { unfold fill_blind_pores in Hrun2.
    destruct (find_disconnected_voxels out None) as [holes2|e]; [|discriminate Hrun2].
    cbn [bind] in Hrun2. injection Hrun2 as <-. exists holes2. reflexivity. }
  destruct Hform2 as [holes2 Hform2].
  rewrite Hrun2. f_equal.
  transitivity (assign_where im holes false); [|symmetry; exact Hform].
  rewrite Hform2. apply assign_where_ext; [exact Hs|]. rewrite <- Hform2, <- Hform.
  intros x. apply bool_iff_eq. rewrite Hi2. split; [tauto|].
  intros Hx. split; [exact Hx|].
  set (offs := offsets (full_structure (length (shape im)))) in *.
  assert (Hsym : symmetric_offsets (length (shape im)) offs).
  { apply (structure_facts im None _ (default_structure im Hr)). }
  destruct (proj1 (Hi x) Hx) as [Him [y [Hreach Hborder]]].
  rewrite Hs. fold offs. exists y. split; [|rewrite Hs; exact Hborder].
  apply (reach_mono offs offs im out x y (fun o Ho => Ho)); [|exact Hreach].
  intros z Hz. apply Hi. split; [apply (reach_true _ _ _ _ Hz)|].
  exists y. split; [|exact Hborder].
  apply (reach_trans offs im z x y); [|exact Hreach].
  apply reach_sym; assumption.
Qed.

Lemma fill_blind_pores_idempotent_witness :
  fill_blind_pores (assign_where pores_example (mark [5; 5] [[2; 2]]) false)
  = Ok (assign_where pores_example (mark [5; 5] [[2; 2]]) false).
Proof.
  apply (fill_blind_pores_idempotent pores_example).
  - left. reflexivity.
  - repeat constructor.
  - vm_compute. reflexivity.
Defined.

(** ** region_size and flood on the features of label *)

Lemma same_rank_default (input : ndarray bool) :
  same_rank input (generate_binary_structure (length (shape input))) = true.
Proof.
  unfold same_rank, ndim. cbn [shape generate_binary_structure fromfunction].
  rewrite repeat_length. apply Z.eqb_refl.
Qed.

Lemma label_default_components (input : ndarray bool) :
  let offs := offsets (generate_binary_structure (length (shape input))) in
  exists labels N,
    label_default input = Ok (labels, N)
    /\ shape labels = shape input
    /\ 0 <= N
    /\ (forall y, item labels y <> 0 -> item input y = true /\ 1 <= item labels y <= N)
    /\ (forall y, item input y = true -> item labels y <> 0)
    /\ (forall y z, item labels y <> 0 ->
                    (item labels z = item labels y <-> reach offs input y z))
    /\ (forall l, 1 <= l <= N -> exists y, item labels y = l).
Proof.
  apply label_components; [apply same_rank_default | apply symmetric_generate_binary_structure].
Qed.

Lemma count_occ_map_filter {A : Type} (f : A -> Z) (l : list A) (v : Z) :
  count_occ Z.eq_dec (map f l) v = length (filter (fun y => f y =? v) l).
Proof.
  induction l as [|a l IH]; cbn [map count_occ filter]; [reflexivity|].
  destruct (Z.eq_dec (f a) v) as [E|E].
  - rewrite (proj2 (Z.eqb_eq _ _) E). cbn [length]. rewrite IH. reflexivity.
  - rewrite (proj2 (Z.eqb_neq _ _) E). exact IH.
Qed.

(** X20: on a boolean image without an empty axis region_size returns 0 at
    the false voxels and, at a true voxel, the number of voxels reached from
    it through true voxels along the axes (the default structure of label):
    the size of its connected region. *)
Theorem region_size_of_feature (im : ndarray bool) :
  Forall (fun n => 0 < n) (shape im) ->
  exists out,
    region_size (BoolImage im) = Ok out
    /\ shape out = shape im
    /\ forall x, in_bounds x (shape im) = true ->
         (item im x = false -> item out x = 0)
         /\ (item im x = true ->
             exists l, NoDup l
                       /\ (forall y, In y l <->
                             reach (offsets (generate_binary_structure (length (shape im))))
                                   im x y)
                       /\ item out x = Z.of_nat (length l)).
Proof.
  intros Hpos.
  destruct (label_default_components im) as [labels [N [Hlab [Hs [HN [H1 [H2 [H3 _]]]]]]]].
  assert (Hnn : forall y, in_bounds y (shape labels) = true -> 0 <= item labels y).
  { intros y _. destruct (Z.eq_dec (item labels y) 0) as [E|E]; [lia|].
    destruct (H1 y E). lia. }
  destruct (region_size_labelled labels) as [out [Hrun [Hso Hi]]];
    [rewrite Hs; exact Hpos | exact Hnn |].
  exists out. split.
  { unfold region_size in *. rewrite Hlab. cbn [bind] in *. exact Hrun. }
  split; [rewrite Hso; exact Hs|].
  intros x Hx. rewrite <- Hs in Hx. rewrite (Hi x Hx). split.
  - intros Hf. destruct (Z.eqb_spec (item labels x) 0) as [E|E]; [reflexivity|].
    apply H1 in E. destruct E as [E _]. congruence.
  - intros Ht. pose proof (H2 x Ht) as Hl.
    destruct (Z.eqb_spec (item labels x) 0) as [E|_]; [contradiction|].
    exists (filter (fun y => item labels y =? item labels x) (ndindex (shape labels))).
    split; [apply NoDup_filter, NoDup_ndindex|]. split.
    + intros y. rewrite filter_In, Z.eqb_eq, <- (H3 x y Hl). split; [tauto|].
      intros E. split; [|exact E]. apply In_ndindex. rewrite Hs.
      apply item_true_in_bounds. apply (H1 y). congruence.
    + unfold flatten. rewrite count_occ_map_filter. reflexivity.
Qed.

(** X21: without regions and with a mode that starts with 'max', flood
    gives every voxel with a positive value the largest value of its
    connected region of positive voxels (connected along the axes), and 0 to
    every other voxel. *)
Theorem flood_max_of_feature (im : ndarray Q) (mode : string) :
  Forall (fun n => 0 < n) (shape im) ->
  prefix "max" mode = true ->
  exists out,
    porespy.flood im None mode = Ok out
    /\ shape out = shape im
    /\ forall x, in_bounds x (shape im) = true ->
         (~ (0 < item im x)%Q -> item out x = Some 0%Q)
         /\ ((0 < item im x)%Q ->
             exists y,
               reach (offsets (generate_binary_structure (length (shape im))))
                     (greater_zero_Q im) x y
               /\ item out x = Some (item im y)
               /\ forall y',
                    reach (offsets (generate_binary_structure (length (shape im))))
                          (greater_zero_Q im) x y' ->
                    (item im y' <= item im y)%Q).
Proof.
  intros Hpos Hmode.
  set (mask := greater_zero_Q im).
  set (offs := offsets (generate_binary_structure (length (shape im)))).
  destruct (label_default_components mask) as [labels [N [Hlab [Hs [HN [H1 [H2 [H3 _]]]]]]]].
  change (shape mask) with (shape im) in *. fold offs in H3.
  assert (Hl : forall y, in_bounds y (shape im) = true -> 0 <= item labels y <= N).
  { intros y _. destruct (Z.eq_dec (item labels y) 0) as [E|E]; [lia|].
    destruct (H1 y E). lia. }
  destruct (flood_max_core im labels N Hs Hpos Hl) as [out [Hrun [Hso Hi]]].
  exists out. split.
  { unfold porespy.flood. fold mask. rewrite Hlab. cbn [bind]. rewrite Hmode. exact Hrun. }
  split; [exact Hso|].
  intros x Hx. destruct (Hi x Hx) as [Hzero Hmax]. split; [exact Hzero|].
  intros Hp. destruct (Hmax Hp) as [y [Hy [Hly [Hv Hle]]]].
  assert (Hmx : item mask x = true).
  { unfold mask, greater_zero_Q. rewrite item_map_nd by exact Hx. apply Qltb_lt, Hp. }
  pose proof (H2 x Hmx) as Hlx.
  exists y. split; [apply (H3 x y Hlx), Hly|]. split; [exact Hv|].
  intros y' Hr. apply Hle.
  - apply (item_true_in_bounds mask). apply (reach_true _ _ _ _ Hr).
  - apply (H3 x y' Hlx), Hr.
Qed.

Lemma region_size_of_feature_witness :
  exists out,
    region_size (BoolImage pores_example) = Ok out
    /\ shape out = shape pores_example
    /\ forall x, in_bounds x (shape pores_example) = true ->
         (item pores_example x = false -> item out x = 0)
         /\ (item pores_example x = true ->
             exists l, NoDup l
                       /\ (forall y, In y l <->
                             reach (offsets (generate_binary_structure
                                               (length (shape pores_example))))
                                   pores_example x y)
                       /\ item out x = Z.of_nat (length l)).
Proof. apply region_size_of_feature. repeat constructor. Defined.

Lemma flood_max_of_feature_witness :
  exists out,
    porespy.flood flood_example None "max" = Ok out
    /\ shape out = shape flood_example
    /\ forall x, in_bounds x (shape flood_example) = true ->
         (~ (0 < item flood_example x)%Q -> item out x = Some 0%Q)
         /\ ((0 < item flood_example x)%Q ->
             exists y,
               reach (offsets (generate_binary_structure (length (shape flood_example))))
                     (greater_zero_Q flood_example) x y
               /\ item out x = Some (item flood_example y)
               /\ forall y',
                    reach (offsets (generate_binary_structure
                                      (length (shape flood_example))))
                          (greater_zero_Q flood_example) x y' ->
                    (item flood_example y' <= item flood_example y)%Q).
Proof. apply flood_max_of_feature; [repeat constructor | reflexivity]. Defined.

(** ** The loop of the saddle-point trimmer, cluster by cluster *)

(** One dilation by the 3 x 3 square, or by the 3 x 3 x 3 cube, adds to a set
    the voxels of the array next to it under full connectivity. *)
Lemma dilate_square3 (input : ndarray bool) (x : index) :
  length (shape input) = 2%nat ->
  in_bounds x (shape input) = true ->
  (item (dilate (offsets (square 3)) input) x = true
   <-> exists y, item input y = true /\ adjacent x y).
Proof.
  intros Hr Hx. unfold dilate. rewrite item_fromfunction by exact Hx. rewrite existsb_exists.
  pose proof (in_bounds_length _ _ Hx) as Hl. rewrite Hr in Hl.
  destruct x as [|a [|b [|c x]]]; try discriminate Hl.
  change (offsets (square 3))
    with [[-1; -1]; [-1; 0]; [-1; 1]; [0; -1]; [0; 0]; [0; 1]; [1; -1]; [1; 0]; [1; 1]].
  split.
  - intros [o [Ho Hy]]. exists (index_sub [a; b] o). split; [exact Hy|].
    cbn [In] in Ho.
    repeat (destruct Ho as [<-|Ho]; [repeat constructor; cbn [fst snd]; lia|]).
    destruct Ho.
  - intros [y [Hy Hadj]].
    pose proof (in_bounds_length _ _ (item_true_in_bounds _ _ Hy)) as Hly. rewrite Hr in Hly.
    destruct y as [|c [|d [|e y]]]; try discriminate Hly.
    inversion Hadj as [|? ? ? ? H1 Hadj']; subst. inversion Hadj' as [|? ? ? ? H2 _]; subst.
    exists [a - c; b - d]. split.
    + assert (Ha : a - c = -1 \/ a - c = 0 \/ a - c = 1) by lia.
      assert (Hb : b - d = -1 \/ b - d = 0 \/ b - d = 1) by lia.
      destruct Ha as [-> | [-> | ->]], Hb as [-> | [-> | ->]]; cbn [In]; tauto.
    + replace (index_sub [a; b] [a - c; b - d]) with [c; d]; [exact Hy|].
      unfold index_sub. cbn [combine map fst snd]. f_equal; [lia|]. f_equal. lia.
Qed.

Lemma dilate_cube3 (input : ndarray bool) (x : index) :
  length (shape input) = 3%nat ->
  in_bounds x (shape input) = true ->
  (item (dilate (offsets (cube 3)) input) x = true
   <-> exists y, item input y = true /\ adjacent x y).
Proof.
  intros Hr Hx. unfold dilate. rewrite item_fromfunction by exact Hx. rewrite existsb_exists.
  pose proof (in_bounds_length _ _ Hx) as Hl. rewrite Hr in Hl.
  destruct x as [|a [|b [|c [|c' x]]]]; try discriminate Hl.
  let l := eval vm_compute in (offsets (cube 3)) in change (offsets (cube 3)) with l.
  split.
  - intros [o [Ho Hy]]. exists (index_sub [a; b; c] o). split; [exact Hy|].
    cbn [In] in Ho.
    repeat (destruct Ho as [<-|Ho]; [repeat constructor; cbn [fst snd]; lia|]).
    destruct Ho.
  - intros [y [Hy Hadj]].
    pose proof (in_bounds_length _ _ (item_true_in_bounds _ _ Hy)) as Hly. rewrite Hr in Hly.
    destruct y as [|d [|e [|f [|f' y]]]]; try discriminate Hly.
    inversion Hadj as [|? ? ? ? H1 Hadj']; subst. inversion Hadj' as [|? ? ? ? H2 Hadj'']; subst.
    inversion Hadj'' as [|? ? ? ? H3 _]; subst.
    exists [a - d; b - e; c - f]. split.
    + assert (Ha : a - d = -1 \/ a - d = 0 \/ a - d = 1) by lia.
      assert (Hb : b - e = -1 \/ b - e = 0 \/ b - e = 1) by lia.
      assert (Hc : c - f = -1 \/ c - f = 0 \/ c - f = 1) by lia.
      destruct Ha as [-> | [-> | ->]], Hb as [-> | [-> | ->]], Hc as [-> | [-> | ->]];
        cbn [In]; tauto.
    + replace (index_sub [a; b; c] [a - d; b - e; c - f]) with [d; e; f]; [exact Hy|].
      unfold index_sub. cbn [combine map fst snd]. f_equal; [lia|]. f_equal; [lia|]. f_equal. lia.
Qed.

(** *** The labels and their bounding slices *)

Lemma canonical_fromfunction {A : Type} `{Fill A} (sh : list Z) (f : index -> A) :
  data (fromfunction sh f) = map (item (fromfunction sh f)) (ndindex sh).
Proof.
  cbn [fromfunction data]. apply map_ext_in. intros x Hx.
  symmetry. apply item_fromfunction. apply In_ndindex, Hx.
Qed.

Lemma label_scan_canonical (todo offs : list index) (input : ndarray bool) :
  forall labels n,
  shape labels = shape input ->
  data labels = map (item labels) (ndindex (shape input)) ->
  data (fst (label_scan todo offs input labels n))
  = map (item (fst (label_scan todo offs input labels n))) (ndindex (shape input)).
Proof.
  induction todo as [|x todo IH]; intros labels n Hsh Hd; cbn [label_scan].
  - exact Hd.
  - destruct (item input x && (item labels x =? 0)).
    + apply IH; [reflexivity|]. apply canonical_fromfunction.
    + apply IH; assumption.
Qed.

Lemma max_label_le (f : index -> Z) (l : list index) (n : Z) :
  0 <= n -> (forall x, In x l -> f x <= n) -> fold_right Z.max 0 (map f l) <= n.
Proof.
  intros Hn H. induction l as [|x l IH]; cbn [map fold_right]; [exact Hn|].
  apply Z.max_lub; [apply H; left; reflexivity|]. apply IH. intros y Hy. apply H. right. exact Hy.
Qed.

Lemma max_label_ge (f : index -> Z) (l : list index) (x : index) :
  In x l -> f x <= fold_right Z.max 0 (map f l).
Proof.
  induction l as [|y l IH]; intros Hx; [destruct Hx|]. cbn [map fold_right].
  destruct Hx as [->|Hx]; [lia|]. specialize (IH Hx). lia.
Qed.

Lemma max_label_default (input : ndarray bool) (labels : ndarray Z) (N : Z) :
  label_default input = Ok (labels, N) -> max_label labels = N.
Proof.
  intros Hl.
  destruct (label_default_components input) as [labels' [N' [Hl' [Hsh [HN [H1 [_ [_ H4]]]]]]]].
  rewrite Hl in Hl'. injection Hl' as <- <-.
  assert (Hcan : data labels = map (item labels) (ndindex (shape input))).
  { unfold label_default, label in Hl. rewrite same_rank_default in Hl.
    injection Hl as Hl.
    change labels with (fst (labels, N)). rewrite <- Hl.
    apply label_scan_canonical; [reflexivity|]. apply canonical_fromfunction. }
  unfold max_label. rewrite Hcan. apply Z.le_antisymm.
  - apply max_label_le; [exact HN|]. intros x _.
    destruct (Z.eq_dec (item labels x) 0) as [E|E]; [lia|]. apply H1 in E. lia.
  - destruct (Z.eq_dec N 0) as [->|HN0].
    + clear. induction (ndindex (shape input)) as [|x l IH]; cbn [map fold_right]; lia.
    + destruct (H4 N) as [y Hy]; [lia|]. rewrite <- Hy. apply max_label_ge.
      apply In_ndindex. rewrite <- Hsh.
      destruct (in_bounds y (shape labels)) eqn:E; [reflexivity|].
      rewrite item_out_of_bounds in Hy by exact E. change (@fill Z _) with 0 in Hy. lia.
Qed.

Lemma find_objects_nth (labels : ndarray Z) (i : nat) :
  (i < Z.to_nat (max_label labels))%nat ->
  nth_error (find_objects labels) i
  = Some (bounding_box (length (shape labels))
            (filter (fun x => item labels x =? Z.of_nat i + 1) (ndindex (shape labels)))).
Proof.
  intros Hi. unfold find_objects. rewrite !nth_error_map.
  replace i with (Z.to_nat (Z.of_nat i)) at 1 by apply Nat2Z.id.
  rewrite nth_error_arange by lia. reflexivity.
Qed.

Lemma fold_min_init (l : list Z) (v : Z) : fold_left Z.min l v <= v.
Proof.
  revert v. induction l as [|u l IH]; intros v; cbn [fold_left]; [lia|].
  etransitivity; [apply IH|]. lia.
Qed.

Lemma fold_min_le (l : list Z) (v w : Z) : In w l -> fold_left Z.min l v <= w.
Proof.
  revert v. induction l as [|u l IH]; intros v H; cbn [fold_left]; [destruct H|].
  destruct H as [->|H]; [|apply IH, H].
  etransitivity; [apply fold_min_init|]. lia.
Qed.

Lemma fold_max_init (l : list Z) (v : Z) : v <= fold_left Z.max l v.
Proof.
  revert v. induction l as [|u l IH]; intros v; cbn [fold_left]; [lia|].
  etransitivity; [|apply IH]. lia.
Qed.

Lemma fold_max_left_ge (l : list Z) (v w : Z) : In w l -> w <= fold_left Z.max l v.
Proof.
  revert v. induction l as [|u l IH]; intros v H; cbn [fold_left]; [destruct H|].
  destruct H as [->|H]; [|apply IH, H].
  etransitivity; [|apply fold_max_init]. lia.
Qed.

(** A voxel of a list lies in the bounding box of the list. *)
Lemma bounding_box_axis (xs : list index) (x0 x : index) (axis : nat) :
  In x (x0 :: xs) ->
  fold_left Z.min (map (fun x => axis_get x axis) xs) (axis_get x0 axis) <= axis_get x axis
  /\ axis_get x axis
     < fold_left Z.max (map (fun x => axis_get x axis) xs) (axis_get x0 axis) + 1.
Proof.
  intros [->|Hx].
  - pose proof (fold_min_init (map (fun x => axis_get x axis) xs) (axis_get x axis)).
    pose proof (fold_max_init (map (fun x => axis_get x axis) xs) (axis_get x axis)). lia.
  - pose proof (fold_min_le (map (fun x => axis_get x axis) xs) (axis_get x0 axis)
                  (axis_get x axis) (in_map _ _ _ Hx)).
    pose proof (fold_max_left_ge (map (fun x => axis_get x axis) xs) (axis_get x0 axis)
                  (axis_get x axis) (in_map _ _ _ Hx)). lia.
Qed.

Lemma in_slice_sub_bounds (x : index) (s : slices) :
  in_slice x s = true -> in_bounds (index_sub x (slice_start s)) (slice_shape s) = true.
Proof.
  revert s. induction x as [|i x IH]; intros [|[lo hi] s] H; try discriminate; [reflexivity|].
  cbn [in_slice] in H. apply andb_true_iff in H. destruct H as [H Hs].
  apply andb_true_iff in H. destruct H as [H1 H2].
  apply Z.leb_le in H1. apply Z.ltb_lt in H2.
  unfold index_sub, slice_start, slice_shape in *. cbn [map combine fst snd].
  apply in_bounds_cons. split; [lia|]. apply IH, Hs.
Qed.

(** The voxels of a label lie in the padded bounding slice, in 2 and in 3
    dimensions. *)
Lemma cluster_in_slice (labels : ndarray Z) (l : Z) (s0 : slices) (x : index) :
  (length (shape labels) = 2 \/ length (shape labels) = 3)%nat ->
  bounding_box (length (shape labels))
    (filter (fun x => item labels x =? l) (ndindex (shape labels))) = Some s0 ->
  in_bounds x (shape labels) = true ->
  item labels x = l ->
  in_slice x (extend_slice s0 (shape labels) 10) = true.
Proof.
  intros Hr Hbb Hx Hl.
  assert (Hin : In x (filter (fun x => item labels x =? l) (ndindex (shape labels)))).
  { apply filter_In. split; [apply In_ndindex, Hx | apply Z.eqb_eq, Hl]. }
  destruct (filter _ _) as [|x0 xs]; [destruct Hin|].
  pose proof (in_bounds_length _ _ Hx) as Hlen.
  pose proof (fun axis => bounding_box_axis xs x0 x axis Hin) as Hax.
  unfold bounding_box in Hbb. injection Hbb as <-.
  destruct (shape labels) as [|n1 [|n2 [|n3 [|n4 sh]]]]; cbn [length] in Hr;
    try (exfalso; lia).
  - destruct x as [|a [|b [|c x]]]; try discriminate Hlen.
    apply in_bounds_cons in Hx. destruct Hx as [Ha Hx].
    apply in_bounds_cons in Hx. destruct Hx as [Hb _].
    pose proof (Hax 0%nat) as H0. pose proof (Hax 1%nat) as H1.
    cbn [length seq map extend_slice combine in_slice].
    repeat match goal with |- context [if ?c then _ else _] => destruct c eqn:? end;
      rewrite ?andb_true_iff, ?Z.leb_le, ?Z.ltb_lt; unfold axis_get in *; cbn [nth] in *; lia.
  - destruct x as [|a [|b [|c [|d x]]]]; try discriminate Hlen.
    apply in_bounds_cons in Hx. destruct Hx as [Ha Hx].
    apply in_bounds_cons in Hx. destruct Hx as [Hb Hx].
    apply in_bounds_cons in Hx. destruct Hx as [Hc _].
    pose proof (Hax 0%nat) as H0. pose proof (Hax 1%nat) as H1. pose proof (Hax 2%nat) as H2.
    cbn [length seq map extend_slice combine in_slice].
    repeat match goal with |- context [if ?c then _ else _] => destruct c eqn:? end;
      rewrite ?andb_true_iff, ?Z.leb_le, ?Z.ltb_lt; unfold axis_get in *; cbn [nth] in *; lia.
Qed.

Lemma bounding_box_length (rank : nat) (xs : list index) (s0 : slices) :
  bounding_box rank xs = Some s0 -> length s0 = rank.
Proof.
  unfold bounding_box. destruct xs as [|x0 xs]; [discriminate|].
  intros H. injection H as <-. rewrite length_map, length_seq. reflexivity.
Qed.

Lemma extend_slice_length (s0 : slices) (sh : list Z) (pad : Z) :
  length s0 = length sh -> length (extend_slice s0 sh pad) = length sh.
Proof.
  intros H. unfold extend_slice. rewrite length_map, length_combine, H. apply Nat.min_id.
Qed.

Lemma map_result_all_ok {A B : Type} (f : A -> result B) (l : list A) :
  (forall a, In a l -> exists b, f a = Ok b) -> exists bs, map_result f l = Ok bs.
Proof.
  induction l as [|a l IH]; intros H; cbn [map_result].
  - exists []. reflexivity.
  - destruct (H a) as [b Hb]; [left; reflexivity|]. rewrite Hb. cbn [bind].
    destruct IH as [bs Hbs]; [intros a' Ha'; apply H; right; exact Ha'|].
    rewrite Hbs. cbn [bind]. exists (b :: bs). reflexivity.
Qed.

(** The loop over the clusters writes the results of the clusters back one
    after the other. *)
Lemma trim_saddle_steps (dt : ndarray Q) (max_iters : Z) (cube3 : ndarray bool)
    (labels : ndarray Z) (sl : list (option slices)) (sh : list Z) (l : list nat) :
  forall results pk,
  shape pk = sh ->
  map_result (trim_saddle_cluster dt max_iters cube3 labels sl sh) l = Ok results ->
  for_each (trim_saddle_step dt max_iters cube3 labels sl) l pk
  = Ok (fold_left (fun pk r => setslice pk (fst (fst r)) (snd (fst r))) results pk).
Proof.
  induction l as [|i l IH]; intros results pk Hsh H; cbn [map_result for_each] in *.
  - injection H as <-. reflexivity.
  - unfold trim_saddle_step at 1. rewrite Hsh.
    destruct (trim_saddle_cluster dt max_iters cube3 labels sl sh i) as [[[s v] iters]|e];
      cbn [bind] in *; [|discriminate].
    destruct (map_result _ l) as [rs|e]; cbn [bind] in H; [|discriminate].
    injection H as <-. cbn [fold_left fst snd]. apply IH; [exact Hsh | reflexivity].
Qed.

(** C1, amended: trim_saddle_points labels the clusters once and then
    treats them one by one, each on the arrays cropped to the cluster's
    bounding slice padded by 10 voxels, which holds every voxel of the
    cluster; the results are written back in label order. For a cluster the
    loop runs at most max_iters iterations. Iteration k dilates the working
    set once more by the full-connectivity element (a voxel of the crop is in
    the new set exactly when it is, or has a neighbour sharing a face, an
    edge or a corner, in the old one; k dilations of the cluster in all) and
    takes as candidate set the void voxels of the dilated set whose distance
    value is the largest of the dilated set. The candidate set is compared
    with the cluster's original voxels, not with the working set from before
    the dilation: if it equals them the loop stops and keeps the cluster's
    voxels as its result; else if it shares no voxel with them the loop
    stops and its result is False; else the loop goes on with the dilated
    set. When max_iters iterations pass undecided the result is the
    cluster's voxels. *)
Theorem saddle_loop_decides (peaks : ndarray bool) (dt : ndarray Q) (max_iters : Z)
    (labels : ndarray Z) (N : Z) :
  ndim dt = 2 \/ ndim dt = 3 ->
  shape dt = shape peaks ->
  label_default peaks = Ok (labels, N) ->
  let cube3 := if ndim dt =? 2 then square 3 else cube 3 in
  let sl := find_objects labels in
  (exists results,
     map_result (trim_saddle_cluster dt max_iters cube3 labels sl (shape peaks))
       (seq 0 (Z.to_nat N)) = Ok results
     /\ trim_saddle_points peaks dt max_iters
        = Ok (fold_left (fun pk r => setslice pk (fst (fst r)) (snd (fst r))) results peaks))
  /\ forall i, (i < Z.to_nat N)%nat ->
     exists s0,
       nth_error sl i = Some (Some s0)
       /\ let s := extend_slice s0 (shape peaks) 10 in
          let cluster := map_nd (fun l => l =? Z.of_nat i + 1) (getslice labels s) in
          let dt_i := getslice dt s in
          let D := dilated cube3 cluster in
          let E := fun k => candidate dt_i (D k) in
          (forall x, item labels x = Z.of_nat i + 1 -> in_slice x s = true)
          /\ (forall y, in_bounds y (shape cluster) = true ->
                item cluster y = (item labels (index_add y (slice_start s)) =? Z.of_nat i + 1)
                /\ item dt_i y = item dt (index_add y (slice_start s)))
          /\ D 0%nat = cluster
          /\ (forall k x, in_bounds x (shape cluster) = true ->
                (item (D (S k)) x = true <-> exists y, item (D k) y = true /\ adjacent x y))
          /\ (forall k x, in_bounds x (shape cluster) = true ->
                (item (E k) x = true <->
                 item (D k) x = true /\ (0 < item dt_i x)%Q /\
                 forall y, item (D k) y = true -> (item dt_i y <= item dt_i x)%Q))
          /\ (forall k, found_true_peak cube3 dt_i cluster k = true <->
                forall x, in_bounds x (shape cluster) = true -> item (E k) x = item cluster x)
          /\ (forall k, found_saddle cube3 dt_i cluster k = true <->
                found_true_peak cube3 dt_i cluster k = false /\
                forall x, ~ (item (E k) x = true /\ item cluster x = true))
          /\ exists v iters,
               trim_saddle_cluster dt max_iters cube3 labels sl (shape peaks) i
               = Ok (s, v, Z.of_nat iters)
               /\ (iters <= Z.to_nat max_iters)%nat
               /\ (forall j, (1 <= j < iters)%nat -> undecided cube3 dt_i cluster j = true)
               /\ ((v = Arr cluster /\ (1 <= iters)%nat /\
                    found_true_peak cube3 dt_i cluster iters = true)
                   \/ (v = Scalar false /\ (1 <= iters)%nat /\
                       found_saddle cube3 dt_i cluster iters = true)
                   \/ (v = Arr cluster /\ iters = Z.to_nat max_iters /\
                       forall j, (1 <= j <= iters)%nat ->
                                 undecided cube3 dt_i cluster j = true)).
Proof.
  intros Hnd Hsh Hl cube3 sl.
  destruct (label_default_components peaks)
    as [labels' [N' [Hl' [Hshl [HN [H1 [_ [_ H4]]]]]]]].
  rewrite Hl in Hl'. injection Hl' as <- <-.
  pose proof (max_label_default _ _ _ Hl) as Hmax.
  assert (Hrank : (length (shape labels) = 2 \/ length (shape labels) = 3)%nat).
  { rewrite Hshl, <- Hsh. unfold ndim in Hnd. lia. }
  assert (Hlab : forall x l, item labels x = l -> l <> 0 -> in_bounds x (shape labels) = true).
  { intros x l Hx Hne. destruct (in_bounds x (shape labels)) eqn:E; [reflexivity|].
    rewrite item_out_of_bounds in Hx by exact E. change (@fill Z _) with 0 in Hx. lia. }
  assert (Hcl : forall i, (i < Z.to_nat N)%nat ->
     exists s0,
       nth_error sl i = Some (Some s0)
       /\ let s := extend_slice s0 (shape peaks) 10 in
          let cluster := map_nd (fun l => l =? Z.of_nat i + 1) (getslice labels s) in
          let dt_i := getslice dt s in
          let D := dilated cube3 cluster in
          let E := fun k => candidate dt_i (D k) in
          (forall x, item labels x = Z.of_nat i + 1 -> in_slice x s = true)
          /\ (forall y, in_bounds y (shape cluster) = true ->
                item cluster y = (item labels (index_add y (slice_start s)) =? Z.of_nat i + 1)
                /\ item dt_i y = item dt (index_add y (slice_start s)))
          /\ D 0%nat = cluster
          /\ (forall k x, in_bounds x (shape cluster) = true ->
                (item (D (S k)) x = true <-> exists y, item (D k) y = true /\ adjacent x y))
          /\ (forall k x, in_bounds x (shape cluster) = true ->
                (item (E k) x = true <->
                 item (D k) x = true /\ (0 < item dt_i x)%Q /\
                 forall y, item (D k) y = true -> (item dt_i y <= item dt_i x)%Q))
          /\ (forall k, found_true_peak cube3 dt_i cluster k = true <->
                forall x, in_bounds x (shape cluster) = true -> item (E k) x = item cluster x)
          /\ (forall k, found_saddle cube3 dt_i cluster k = true <->
                found_true_peak cube3 dt_i cluster k = false /\
                forall x, ~ (item (E k) x = true /\ item cluster x = true))
          /\ exists v iters,
               trim_saddle_cluster dt max_iters cube3 labels sl (shape peaks) i
               = Ok (s, v, Z.of_nat iters)
               /\ (iters <= Z.to_nat max_iters)%nat
               /\ (forall j, (1 <= j < iters)%nat -> undecided cube3 dt_i cluster j = true)
               /\ ((v = Arr cluster /\ (1 <= iters)%nat /\
                    found_true_peak cube3 dt_i cluster iters = true)
                   \/ (v = Scalar false /\ (1 <= iters)%nat /\
                       found_saddle cube3 dt_i cluster iters = true)
                   \/ (v = Arr cluster /\ iters = Z.to_nat max_iters /\
                       forall j, (1 <= j <= iters)%nat ->
                                 undecided cube3 dt_i cluster j = true))).
  { intros i Hi.
    destruct (H4 (Z.of_nat i + 1)) as [x Hx]; [lia|].
    assert (Hxb : in_bounds x (shape labels) = true) by (apply (Hlab x _ Hx); lia).
    pose proof (find_objects_nth labels i) as Hnth. rewrite Hmax in Hnth.
    specialize (Hnth Hi). fold sl in Hnth.
    destruct (bounding_box (length (shape labels))
                (filter (fun x => item labels x =? Z.of_nat i + 1) (ndindex (shape labels))))
      as [s0|] eqn:Hbb.
    2: { exfalso. unfold bounding_box in Hbb.
         assert (Hin : In x (filter (fun x => item labels x =? Z.of_nat i + 1)
                               (ndindex (shape labels)))).
         { apply filter_In. split; [apply In_ndindex, Hxb | apply Z.eqb_eq, Hx]. }
         destruct (filter _ _); [destruct Hin | discriminate]. }
    exists s0. split; [exact Hnth|].
    intros s cluster dt_i D E.
    assert (Hslice : forall z, item labels z = Z.of_nat i + 1 -> in_slice z s = true).
    { intros z Hz. unfold s. rewrite <- Hshl.
      apply (cluster_in_slice labels (Z.of_nat i + 1) s0 z Hrank Hbb); [|exact Hz].
      apply (Hlab z _ Hz). lia. }
    assert (Hshc : shape cluster = slice_shape s) by reflexivity.
    assert (Hshd : shape dt_i = shape cluster) by reflexivity.
    assert (Hlen : length (shape cluster) = length (shape labels)).
    { rewrite Hshc. unfold slice_shape. rewrite length_map. unfold s. rewrite <- Hshl.
      apply extend_slice_length. eapply bounding_box_length, Hbb. }
    assert (Hcube : (length (shape cluster) = 2%nat /\ cube3 = square 3)
                    \/ (length (shape cluster) = 3%nat /\ cube3 = cube 3)).
    { rewrite Hlen, Hshl, <- Hsh. unfold cube3. unfold ndim in *.
      destruct Hnd as [Hnd|Hnd]; rewrite Hnd; [left|right]; split; try reflexivity; lia. }
    assert (Hsr : same_rank cluster cube3 = true).
    { unfold same_rank, ndim. destruct Hcube as [[Hc ->]|[Hc ->]]; rewrite Hc; reflexivity. }
    assert (Hitem : forall y, in_bounds y (shape cluster) = true ->
                item cluster y = (item labels (index_add y (slice_start s)) =? Z.of_nat i + 1)
                /\ item dt_i y = item dt (index_add y (slice_start s))).
    { intros y Hy. unfold cluster, dt_i.
      rewrite item_map_nd by exact Hy. rewrite !item_getslice by exact Hy.
      split; reflexivity. }
    set (y0 := index_sub x (slice_start s)).
    assert (Hy0 : in_bounds y0 (shape dt_i) = true).
    { apply in_slice_sub_bounds. apply Hslice, Hx. }
    split; [exact Hslice|]. split; [exact Hitem|]. split; [reflexivity|]. split; [|split].
    - intros k z Hz. unfold D. change (dilated cube3 cluster (S k))
        with (dilate (offsets cube3) (dilated cube3 cluster k)).
      destruct Hcube as [[Hc ->]|[Hc ->]].
      + apply dilate_square3; rewrite shape_dilated; assumption.
      + apply dilate_cube3; rewrite shape_dilated; assumption.
    - intros k z Hz. apply candidate_spec.
      + unfold D. rewrite shape_dilated. reflexivity.
      + exact Hz.
    - split; [|split].
      + intros k. unfold found_true_peak. rewrite np_all_equal_bool.
        rewrite shape_candidate, shape_dilated. reflexivity.
      + intros k. unfold found_saddle. rewrite andb_true_iff, negb_true_iff.
        rewrite np_sum_logical_and. reflexivity.
      + destruct (saddle_while_from cube3 dt_i cluster y0 Hsr Hy0 (Z.to_nat max_iters) 0)
          as [v [iters [Hrun [Hb [Hund Hcase]]]]].
        exists v, iters. split; [|split; [lia|split]].
        * unfold trim_saddle_cluster, slice_at. fold sl. rewrite Hnth. cbn [bind].
          fold s. fold cluster. fold dt_i. rewrite Z.sub_0_r.
          change (dilated cube3 cluster 0) with cluster in Hrun.
          change (Z.of_nat 0) with 0 in Hrun. rewrite Hrun. reflexivity.
        * intros j Hj. apply Hund. lia.
        * destruct Hcase as [[Hv [Hi' Ht]]|[[Hv [Hi' Hs]]|[Hv [Hi' Hl']]]].
          -- left. split; [exact Hv|]. split; [lia|exact Ht].
          -- right. left. split; [exact Hv|]. split; [lia|exact Hs].
          -- right. right. split; [exact Hv|]. split; [lia|].
             intros j Hj. destruct Hl' as [Hl'|Hl']; [lia|].
             destruct (Nat.eq_dec j iters) as [->|Hne]; [exact Hl'|]. apply Hund. lia. }
  split; [|exact Hcl].
  destruct (map_result_all_ok (trim_saddle_cluster dt max_iters cube3 labels sl (shape peaks))
              (seq 0 (Z.to_nat N))) as [results Hres].
  { intros i Hi. apply in_seq in Hi. destruct (Hcl i) as [s0 [_ H]]; [lia|].
    cbv zeta in H. destruct H as [_ [_ [_ [_ [_ [_ [_ [v [iters [Hrun _]]]]]]]]]].
    eexists. exact Hrun. }
  exists results. split; [exact Hres|].
  unfold trim_saddle_points. rewrite Hl. cbn [bind]. fold cube3. fold sl.
  apply (trim_saddle_steps dt max_iters cube3 labels sl (shape peaks));
    [reflexivity | exact Hres].
Qed.

Lemma saddle_loop_decides_witness :
  exists s0 v iters,
    nth_error (find_objects plateau_labels) 0 = Some (Some s0)
    /\ trim_saddle_cluster plateau_dt 500 (square 3) plateau_labels
         (find_objects plateau_labels) (shape plateau_peak) 0
       = Ok (extend_slice s0 (shape plateau_peak) 10, v, Z.of_nat iters)
    /\ (iters <= Z.to_nat 500)%nat.
Proof.
  destruct (saddle_loop_decides plateau_peak plateau_dt 500 plateau_labels 1) as [_ H].
  - left. reflexivity.
  - reflexivity.
  - vm_compute. reflexivity.
  - destruct (H 0%nat) as [s0 [Hs0 Hrest]]; [apply Nat.lt_0_1|]. cbv zeta in Hrest.
    destruct Hrest as [_ [_ [_ [_ [_ [_ [_ [v [iters [Hrun [Hle _]]]]]]]]]]].
    exists s0, v, iters. split; [exact Hs0|]. split; [exact Hrun | exact Hle].
Defined.
